(** * RenImg: the rename planner, the executor and the scanner

    A shallow embedding of [services/ImageRenamer.ts], [services/ImageResizer.ts],
    [services/ImageScanner.ts], [types.ts] and the handlers [handleRename] and
    [handleDirectorySelect] of [App.tsx].

    Conventions of the embedding
    - a JavaScript string is a [string]: a sequence of code units, here those
      of U+0000 to U+00FF; the tokens of the pattern language are ASCII;
    - a [number] that holds an integer (the counter, a time value, a pixel
      width) is a [Z], one that a double can hold; where the code computes with
      it, the rounding of double arithmetic is written out ([Num]); [NaN], the
      infinities and fractions in these fields are left out;
    - a function that can throw returns a [completion];
    - the File System Access API, the canvas and the directory picker belong to
      the browser: they are fields of a [Platform] record over an abstract world,
      and every call that the code issues is appended to a trace. *)

From stdpp Require Import gmap strings list.
From Stdlib Require Import ZArith Ascii DecimalString Sorted.
From Stdlib Require String DecimalPos DecimalZ.

Open Scope Z_scope.

(** ** Exceptions *)

Record JsError := { err_name : string; err_message : string }.

(** How a call completes: it returns a value or it throws. *)
Inductive completion (A : Type) : Type :=
| Normal (a : A)
| Throw (e : JsError).
Arguments Normal {A} a.
Arguments Throw {A} e.

Definition isNormal {A} (r : completion A) : bool :=
  match r with Normal _ => true | Throw _ => false end.

Notation "'let!' x ':=' m 'in' k" :=
  (match m with Normal x => k | Throw e => Throw e end)
  (at level 10, x pattern, m at level 100, k at level 200, only parsing).

(** ** Strings *)

Module Str.

(** Every code unit of the string satisfies [P]. *)
Fixpoint all (P : ascii -> bool) (s : string) : bool :=
  match s with
  | "" => true
  | String c s' => P c && all P s'
  end.

(** [repeat c n] is [n] copies of [c]. *)
Fixpoint repeat (c : ascii) (n : nat) : string :=
  match n with
  | O => ""
  | S k => String c (repeat c k)
  end.

(** [stripPrefix tok s] is the rest of [s] after its prefix [tok], if [s]
    starts with [tok]. *)
Fixpoint stripPrefix (tok s : string) : option string :=
  match tok with
  | "" => Some s
  | String a tok' =>
      match s with
      | "" => None
      | String b s' => if Ascii.eqb a b then stripPrefix tok' s' else None
      end
  end.

(** [s.toLowerCase()] on the code units U+0000..U+00FF: the letters A-Z and
    the Latin-1 capitals U+00C0..U+00DE, the multiplication sign U+00D7
    apart, move 32 places up; every other code unit is its own lower case. *)
Definition lowerChar (c : ascii) : ascii :=
  let n := N_of_ascii c in
  if ((65 <=? n) && (n <=? 90))%N then ascii_of_N (n + 32)
  else if ((192 <=? n) && (n <=? 222) && negb (n =? 215))%N then ascii_of_N (n + 32)
  else c.

Fixpoint toLowerCase (s : string) : string :=
  match s with
  | "" => ""
  | String c s' => String (lowerChar c) (toLowerCase s')
  end.

(** [s.padStart(targetLength, "0")]. *)
Definition padStart (targetLength : nat) (s : string) : string :=
  repeat "0"%char (targetLength - String.length s) +:+ s.

(** [n.toString()] for an integer [n]: its decimal digits, after a minus sign
    when it is negative. This is what the code prints for the integers from
    [-2^53] to [2^53]; for a larger double it prints the shortest digits that
    identify the double, and from [10^21] on an exponent. *)
Definition toString (n : Z) : string := NilZero.string_of_int (Z.to_int n).

End Str.

(** ** [String.prototype.replace] with a global pattern *)

(** [GetSubstitution] for a pattern without capture groups, as the two
    patterns with a replacement string are: in it, [$$] stands for a dollar sign,
    [$&] for the matched text, [$`] for the text before the match and [$'] for
    the text after it; a dollar sign in front of anything else is literal. *)
Fixpoint getSubstitution (matched before after template : string) : string :=
  match template with
  | "" => ""
  | String c t =>
      if Ascii.eqb c "$" then
        match t with
        | "" => String c ""
        | String d t' =>
            if Ascii.eqb d "$" then
              String "$" (getSubstitution matched before after t')
            else if Ascii.eqb d "&" then
              matched +:+ getSubstitution matched before after t'
            else if Ascii.eqb d "`" then
              before +:+ getSubstitution matched before after t'
            else if Ascii.eqb d "'" then
              after +:+ getSubstitution matched before after t'
            else String c (getSubstitution matched before after t)
        end
      else String c (getSubstitution matched before after t)
  end.

Section Replace.
(** What the capture groups of a match hold. *)
Context {Cap : Type}.
(** [matchAt s = Some (m, r, cap)]: the pattern matches at the start of [s],
      the matched text is [m] and [r] is what follows it. The patterns of this
      program never match the empty string. *)
Variable matchAt : string -> option (string * string * Cap).
(** The replacement for a match, from the text before it, the matched text,
      the text after it and the captures. *)
Variable replacement : string -> string -> string -> Cap -> string.

(** The scan of [s.replace(/.../g, ...)]: at a match the replacement is
    emitted and the scan resumes behind the match ([skip] counts the code
    units of the match still to pass over); elsewhere the code unit is
    copied. [before] is the part of the subject already passed. *)
Fixpoint replaceGo (before : string) (skip : nat) (s : string) : string :=
  match s with
  | "" => ""
  | String c s' =>
      match skip with
      | S k => replaceGo (before +:+ String c "") k s'
      | O =>
          match matchAt s with
          | Some (m, r, cap) =>
              replacement before m r cap
                +:+ replaceGo (before +:+ String c "") (pred (String.length m)) s'
          | None => String c (replaceGo (before +:+ String c "") O s')
          end
      end
  end.

Definition replaceAll (s : string) : string := replaceGo "" O s.
End Replace.

(** The pattern [/tok/g] for a text [tok] without regular-expression operators. *)
Definition matchToken (tok s : string) : option (string * string * unit) :=
  match Str.stripPrefix tok s with
  | Some r => Some (tok, r, tt)
  | None => None
  end.

(** [s.replace(/tok/g, template)] with a replacement string. *)
Definition replaceToken (tok template s : string) : string :=
  replaceAll (matchToken tok)
    (fun before m after _ => getSubstitution m before after template) s.

Definition isDigit (c : ascii) : bool :=
  let n := N_of_ascii c in ((48 <=? n) && (n <=? 57))%N.

(** The longest run of decimal digits at the start of [s], and the rest. *)
Fixpoint spanDigits (s : string) : string * string :=
  match s with
  | "" => ("", "")
  | String c s' =>
      if isDigit c then
        let '(ds, r) := spanDigits s' in (String c ds, r)
      else ("", s)
  end.

(** The pattern [/{num(?::(\d+))?}/]: [{num}], or [{num:] then one or more
    digits then [}]. The capture is the digits. The greedy [\d+] takes every
    digit; giving one back cannot help, since a digit is not a closing brace. *)
Definition matchNum (s : string) : option (string * string * option string) :=
  match Str.stripPrefix "{num" s with
  | None => None
  | Some r =>
      match r with
      | "" => None
      | String c r1 =>
          if Ascii.eqb c ":" then
            match spanDigits r1 with
            | (String d ds, String e r2) =>
                if Ascii.eqb e "}" then
                  Some ("{num:" +:+ String d ds +:+ "}", r2, Some (String d ds))
                else None
            | _ => None
            end
          else if Ascii.eqb c "}" then Some ("{num}", r1, None)
          else None
      end
  end.

(** The replacer callback of the third pass of [applyPattern]. *)
Definition numReplacer (index : Z) (paddingStr : option string) : string :=
  let numStr := Str.toString index in
  match paddingStr with
  | Some (String d ds) =>
      let padLen := String.length (String d ds) in
      Str.padStart padLen numStr
  | _ => numStr
  end.

Definition replaceNum (index : Z) (s : string) : string :=
  replaceAll matchNum (fun _ _ _ cap => numReplacer index cap) s.

(** ** [Date] *)

Module Date.

Definition msPerDay : Z := 86400000.

(** The largest time value of a [Date], in milliseconds either side of the epoch. *)
Definition maxTime : Z := 8640000000000000.

(** [new Date(value)] for an integral [value]: [TimeClip] keeps a time value
    within the range and turns any other into an invalid date. *)
Definition timeClip (value : Z) : option Z :=
  if Z.abs value <=? maxTime then Some value else None.

(** Year, month (1-12) and day of the month of a day number counted from the
    epoch, in the proleptic Gregorian calendar; the 400-year cycle is taken
    from 1 March 0000. *)
Definition civil (day : Z) : Z * Z * Z :=
  let z := day + 719468 in
  let era := z / 146097 in
  let doe := z - era * 146097 in
  let yoe := (doe - doe / 1460 + doe / 36524 - doe / 146096) / 365 in
  let doy := doe - (365 * yoe + yoe / 4 - yoe / 100) in
  let mp := (5 * doy + 2) / 153 in
  let d := doy - (153 * mp + 2) / 5 + 1 in
  let m := if mp <? 10 then mp + 3 else mp - 9 in
  let y := yoe + era * 400 + (if m <=? 2 then 1 else 0) in
  (y, m, d).

Definition pad (width : nat) (n : Z) : string := Str.padStart width (Str.toString n).

(** Four digits for the years 0 to 9999, a sign and six digits otherwise. *)
Definition yearString (y : Z) : string :=
  if (0 <=? y) && (y <=? 9999) then pad 4 y
  else (if 0 <=? y then "+" else "-") +:+ pad 6 (Z.abs y).

Definition rangeError : JsError :=
  {| err_name := "RangeError"; err_message := "Invalid time value" |}.

(** [new Date(value).toISOString()]: it throws a [RangeError] on an invalid date. *)
Definition toISOString (value : Z) : completion string :=
  match timeClip value with
  | None => Throw rangeError
  | Some tv =>
      let '(y, m, d) := civil (tv / msPerDay) in
      let t := tv mod msPerDay in
      Normal (yearString y +:+ "-" +:+ pad 2 m +:+ "-" +:+ pad 2 d +:+ "T"
              +:+ pad 2 (t / 3600000) +:+ ":" +:+ pad 2 (t / 60000 mod 60) +:+ ":"
              +:+ pad 2 (t / 1000 mod 60) +:+ "." +:+ pad 3 (t mod 1000) +:+ "Z")
  end.

End Date.

(** [s.split(sep)[0]] for a separator of one code unit: [s] up to its first
    [sep], the whole of [s] if there is none. *)
Fixpoint splitHead (sep : ascii) (s : string) : string :=
  match s with
  | "" => ""
  | String c s' => if Ascii.eqb c sep then "" else String c (splitHead sep s')
  end.

(** ** Numbers

    A [number] is a double of IEEE 754. Every integer from [-2^53] to [2^53] is
    a double; a larger double is an integer of 53 bits times a power of two.
    An operation gives the double nearest to the exact result, and of two that
    are as near the one with the even significand. *)

Module Num.

(** [2^53]: up to it, on either side of zero, every integer is a double. *)
Definition maxExact : Z := 9007199254740992.

(** The integer nearest to [n / d], for a positive [d]; of two that are as
    near, the even one. *)
Definition nearestInteger (n d : Z) : Z :=
  let q := n / d in
  match 2 * (n mod d) ?= d with
  | Lt => q
  | Gt => q + 1
  | Eq => if Z.even q then q else q + 1
  end.

(** The double nearest to the integer [z]. (The doubles end below [2^1024];
    no sum of a double and one comes near it.) *)
Definition round (z : Z) : Z :=
  let a := Z.abs z in
  if a <=? maxExact then z
  else
    let unit := 2 ^ (Z.log2 a - 52) in
    Z.sgn z * (nearestInteger a unit * unit).

(** [n + 1] for a double [n]: what [counter++] leaves in [counter]. *)
Definition succ (n : Z) : Z := round (n + 1).

(** The counter after [k] increments. *)
Definition count (start : Z) (k : nat) : Z := Nat.iter k succ start.

(** A double that need not be an integer is written [(m, e)] for [m * 2^e].

    [p / q] for two integers, [q] positive: the quotient is scaled by a power
    of two so that its integer part has 53 bits, and rounded there. (The
    quotients here are of image sizes, far from the smallest and from the
    largest double.) *)
Definition divide (p q : Z) : Z * Z :=
  if p =? 0 then (0, 0)
  else
    let a := Z.abs p in
    let e0 := Z.log2 a - Z.log2 q - 52 in
    let scaled := fun e : Z => (a * 2 ^ Z.max (- e) 0, q * 2 ^ Z.max e 0) in
    let e := if fst (scaled e0) / snd (scaled e0) <? 2 ^ 52 then e0 - 1 else e0 in
    (Z.sgn p * nearestInteger (fst (scaled e)) (snd (scaled e)), e).

(** [n * x] for an integer [n] and a double [x]. *)
Definition times (n : Z) (x : Z * Z) : Z * Z :=
  let '(m, e) := x in
  divide (n * m * 2 ^ Z.max e 0) (2 ^ Z.max (- e) 0).

(** [Math.round(x)]: the integer nearest to [x], the larger of two that are
    as near. *)
Definition mathRound (x : Z * Z) : Z :=
  let '(m, e) := x in
  (2 * m * 2 ^ Z.max e 0 + 2 ^ Z.max (- e) 0) / (2 * 2 ^ Z.max (- e) 0).

End Num.

(** ** The data model ([types.ts]) *)

Inductive FileStatus := PENDING | SUCCESS | ERROR | SKIPPED.

Global Instance FileStatus_eq_dec : EqDecision FileStatus.
Proof. solve_decision. Defined.

(** A DOM [File]: its name, MIME type, time of last change and bytes. *)
Record File := {
  file_name : string;
  file_type : string;
  file_lastModified : Z;
  file_bytes : list Byte.byte
}.

Definition file_size (f : File) : Z := Z.of_nat (length (file_bytes f)).

(** A [FileSystemFileHandle]; [handle_move] tells whether the handle has the
    experimental [move] method. *)
Record FileSystemFileHandle := {
  handle_name : string;
  handle_move : bool
}.

Record FileSystemDirectoryHandle := { dir_name : string }.

Record ImageFile := {
  id : string;
  originalName : string;
  extension : string;
  path : string;
  size : Z;
  lastModified : Z;
  previewUrl : option string;
  fileObject : File;
  handle : option FileSystemFileHandle
}.

Record RenameConfig := {
  pattern : string;
  startNumber : Z;
  recursive : bool;
  dryRun : bool;
  overwrite : bool;
  prefix : string;
  suffix : string;
  enableResize : bool;
  resizeWidth : Z;
  resizeQuality : Z;
  keepOriginals : bool
}.

(** [ProcessedFile extends ImageFile]: the object [{...file, newName, status,
    errorMessage}] is the entry [file], copied, with three more fields. *)
Record ProcessedFile := {
  file : ImageFile;
  newName : string;
  status : FileStatus;
  errorMessage : option string
}.

(** ** The planner ([ImageRenamer.generatePreview]) *)

Definition applyPattern (file : ImageFile) (config : RenameConfig) (index : Z)
  : completion string :=
  let name := pattern config in
  let name := replaceToken "{name}" (originalName file) name in
  let! iso := Date.toISOString (lastModified file) in
  let dateStr := splitHead "T" iso in
  let name := replaceToken "{date}" dateStr name in
  let name := replaceNum index name in
  let name := prefix config +:+ name +:+ suffix config in
  Normal name.

Definition conflictMessage : string := "Conflict: Filename already exists in destination".

(** The variables of the loop of [generatePreview]. *)
Record PreviewState := {
  result : list ProcessedFile;
  counter : Z;
  usedNames : gset string
}.

(** One turn of the loop, for the entry [f]. The counter is a double:
    [counter++] leaves the double nearest to [counter + 1] in it, which is
    [counter + 1] below [2^53] and [counter] at [2^53]. *)
Definition previewStep (config : RenameConfig) (st : PreviewState) (f : ImageFile)
  : completion PreviewState :=
  let! newName := applyPattern f config (counter st) in
  let fullNewName := newName +:+ extension f in
  let '(status, errorMessage) :=
    if bool_decide (Str.toLowerCase fullNewName ∈ usedNames st) then
      if negb (overwrite config) then (ERROR, Some conflictMessage)
      else (PENDING, None)
    else (PENDING, None) in
  Normal {| result := result st ++ [ {| file := f; newName := newName;
                                         status := status;
                                         errorMessage := errorMessage |} ];
            counter := Num.succ (counter st);
            usedNames := {[ Str.toLowerCase fullNewName ]} ∪ usedNames st |}.

Fixpoint previewLoop (config : RenameConfig) (st : PreviewState) (files : list ImageFile)
  : completion PreviewState :=
  match files with
  | [] => Normal st
  | f :: files' =>
      let! st' := previewStep config st f in
      previewLoop config st' files'
  end.

Definition generatePreview (files : list ImageFile) (config : RenameConfig)
  : completion (list ProcessedFile) :=
  let! st := previewLoop config
               {| result := []; counter := startNumber config; usedNames := ∅ |}
               files in
  Normal (result st).

(** The key under which a planned entry takes part in conflict detection. *)
Definition targetKey (p : ProcessedFile) : string :=
  Str.toLowerCase (newName p +:+ extension (file p)).

(** The computed fields of a planned entry. *)
Definition outcome (p : ProcessedFile) : string * FileStatus * option string :=
  (newName p, status p, errorMessage p).

Definition outcomes (r : completion (list ProcessedFile))
  : completion (list (string * FileStatus * option string)) :=
  let! plan := r in Normal (outcome <$> plan).

(** ** What the planner reads *)

(** A time value that a [Date] can hold. *)
Definition validTime (f : ImageFile) : Prop := Z.abs (lastModified f) <= Date.maxTime.

(** The fields of an entry and of the configuration that [generatePreview] and
    [applyPattern] read. *)
Definition entryView (f : ImageFile) : string * string * Z :=
  (originalName f, extension f, lastModified f).

Definition configView (c : RenameConfig) : string * Z * bool * string * string :=
  (pattern c, startNumber c, overwrite c, prefix c, suffix c).

(** ** Brace blocks *)

Definition isOpen (c : ascii) : bool := Ascii.eqb c "{".
Definition isClose (c : ascii) : bool := Ascii.eqb c "}".
Definition noBrace (c : ascii) : bool := negb (isOpen c) && negb (isClose c).
Definition noDollar (c : ascii) : bool := negb (Ascii.eqb c "$").

(** A brace block: an opening brace, a text without braces, a closing brace.
    Every token of the pattern language is one. *)
Definition block (t : string) : Prop :=
  exists body, t = String "{" (body +:+ "}") /\ Str.all noBrace body = true.

(** The date part of the ISO string of a time value, as [applyPattern] takes
    it; the empty string stands in where [toISOString] throws. *)
Definition dateString (value : Z) : string :=
  match Date.toISOString value with
  | Normal iso => splitHead "T" iso
  | Throw _ => ""
  end.

(** The second and third pass of [applyPattern] on a text. *)
Definition laterPasses (dateStr : string) (index : Z) (s : string) : string :=
  replaceNum index (replaceToken "{date}" dateStr s).

(** The code units of the date part of an ISO date string. *)
Definition dateChar (c : ascii) : bool :=
  isDigit c || Ascii.eqb c "-" || Ascii.eqb c "+".

(** The code units of an ISO date string. *)
Definition isoChar (c : ascii) : bool :=
  isDigit c || Ascii.eqb c "-" || Ascii.eqb c "+" || Ascii.eqb c "T"
  || Ascii.eqb c ":" || Ascii.eqb c "." || Ascii.eqb c "Z".

(** The three passes of [applyPattern] on a part of the pattern, for the entry
    [f] and the number [index]. *)
Definition passes (f : ImageFile) (index : Z) (s : string) : string :=
  laterPasses (dateString (lastModified f)) index
    (replaceToken "{name}" (originalName f) s).

(** What one turn of the loop appends for the entry [f] that gets the name [n],
    when [used] holds the keys seen so far. *)
Definition planned (config : RenameConfig) (used : gset string) (f : ImageFile) (n : string)
  : ProcessedFile :=
  let flagged :=
    bool_decide (Str.toLowerCase (n +:+ extension f) ∈ used) && negb (overwrite config) in
  {| file := f; newName := n;
     status := if flagged then ERROR else PENDING;
     errorMessage := if flagged then Some conflictMessage else None |}.

(** ** Barriers of a scan *)

(** A text [t] is a barrier for a pattern when no match that starts in front of
    [t] reaches into it. *)
Definition barrier {Cap : Type} (matchAt : string -> option (string * string * Cap))
  (t : string) : Prop :=
  forall c x y m r cap,
    matchAt (String c x +:+ t +:+ y) = Some (m, r, cap) ->
    exists x', String c x = m +:+ x' /\ r = x' +:+ t +:+ y.

(** The code units that a match of [matchNum] can hold. *)
Definition numChar (c : ascii) : bool :=
  isDigit c || isOpen c || isClose c || Ascii.eqb c "n" || Ascii.eqb c "u"
  || Ascii.eqb c "m" || Ascii.eqb c ":".

(** ** The browser *)

(** A [Blob] as the canvas encodes it. *)
Record Blob := { blob_type : string; blob_bytes : list Byte.byte }.

(** What [executeRename] writes: the [File] read from the handle, or the
    [Blob] that [resizeImage] returned. *)
Inductive FileContent :=
| OfFile (f : File)
| OfBlob (b : Blob).

Definition contentBytes (data : FileContent) : list Byte.byte :=
  match data with
  | OfFile f => file_bytes f
  | OfBlob b => blob_bytes b
  end.

(** A decoded [Image]. *)
Record Image := { img_width : Z; img_height : Z }.

(** A [FileSystemWritableFileStream], known by the handle it was made from. *)
Record Writable := { writable_handle : FileSystemFileHandle }.

(** An entry of a directory as its iterator yields it: a file handle, or
    something else. *)
Inductive DirEntry :=
| FileEntry (h : FileSystemFileHandle)
| OtherEntry (name : string).

(** The calls that the program issues to the browser. *)
Inductive Call :=
| CGetFile (h : FileSystemFileHandle)
| CReadAsDataURL (f : File)
| CLoadImage (url : string)
| CGetContext
| CToBlob (img : Image) (width height : Z) (mimeType : string) (quality : Z)
| CMove (h : FileSystemFileHandle) (name : string)
| CGetFileHandle (dir : FileSystemDirectoryHandle) (name : string)
| CCreateWritable (h : FileSystemFileHandle)
| CWrite (w : Writable) (data : FileContent)
| CClose (w : Writable)
| CRemoveEntry (dir : FileSystemDirectoryHandle) (name : string)
| CConsoleError (message : string)
| CShowDirectoryPicker
| CValues (dir : FileSystemDirectoryHandle)
| CRandom
| CCreateObjectURL (f : File).

(** A call and whether it returned. *)
Definition Event : Type := Call * bool.

(** The browser over a world [W]. A call takes the world and gives its
    completion and the world after it. [readAsDataURL] and [loadImage] end in
    their [onload] or in their [onerror] handler ([None]); [toBlob] hands its
    callback a blob or [null] ([None]); a reader or an image that calls neither
    handler is left out. [values] gives the directory as the outcomes of the
    successive steps of its iterator. *)
Record Platform (W : Type) := {
  p_getFile : FileSystemFileHandle -> W -> completion File * W;
  p_readAsDataURL : File -> W -> option string * W;
  p_loadImage : string -> W -> option Image * W;
  p_getContext : W -> bool * W;
  p_toBlob : Image -> Z -> Z -> string -> Z -> W -> completion (option Blob) * W;
  p_move : FileSystemFileHandle -> string -> W -> completion unit * W;
  p_getFileHandle :
    FileSystemDirectoryHandle -> string -> W -> completion FileSystemFileHandle * W;
  p_createWritable : FileSystemFileHandle -> W -> completion Writable * W;
  p_write : Writable -> FileContent -> W -> completion unit * W;
  p_close : Writable -> W -> completion unit * W;
  p_removeEntry : FileSystemDirectoryHandle -> string -> W -> completion unit * W;
  p_hasPicker : bool;
  p_showDirectoryPicker : W -> completion FileSystemDirectoryHandle * W;
  p_values : FileSystemDirectoryHandle -> W -> list (completion DirEntry) * W;
  p_random : W -> string * W;
  p_createObjectURL : File -> W -> string * W;
  p_localeCompare : string -> string -> Z
}.
Arguments p_getFile {W}.
Arguments p_readAsDataURL {W}.
Arguments p_loadImage {W}.
Arguments p_getContext {W}.
Arguments p_toBlob {W}.
Arguments p_move {W}.
Arguments p_getFileHandle {W}.
Arguments p_createWritable {W}.
Arguments p_write {W}.
Arguments p_close {W}.
Arguments p_removeEntry {W}.
Arguments p_hasPicker {W}.
Arguments p_showDirectoryPicker {W}.
Arguments p_values {W}.
Arguments p_random {W}.
Arguments p_createObjectURL {W}.
Arguments p_localeCompare {W}.

(** ** Effectful code *)

(** An [async] function of the program: from the world to its completion, the
    world after it and the calls it issued, in order. *)
Definition IO (W A : Type) : Type := W -> completion A * W * list Event.

Definition ret {W A} (a : A) : IO W A := fun w => (Normal a, w, []).

Definition throw {W A} (e : JsError) : IO W A := fun w => (Throw e, w, []).

Definition bind {W A B} (m : IO W A) (k : A -> IO W B) : IO W B :=
  fun w =>
    match m w with
    | (Normal a, w1, t1) =>
        match k a w1 with
        | (r, w2, t2) => (r, w2, t1 ++ t2)
        end
    | (Throw e, w1, t1) => (Throw e, w1, t1)
    end.

(** [try { m } catch (err) { handler err }]. *)
Definition tryCatch {W A} (m : IO W A) (handler : JsError -> IO W A) : IO W A :=
  fun w =>
    match m w with
    | (Normal a, w1, t1) => (Normal a, w1, t1)
    | (Throw e, w1, t1) =>
        match handler e w1 with
        | (r, w2, t2) => (r, w2, t1 ++ t2)
        end
    end.

Notation "x <- m ;; k" := (bind m (fun x => k))
  (at level 100, m at next level, right associativity).
Notation "m ;;; k" := (bind m (fun _ => k))
  (at level 100, right associativity).

(** A call that returns or throws. *)
Definition perform {W A} (c : Call) (op : W -> completion A * W) : IO W A :=
  fun w => match op w with (r, w1) => (r, w1, [(c, isNormal r)]) end.

(** A call that ends in a success or in an error handler; [e] is what the
    program rejects with in the error handler. *)
Definition performOr {W A} (c : Call) (op : W -> option A * W) (e : JsError) : IO W A :=
  fun w =>
    match op w with
    | (Some a, w1) => (Normal a, w1, [(c, true)])
    | (None, w1) => (Throw e, w1, [(c, false)])
    end.

(** A call that cannot fail. *)
Definition performAlways {W A} (c : Call) (op : W -> A * W) : IO W A :=
  fun w => match op w with (a, w1) => (Normal a, w1, [(c, true)]) end.

Definition consoleError {W} (message : string) : IO W unit :=
  fun w => (Normal tt, w, [(CConsoleError message, true)]).

Definition mkError (message : string) : JsError :=
  {| err_name := "Error"; err_message := message |}.

(** ** The resizer ([ImageResizer.ts]) *)

Section Resizer.
Context {W : Type}.
Variable P : Platform W.

(** The [FileReader] and the [Image] of [shouldResize] and of [resizeImage]. *)
Definition loadFile (file : File) : IO W Image :=
  url <- performOr (CReadAsDataURL file) (p_readAsDataURL P file)
           (mkError "Failed to read file") ;;
  performOr (CLoadImage url) (p_loadImage P url) (mkError "Failed to load image").

Definition shouldResize (file : File) (targetWidth : Z) : IO W bool :=
  img <- loadFile file ;;
  ret (img_width img >? targetWidth).

Definition getMimeType (originalType : string) : string :=
  if String.eqb originalType "image/png" then "image/png"
  else if String.eqb originalType "image/webp" then "image/webp"
  else "image/jpeg".

(** [Math.round(targetWidth * (img.height / img.width))], in the arithmetic of
    doubles, for an image of positive width. *)
Definition targetHeightOf (img : Image) (targetWidth : Z) : Z :=
  let aspectRatio := Num.divide (img_height img) (img_width img) in
  Num.mathRound (Num.times targetWidth aspectRatio).

Definition resizeImage (file : File) (targetWidth quality : Z) : IO W Blob :=
  img <- loadFile file ;;
  let targetHeight := targetHeightOf img targetWidth in
  ctx <- performAlways CGetContext (p_getContext P) ;;
  if negb ctx then throw (mkError "Could not get canvas context")
  else
    let mimeType := getMimeType (file_type file) in
    blob <- perform (CToBlob img targetWidth targetHeight mimeType quality)
              (p_toBlob P img targetWidth targetHeight mimeType quality) ;;
    match blob with
    | Some b => ret b
    | None => throw (mkError "Failed to create blob from canvas")
    end.

End Resizer.

(** ** The executor ([ImageRenamer.executeRename], [App.handleRename]) *)

Section Executor.
Context {W : Type}.
Variable P : Platform W.

Definition fullNewNameOf (pfile : ProcessedFile) : string :=
  newName pfile +:+ extension (file pfile).

Definition fullOldNameOf (pfile : ProcessedFile) : string :=
  originalName (file pfile) +:+ extension (file pfile).

(** The name that the copy is written under. *)
Definition targetFileNameOf (pfile : ProcessedFile) (config : RenameConfig) : string :=
  if keepOriginals config && enableResize config
  then newName pfile +:+ "_resized" +:+ extension (file pfile)
  else fullNewNameOf pfile.

(** The first part of the [try] block of [executeRename]: what is to be written. *)
Definition readContent (fileHandle : FileSystemFileHandle) (config : RenameConfig)
  : IO W FileContent :=
  if enableResize config then
    originalFile <- perform (CGetFile fileHandle) (p_getFile P fileHandle) ;;
    resize <- shouldResize P originalFile (resizeWidth config) ;;
    if resize then
      blob <- resizeImage P originalFile (resizeWidth config) (resizeQuality config) ;;
      ret (OfBlob blob)
    else ret (OfFile originalFile)
  else
    f <- perform (CGetFile fileHandle) (p_getFile P fileHandle) ;;
    ret (OfFile f).

(** The fallback of [executeRename]: copy, then delete. *)
Definition copyAndDelete (dirHandle : FileSystemDirectoryHandle)
  (targetFileName fullOldName : string) (config : RenameConfig)
  (fileContent : FileContent) : IO W unit :=
  newFileHandle <- perform (CGetFileHandle dirHandle targetFileName)
                     (p_getFileHandle P dirHandle targetFileName) ;;
  writable <- perform (CCreateWritable newFileHandle) (p_createWritable P newFileHandle) ;;
  perform (CWrite writable fileContent) (p_write P writable fileContent) ;;;
  perform (CClose writable) (p_close P writable) ;;;
  if negb (keepOriginals config) && negb (String.eqb targetFileName fullOldName)
  then perform (CRemoveEntry dirHandle fullOldName) (p_removeEntry P dirHandle fullOldName)
  else ret tt.

Definition executeRename (pfile : ProcessedFile)
  (dirHandle : option FileSystemDirectoryHandle) (config : RenameConfig) : IO W unit :=
  match handle (file pfile), dirHandle with
  | Some fileHandle, Some dirHandle =>
      let fullNewName := fullNewNameOf pfile in
      let fullOldName := fullOldNameOf pfile in
      if String.eqb fullNewName fullOldName && negb (enableResize config) then ret tt
      else
        tryCatch
          (fileContent <- readContent fileHandle config ;;
           let targetFileName := targetFileNameOf pfile config in
           if handle_move fileHandle && negb (enableResize config)
              && negb (keepOriginals config)
           then perform (CMove fileHandle fullNewName) (p_move P fileHandle fullNewName)
           else copyAndDelete dirHandle targetFileName fullOldName config fileContent)
          (fun err =>
             consoleError ("Failed to rename " +:+ originalName (file pfile)) ;;;
             throw err)
  | _, _ => throw (mkError "Missing file system permissions or handles.")
  end.

(** The state of [handleRename]: the React state [processedFiles], the world,
    and what each turn of the loop issued, turn by turn. *)
Record RenameState := {
  processedFiles : list ProcessedFile;
  world : W;
  issued : list (list Event)
}.

Definition setStatus (s : FileStatus) (message : option string) (p : ProcessedFile)
  : ProcessedFile :=
  {| file := file p; newName := newName p; status := s;
     errorMessage := match message with Some m => Some m | None => errorMessage p end |}.

(** One turn of the loop of [handleRename], for [queue[i]]. An entry in
    [ERROR] is passed over. [next[i] = {...next[i], status}] leaves the other
    places of the array as they are. The progress bar is not part of the state. *)
Definition renameStep (dirHandle : FileSystemDirectoryHandle) (config : RenameConfig)
  (i : nat) (pfile : ProcessedFile) (st : RenameState) : RenameState :=
  if decide (status pfile <> ERROR) then
    match executeRename pfile (Some dirHandle) config (world st) with
    | (Normal _, w, t) =>
        {| processedFiles := alter (setStatus SUCCESS None) i (processedFiles st);
           world := w; issued := issued st ++ [t] |}
    | (Throw _, w, t) =>
        {| processedFiles :=
             alter (setStatus ERROR (Some "Write/Move failed")) i (processedFiles st);
           world := w;
           issued :=
             issued st
             ++ [t ++ [(CConsoleError ("Rename failed for " +:+ originalName (file pfile)),
                        true)]] |}
    end
  else
    {| processedFiles := processedFiles st; world := world st;
       issued := issued st ++ [[]] |}.

Fixpoint renameLoop (dirHandle : FileSystemDirectoryHandle) (config : RenameConfig)
  (i : nat) (queue : list ProcessedFile) (st : RenameState) : RenameState :=
  match queue with
  | [] => st
  | pfile :: queue' =>
      renameLoop dirHandle config (S i) queue' (renameStep dirHandle config i pfile st)
  end.

(** [handleRename]: nothing happens on a dry run or without a directory handle;
    otherwise the loop runs over a copy of [processedFiles]. *)
Definition handleRename (dirHandle : option FileSystemDirectoryHandle)
  (config : RenameConfig) (processed : list ProcessedFile) (w : W) : RenameState :=
  let st := {| processedFiles := processed; world := w; issued := [] |} in
  if dryRun config then st
  else
    match dirHandle with
    | None => st
    | Some dirHandle => renameLoop dirHandle config O processed st
    end.

End Executor.

(** ** Reading traces *)


Definition isCanvas (e : Event) : bool :=
  match e.1 with CGetContext | CToBlob _ _ _ _ _ => true | _ => false end.

(** The calls of the first part of the [try] block: they read. *)
Definition isRead (e : Event) : bool :=
  match e.1 with
  | CGetFile _ | CReadAsDataURL _ | CLoadImage _ | CGetContext | CToBlob _ _ _ _ _ => true
  | _ => false
  end.

(** The calls of the fallback of [executeRename] and how it completes: it
    stops at the first call that throws, and it removes the original behind a
    committed write, when originals are not kept and the target has another
    name. *)
Inductive copyTrace (dir : FileSystemDirectoryHandle) (target old : string)
  (config : RenameConfig) (content : FileContent) : completion unit -> list Event -> Prop :=
| copy_no_handle e :
    copyTrace dir target old config content (Throw e)
      [(CGetFileHandle dir target, false)]
| copy_no_writable h e :
    copyTrace dir target old config content (Throw e)
      [(CGetFileHandle dir target, true); (CCreateWritable h, false)]
| copy_write_failed h wr e :
    copyTrace dir target old config content (Throw e)
      [(CGetFileHandle dir target, true); (CCreateWritable h, true);
       (CWrite wr content, false)]
| copy_close_failed h wr e :
    copyTrace dir target old config content (Throw e)
      [(CGetFileHandle dir target, true); (CCreateWritable h, true);
       (CWrite wr content, true); (CClose wr, false)]
| copy_kept h wr :
    keepOriginals config = true \/ target = old ->
    copyTrace dir target old config content (Normal tt)
      [(CGetFileHandle dir target, true); (CCreateWritable h, true);
       (CWrite wr content, true); (CClose wr, true)]
| copy_removed h wr r :
    keepOriginals config = false -> target <> old ->
    copyTrace dir target old config content r
      [(CGetFileHandle dir target, true); (CCreateWritable h, true);
       (CWrite wr content, true); (CClose wr, true);
       (CRemoveEntry dir old, isNormal r)].

(** What the [catch] block of [executeRename] logs for [pfile]. *)
Definition renameFailed (pfile : ProcessedFile) : Event :=
  (CConsoleError ("Failed to rename " +:+ originalName (file pfile)), true).

(** Whether [executeRename] takes the [move] method of the handle. *)
Definition takesMove (h : FileSystemFileHandle) (config : RenameConfig) : bool :=
  handle_move h && negb (enableResize config) && negb (keepOriginals config).

(** What the [catch] block of [handleRename] logs for [pfile]. *)
Definition batchFailed (pfile : ProcessedFile) : Event :=
  (CConsoleError ("Rename failed for " +:+ originalName (file pfile)), true).

(** The entry [pfile] after the turn of [handleRename] in which
    [executeRename] completed as [r]. *)
Definition finished (r : completion unit) (pfile : ProcessedFile) : ProcessedFile :=
  match r with
  | Normal _ => setStatus SUCCESS None pfile
  | Throw _ => setStatus ERROR (Some "Write/Move failed") pfile
  end.

(** ** The scanner ([ImageScanner.scanDirectory]) *)

Definition allowedExtensions : list string :=
  [".jpg"; ".jpeg"; ".png"; ".webp"; ".gif"; ".svg"; ".tiff"; ".bmp"].

(** [s.lastIndexOf(c)] for one code unit [c]; [None] stands for -1. *)
Fixpoint lastIndexOf (c : ascii) (s : string) : option nat :=
  match s with
  | "" => None
  | String a s' =>
      match lastIndexOf c s' with
      | Some i => Some (S i)
      | None => if Ascii.eqb a c then Some O else None
      end
  end.

(** [s.substring(0, n)] and [s.substring(n)]. *)
Fixpoint takeStr (n : nat) (s : string) : string :=
  match n, s with
  | S k, String a s' => String a (takeStr k s')
  | _, _ => ""
  end.

Fixpoint dropStr (n : nat) (s : string) : string :=
  match n, s with
  | S k, String _ s' => dropStr k s'
  | _, _ => s
  end.

Section Scanner.
Context {W : Type}.
Variable P : Platform W.

(** [files.sort((a, b) => a.originalName.localeCompare(b.originalName))]: a
    stable sort; an entry goes in front of the first one that it does not
    compare greater than. *)
Fixpoint insertByName (f : ImageFile) (sorted : list ImageFile) : list ImageFile :=
  match sorted with
  | [] => [f]
  | g :: sorted' =>
      if p_localeCompare P (originalName f) (originalName g) <=? 0
      then f :: g :: sorted'
      else g :: insertByName f sorted'
  end.

Definition sortByName (files : list ImageFile) : list ImageFile :=
  foldr insertByName [] files.

(** The body of the loop over the directory: the entry that is pushed, if any. *)
Definition scanEntry (entry : DirEntry) : IO W (option ImageFile) :=
  match entry with
  | OtherEntry _ => ret None
  | FileEntry fileHandle =>
      let fileName := handle_name fileHandle in
      match lastIndexOf "." fileName with
      | None => ret None
      | Some lastDotIndex =>
          let extension := Str.toLowerCase (dropStr lastDotIndex fileName) in
          let nameWithoutExt := takeStr lastDotIndex fileName in
          if bool_decide (extension ∈ allowedExtensions) then
            fileData <- perform (CGetFile fileHandle) (p_getFile P fileHandle) ;;
            newId <- performAlways CRandom (p_random P) ;;
            url <- performAlways (CCreateObjectURL fileData) (p_createObjectURL P fileData) ;;
            ret (Some {| id := newId; originalName := nameWithoutExt;
                         extension := extension; path := fileName;
                         size := file_size fileData;
                         lastModified := file_lastModified fileData;
                         previewUrl := Some url; fileObject := fileData;
                         handle := Some fileHandle |})
          else ret None
      end
  end.

Fixpoint scanLoop (entries : list (completion DirEntry)) (files : list ImageFile)
  : IO W (list ImageFile) :=
  match entries with
  | [] => ret files
  | Throw e :: _ => throw e
  | Normal entry :: entries' =>
      pushed <- scanEntry entry ;;
      scanLoop entries' (match pushed with Some f => files ++ [f] | None => files end)
  end.

Definition unsupported : JsError :=
  mkError "Your browser does not support the File System Access API. Please use Chrome, Edge, or Opera.".

(** [scanDirectory]; the directory handle of the result is [null] ([None])
    when the user closed the picker. *)
Definition scanDirectory : IO W (list ImageFile * option FileSystemDirectoryHandle) :=
  if negb (p_hasPicker P) then throw unsupported
  else
    tryCatch
      (dirHandle <- perform CShowDirectoryPicker (p_showDirectoryPicker P) ;;
       entries <- performAlways (CValues dirHandle) (p_values P dirHandle) ;;
       files <- scanLoop entries [] ;;
       ret (sortByName files, Some dirHandle))
      (fun error =>
         if String.eqb (err_name error) "AbortError" then ret ([], None)
         else throw error).

End Scanner.

(** ** Sample data *)

Module Sample.

Definition emptyFile : File :=
  {| file_name := ""; file_type := "image/jpeg"; file_lastModified := 0; file_bytes := [] |}.

Definition entry (name ext : string) (modified : Z) : ImageFile :=
  {| id := "x"; originalName := name; extension := ext; path := name +:+ ext;
     size := 0; lastModified := modified; previewUrl := None;
     fileObject := emptyFile; handle := None |}.

(** The configuration that [App.tsx] starts with. *)
Definition config : RenameConfig :=
  {| pattern := "image_{num:003}"; startNumber := 1; recursive := false;
     dryRun := false; overwrite := false; prefix := ""; suffix := "";
     enableResize := false; resizeWidth := 1920; resizeQuality := 85;
     keepOriginals := false |}.

Definition withPattern (pat : string) (ow : bool) : RenameConfig :=
  {| pattern := pat; startNumber := 1; recursive := false;
     dryRun := false; overwrite := ow; prefix := ""; suffix := "";
     enableResize := false; resizeWidth := 1920; resizeQuality := 85;
     keepOriginals := false |}.

Definition byNameAndDate : RenameConfig := withPattern "{name}_{date}" false.

(** [byNameAndDate] with other values in the fields that the planner does not read. *)
Definition byNameAndDate' : RenameConfig :=
  {| pattern := "{name}_{date}"; startNumber := 1; recursive := true;
     dryRun := true; overwrite := false; prefix := ""; suffix := "";
     enableResize := true; resizeWidth := 800; resizeQuality := 50;
     keepOriginals := true |}.

(** Three entries, the second a case variant of the first. *)
Definition batch : list ImageFile :=
  [entry "Cat" ".jpg" 0; entry "cat" ".jpg" 0; entry "dog" ".jpg" 0].

Definition batchPlan : list ProcessedFile :=
  Eval vm_compute in
    match generatePreview batch byNameAndDate with
    | Normal plan => plan
    | Throw _ => []
    end.

(** The same entries as they would come out of another scan: other ids,
    other handles. *)
Definition rescanned : list ImageFile :=
  map (fun f => {| id := "y"; originalName := originalName f;
                   extension := extension f; path := path f; size := 1;
                   lastModified := lastModified f; previewUrl := Some "blob:1";
                   fileObject := fileObject f;
                   handle := Some {| handle_name := path f; handle_move := true |} |})
      batch.

Definition planned1 : ProcessedFile :=
  {| file := entry "cat" ".jpg" 0; newName := "cat_1970-01-01";
     status := ERROR; errorMessage := Some conflictMessage |}.

Definition planned2 : ProcessedFile :=
  {| file := entry "dog" ".jpg" 0; newName := "dog_1970-01-01";
     status := PENDING; errorMessage := None |}.

(** An entry whose name holds the two tokens, and a pattern that takes the name
    in. *)
Definition tokenEntry : ImageFile := entry "a{num}b{date}c" ".jpg" 0.
Definition byName : RenameConfig := withPattern "x-{name}-{num:02}" false.

(** An entry whose time of last change is one millisecond behind the last
    time value of a [Date]. *)
Definition lateEntry : ImageFile := entry "a" ".jpg" 8640000000000001.

End Sample.

(** ** A browser in memory *)

Module Mem.

(** The files of one directory by name, and what was written to a stream and
    is not yet committed. *)
Record World := {
  disk : gmap string File;
  staged : gmap string FileContent
}.

Definition notFound : JsError :=
  {| err_name := "NotFoundError"; err_message := "A requested file or directory could not be found." |}.

Definition notAllowed : JsError :=
  {| err_name := "NotAllowedError"; err_message := "The request is not allowed by the user agent." |}.

Definition aborted : JsError :=
  {| err_name := "AbortError"; err_message := "The user aborted a request." |}.

Definition fileOf (name : string) (data : FileContent) : File :=
  {| file_name := name;
     file_type := match data with OfFile f => file_type f | OfBlob b => blob_type b end;
     file_lastModified := 0;
     file_bytes := contentBytes data |}.

(** How the picker ends. *)
Inductive Picker := Picks | Dismissed | Denied.

(** The browser: every image is 1000 pixels wide and 750 high, a write to a
    file named in [failing] throws, the picker ends as [picker] says. *)
Definition platform (picker : option Picker) (failing : list string) : Platform World :=
  {| p_getFile h w :=
       match disk w !! handle_name h with
       | Some f => (Normal f, w)
       | None => (Throw notFound, w)
       end;
     p_readAsDataURL f w := (Some ("data:" +:+ file_type f), w);
     p_loadImage url w := (Some {| img_width := 1000; img_height := 750 |}, w);
     p_getContext w := (true, w);
     p_toBlob img width height mimeType quality w :=
       (Normal (Some {| blob_type := mimeType; blob_bytes := [] |}), w);
     p_move h name w :=
       match disk w !! handle_name h with
       | Some f =>
           (Normal tt,
            {| disk := <[name := f]> (delete (handle_name h) (disk w));
               staged := staged w |})
       | None => (Throw notFound, w)
       end;
     p_getFileHandle dir name w :=
       (Normal {| handle_name := name; handle_move := false |},
        match disk w !! name with
        | Some _ => w
        | None => {| disk := <[name := fileOf name (OfBlob {| blob_type := ""; blob_bytes := [] |})]> (disk w);
                     staged := staged w |}
        end);
     p_createWritable h w := (Normal {| writable_handle := h |}, w);
     p_write wr data w :=
       let name := handle_name (writable_handle wr) in
       if bool_decide (name ∈ failing) then (Throw notAllowed, w)
       else (Normal tt, {| disk := disk w; staged := <[name := data]> (staged w) |});
     p_close wr w :=
       let name := handle_name (writable_handle wr) in
       match staged w !! name with
       | Some data =>
           (Normal tt, {| disk := <[name := fileOf name data]> (disk w);
                          staged := delete name (staged w) |})
       | None => (Normal tt, w)
       end;
     p_removeEntry dir name w :=
       match disk w !! name with
       | Some _ => (Normal tt, {| disk := delete name (disk w); staged := staged w |})
       | None => (Throw notFound, w)
       end;
     p_hasPicker := match picker with Some _ => true | None => false end;
     p_showDirectoryPicker w :=
       match picker with
       | Some Picks => (Normal {| dir_name := "photos" |}, w)
       | Some Dismissed => (Throw aborted, w)
       | _ => (Throw notAllowed, w)
       end;
     p_values dir w :=
       ((fun name => Normal (FileEntry {| handle_name := name; handle_move := false |}))
          <$> (map_to_list (disk w)).*1, w);
     p_random w := ("k3j9x0q1z", w);
     p_createObjectURL f w := ("blob:" +:+ file_name f, w);
     p_localeCompare a b :=
       match String.compare a b with Lt => -1 | Eq => 0 | Gt => 1 end |}.

Definition photo (bytes : list Byte.byte) : File :=
  {| file_name := ""; file_type := "image/jpeg"; file_lastModified := 0;
     file_bytes := bytes |}.

(** A directory of five images. *)
Definition start : World :=
  {| disk := list_to_map
       [("a.jpg", photo [Byte.x61]); ("b.jpg", photo [Byte.x62]);
        ("c.jpg", photo [Byte.x63]); ("d.jpg", photo [Byte.x64]);
        ("e.jpg", photo [Byte.x65])];
     staged := ∅ |}.

Definition item (name : string) : ImageFile :=
  {| id := name; originalName := name; extension := ".jpg"; path := name +:+ ".jpg";
     size := 1; lastModified := 0; previewUrl := None; fileObject := photo [];
     handle := Some {| handle_name := name +:+ ".jpg"; handle_move := false |} |}.

Definition config (resize keep : bool) : RenameConfig :=
  {| pattern := "img_{num}"; startNumber := 1; recursive := false; dryRun := false;
     overwrite := false; prefix := ""; suffix := ""; enableResize := resize;
     resizeWidth := 1920; resizeQuality := 85; keepOriginals := keep |}.

Definition photos : FileSystemDirectoryHandle := {| dir_name := "photos" |}.

(** The plan for the five images, and for the first of them. *)
Definition plan : list ProcessedFile :=
  Eval vm_compute in
    match generatePreview (item <$> ["a"; "b"; "c"; "d"; "e"]) (config false false) with
    | Normal l => l
    | Throw _ => []
    end.

Definition first : ProcessedFile :=
  {| file := item "a"; newName := "img_1"; status := PENDING; errorMessage := None |}.

(** The first image renamed, and renamed with the resizer on. *)
Definition renamed : completion unit * World * list Event :=
  Eval vm_compute in
    executeRename (platform None []) first (Some photos) (config false false) start.

Definition resized : completion unit * World * list Event :=
  Eval vm_compute in
    executeRename (platform None []) first (Some photos) (config true false) start.

(** A plan in which the second entry is in conflict. *)
Definition second : ProcessedFile :=
  {| file := item "b"; newName := "img_1"; status := ERROR;
     errorMessage := Some conflictMessage |}.

Definition flagged : list ProcessedFile :=
  [first; second;
   {| file := item "c"; newName := "img_3"; status := PENDING; errorMessage := None |}].

End Mem.

(** ** Occurrences of a text *)

(** [s.includes(tok)]: [tok] occurs in [s]. *)
Fixpoint includes (tok s : string) : bool :=
  match Str.stripPrefix tok s with
  | Some _ => true
  | None =>
      match s with
      | "" => false
      | String _ s' => includes tok s'
      end
  end.

(** The code unit [a] occurs in [s]. *)
Definition hasChar (a : ascii) (s : string) : bool :=
  negb (Str.all (fun b => negb (Ascii.eqb a b)) s).

(** No code unit of [s] occurs in [tok]. *)
Definition foreignTo (tok s : string) : bool :=
  Str.all (fun a => negb (hasChar a tok)) s.

(** ** What the scanner takes *)

(** The test of [scanDirectory] on a file name: the name has a dot, and what
    stands from its last dot on is, in lower case, an allowed extension. *)
Definition isImageName (fileName : string) : bool :=
  match lastIndexOf "." fileName with
  | None => false
  | Some lastDotIndex =>
      bool_decide (Str.toLowerCase (dropStr lastDotIndex fileName) ∈ allowedExtensions)
  end.

(** The handle of a step of the directory iterator, if the step gives a file
    that the scanner takes. *)
Definition imageHandle (step : completion DirEntry) : option FileSystemFileHandle :=
  match step with
  | Normal (FileEntry h) => if isImageName (handle_name h) then Some h else None
  | _ => None
  end.

(** The calls of the loop: a file is read only from the handle of an image
    file, and an id and a preview address are made for it. *)
Definition scanCall (e : Event) : Prop :=
  match e.1 with
  | CGetFile h => isImageName (handle_name h) = true
  | CRandom | CCreateObjectURL _ => True
  | _ => False
  end.

(** The calls of a scan: the picker, the listing of the directory and the
    calls of the loop. *)
Definition scanningCall (e : Event) : Prop :=
  match e.1 with
  | CShowDirectoryPicker | CValues _ => True
  | _ => scanCall e
  end.

(** What the scanner records of an image file. *)
Definition scanRecord (f : ImageFile) : Prop :=
  extension f ∈ allowedExtensions /\
  (exists h, handle f = Some h /\ path f = handle_name h) /\
  size f = file_size (fileObject f).

(** ** Calls that throw *)

(** Every call of the trace returned. *)
Definition allReturned (t : list Event) : Prop := Forall (fun e : Event => e.2 = true) t.

(** A computation that completed as [r] with the calls [t] stopped at the first
    call that threw: either every call returned, or the last call is the only
    one that threw and the computation threw. *)
Definition stopsAtFailure {A} (r : completion A) (t : list Event) : Prop :=
  allReturned t \/
  exists pre c, t = pre ++ [(c, false)] /\ allReturned pre /\ isNormal r = false.

(** An [async] function that stops at the first call that throws, in every world. *)
Definition disciplined {W A} (m : IO W A) : Prop :=
  forall w r w' t, m w = (r, w', t) -> stopsAtFailure r t.

(** ** Selecting a directory ([App.handleDirectorySelect]) *)

(** What the handlers of the component do: the calls of the services, the
    preview addresses they revoke, the setters of the React state they call and
    the alerts they show. *)
Inductive AppEvent :=
| Browser (e : Event)
| RevokeObjectURL (url : string)
| SetDirHandle (d : FileSystemDirectoryHandle)
| SetFiles (found : list ImageFile)
| SetProcessedFiles (plan : list ProcessedFile)
| SetProgress (percent : Z)
| Alert (message : string).

Definition isSetter (x : AppEvent) : bool :=
  match x with
  | SetDirHandle _ | SetFiles _ | SetProcessedFiles _ | SetProgress _ => true
  | _ => false
  end.

Definition isAlert (x : AppEvent) : bool :=
  match x with Alert _ => true | _ => false end.

(** [files.forEach(f => { if (f.previewUrl) URL.revokeObjectURL(f.previewUrl) })];
    an address that is missing or empty is falsy. *)
Definition revokePreviews (files : list ImageFile) : list AppEvent :=
  omap (fun f => match previewUrl f with
                 | Some (String c u) => Some (RevokeObjectURL (String c u))
                 | _ => None
                 end) files.

Definition selectionFailed : list AppEvent :=
  [Browser (CConsoleError "Directory selection failed:", true);
   Alert "Could not access directory. Please ensure you grant permissions."].

(** [handleDirectorySelect] for the state [files]: the world after it and what
    it did, in order. *)
Definition handleDirectorySelect {W} (P : Platform W) (files : list ImageFile) (w : W)
  : W * list AppEvent :=
  match scanDirectory P w with
  | (Normal (found, Some dirHandle), w1, t) =>
      (w1, revokePreviews files ++ (Browser <$> t)
           ++ [SetDirHandle dirHandle; SetFiles found; SetProcessedFiles []; SetProgress 0])
  | (Normal (_, None), w1, t) => (w1, revokePreviews files ++ (Browser <$> t))
  | (Throw _, w1, t) => (w1, revokePreviews files ++ (Browser <$> t) ++ selectionFailed)
  end.

(** ** The statistics panel ([StatsPanel.tsx]) *)


(** ** More sample data *)

Module Album.

(** A directory with an image whose extension is in upper case, a text file, a
    file without an extension and two more images. *)
Definition start : Mem.World :=
  {| Mem.disk := list_to_map
       [("IMG.JPG", Mem.photo [Byte.x61]); ("notes.txt", Mem.photo [Byte.x62]);
        ("README", Mem.photo [Byte.x63]); ("b.png", Mem.photo [Byte.x64]);
        ("a.v2.webp", Mem.photo [Byte.x65])];
     Mem.staged := ∅ |}.

Definition upper : FileSystemFileHandle := {| handle_name := "IMG.JPG"; handle_move := false |}.

(** The scan of the directory. *)
Definition scan
  : completion (list ImageFile * option FileSystemDirectoryHandle) * Mem.World * list Event :=
  Eval vm_compute in scanDirectory (Mem.platform (Some Mem.Picks) []) start.

(** The files that it found. *)
Definition files : list ImageFile :=
  Eval vm_compute in
    match fst (fst scan) with
    | Normal (found, _) => found
    | Throw _ => []
    end.

(** The record of the image with the extension in upper case, its planned
    entry and the run of that entry. *)
Definition upperFile : ImageFile :=
  {| id := "k3j9x0q1z"; originalName := "IMG"; extension := ".jpg"; path := "IMG.JPG";
     size := 1; lastModified := 0; previewUrl := Some "blob:";
     fileObject := Mem.photo [Byte.x61]; handle := Some upper |}.

Definition upperPlanned : ProcessedFile :=
  {| file := upperFile; newName := "img_1"; status := PENDING; errorMessage := None |}.

Definition upperRun : completion unit * Mem.World * list Event :=
  Eval vm_compute in
    executeRename (Mem.platform (Some Mem.Picks) []) upperPlanned (Some Mem.photos)
      (Mem.config false false) start.

(** The browser in which the file [b.png] cannot be read, and the scan of the
    directory in it. *)
Definition locked : Platform Mem.World :=
  let P := Mem.platform (Some Mem.Picks) [] in
  {| p_getFile h w :=
       if String.eqb (handle_name h) "b.png" then (Throw Mem.notAllowed, w)
       else p_getFile P h w;
     p_readAsDataURL := p_readAsDataURL P; p_loadImage := p_loadImage P;
     p_getContext := p_getContext P; p_toBlob := p_toBlob P; p_move := p_move P;
     p_getFileHandle := p_getFileHandle P; p_createWritable := p_createWritable P;
     p_write := p_write P; p_close := p_close P; p_removeEntry := p_removeEntry P;
     p_hasPicker := p_hasPicker P; p_showDirectoryPicker := p_showDirectoryPicker P;
     p_values := p_values P; p_random := p_random P;
     p_createObjectURL := p_createObjectURL P; p_localeCompare := p_localeCompare P |}.

Definition unreadable
  : completion (list ImageFile * option FileSystemDirectoryHandle) * Mem.World * list Event :=
  Eval vm_compute in scanDirectory locked start.

End Album.

(** Two images, the name of the second being the name that the pattern gives
    the first, and the batch that renames them. *)
Module Clash.

Definition start : Mem.World :=
  {| Mem.disk := list_to_map [("a.jpg", Mem.photo [Byte.x61]); ("ab.jpg", Mem.photo [Byte.x62])];
     Mem.staged := ∅ |}.

Definition config : RenameConfig :=
  {| pattern := "{name}b"; startNumber := 1; recursive := false; dryRun := false;
     overwrite := false; prefix := ""; suffix := ""; enableResize := false;
     resizeWidth := 1920; resizeQuality := 85; keepOriginals := false |}.

Definition plan : list ProcessedFile :=
  Eval vm_compute in
    match generatePreview [Mem.item "a"; Mem.item "ab"] config with
    | Normal l => l
    | Throw _ => []
    end.

End Clash.

(** An image whose name ends in [_resized], and its run under the name without
    that ending, with originals kept and the resizer on at 500 pixels. *)
Module Kept.

Definition start : Mem.World :=
  {| Mem.disk := list_to_map [("x_resized.jpg", Mem.photo [Byte.x61])];
     Mem.staged := ∅ |}.

Definition config : RenameConfig :=
  {| pattern := "x"; startNumber := 1; recursive := false; dryRun := false;
     overwrite := false; prefix := ""; suffix := ""; enableResize := true;
     resizeWidth := 500; resizeQuality := 85; keepOriginals := true |}.

Definition planned : ProcessedFile :=
  {| file := Mem.item "x_resized"; newName := "x"; status := PENDING;
     errorMessage := None |}.

Definition run : completion unit * Mem.World * list Event :=
  Eval vm_compute in
    executeRename (Mem.platform None []) planned (Some Mem.photos) config start.

End Kept.

(** ** Plans with numbers *)

(** The plan of [Sample.batch] under the configuration that the application
    starts with. *)
Module Numbered.

Definition planned (name newName : string) : ProcessedFile :=
  {| file := Sample.entry name ".jpg" 0; newName := newName; status := PENDING;
     errorMessage := None |}.

Definition third : ProcessedFile := planned "dog" "image_003".

Definition plan : list ProcessedFile :=
  [planned "Cat" "image_001"; planned "cat" "image_002"; third].

End Numbered.

(** A plan with a conflict in the middle: the counter starts at [-1], and the
    third name, [a-] followed by [1], is the first one, [a] followed by [-1]. *)
Module Counted.

Definition config : RenameConfig :=
  {| pattern := "{name}{num}"; startNumber := -1; recursive := false;
     dryRun := false; overwrite := false; prefix := ""; suffix := "";
     enableResize := false; resizeWidth := 1920; resizeQuality := 85;
     keepOriginals := false |}.

Definition files : list ImageFile :=
  [Sample.entry "a" ".jpg" 0; Sample.entry "b" ".jpg" 0;
   Sample.entry "a-" ".jpg" 0; Sample.entry "c" ".jpg" 0].

Definition flagged : ProcessedFile :=
  {| file := Sample.entry "a-" ".jpg" 0; newName := "a-1"; status := ERROR;
     errorMessage := Some conflictMessage |}.

Definition last : ProcessedFile := Numbered.planned "c" "c2".

Definition plan : list ProcessedFile :=
  [Numbered.planned "a" "a-1"; Numbered.planned "b" "b0"; flagged; last].

End Counted.

(** Two files numbered from [2^53] on. *)
Module Stuck.

Definition withPattern (pat : string) : RenameConfig :=
  {| pattern := pat; startNumber := 9007199254740992; recursive := false;
     dryRun := false; overwrite := false; prefix := ""; suffix := "";
     enableResize := false; resizeWidth := 1920; resizeQuality := 85;
     keepOriginals := false |}.

Definition config : RenameConfig := withPattern "p{num}".
Definition padded : RenameConfig := withPattern "{num:00000000000000000000}".

Definition files : list ImageFile :=
  [Sample.entry "a" ".jpg" 0; Sample.entry "b" ".jpg" 0].

Definition flagged (newName : string) : ProcessedFile :=
  {| file := Sample.entry "b" ".jpg" 0; newName := newName; status := ERROR;
     errorMessage := Some conflictMessage |}.

Definition second : ProcessedFile := flagged "p9007199254740992".

Definition plan : list ProcessedFile :=
  [Numbered.planned "a" "p9007199254740992"; second].

Definition paddedSecond : ProcessedFile := flagged "00009007199254740992".

Definition paddedPlan : list ProcessedFile :=
  [Numbered.planned "a" "00009007199254740992"; paddedSecond].

End Stuck.

(** A batch of four: the plan holds the second entry in [ERROR], and the write
    of the third is the one that [Mem.platform None ["img_3.jpg"]] refuses. *)
Module Mixed.

Definition third : ProcessedFile :=
  {| file := Mem.item "c"; newName := "img_3"; status := PENDING; errorMessage := None |}.

Definition fourth : ProcessedFile :=
  {| file := Mem.item "d"; newName := "img_4"; status := PENDING; errorMessage := None |}.

Definition plan : list ProcessedFile := [Mem.first; Mem.second; third; fourth].

(** The third and the fourth entry at the end of the batch. *)
Definition failed : ProcessedFile :=
  {| file := Mem.item "c"; newName := "img_3"; status := ERROR;
     errorMessage := Some "Write/Move failed" |}.

Definition renamed : ProcessedFile :=
  {| file := Mem.item "d"; newName := "img_4"; status := SUCCESS; errorMessage := None |}.

End Mixed.

(** * Properties *)

(** ** Strings *)

Lemma str_app_cons c s t : String c s +:+ t = String c (s +:+ t).
Proof. reflexivity. Qed.

Lemma str_app_nil_l s : "" +:+ s = s.
Proof. reflexivity. Qed.

Lemma str_app_nil_r s : s +:+ "" = s.
Proof. induction s as [|c s IH]; [done|]. by rewrite str_app_cons, IH. Qed.

Lemma str_app_assoc s t u : (s +:+ t) +:+ u = s +:+ t +:+ u.
Proof. induction s as [|c s IH]; [done|]. by rewrite !str_app_cons, IH. Qed.

Lemma str_length_app s t : String.length (s +:+ t) = (String.length s + String.length t)%nat.
Proof. induction s as [|c s IH]; [done|]. rewrite str_app_cons. simpl. by rewrite IH. Qed.

Lemma str_all_app P s t : Str.all P (s +:+ t) = Str.all P s && Str.all P t.
Proof.
  induction s as [|c s IH]; [done|].
  rewrite str_app_cons. simpl. rewrite IH. by rewrite andb_assoc.
Qed.

Lemma str_all_impl (P Q : ascii -> bool) s :
  (forall c, P c = true -> Q c = true) -> Str.all P s = true -> Str.all Q s = true.
Proof.
  intros HPQ. induction s as [|c s IH]; [done|]. simpl.
  intros [Hc Hs]%andb_true_iff. rewrite (HPQ _ Hc). simpl. auto.
Qed.

Lemma str_length_repeat c n : String.length (Str.repeat c n) = n.
Proof. induction n; simpl; congruence. Qed.

Lemma str_stripPrefix_Some tok s r : Str.stripPrefix tok s = Some r <-> s = tok +:+ r.
Proof.
  revert s. induction tok as [|a tok IH]; intros s; simpl.
  - split; [by intros [= ->]|by intros ->].
  - destruct s as [|b s]; [done|].
    rewrite str_app_cons.
    destruct (Ascii.eqb_spec a b) as [->|Hne].
    + rewrite IH. split; [by intros ->|by intros [= ->]].
    + split; [done|]. intros [= ? _]. by destruct Hne.
Qed.

Lemma str_stripPrefix_app tok r : Str.stripPrefix tok (tok +:+ r) = Some r.
Proof. by apply str_stripPrefix_Some. Qed.

Lemma str_padStart_long k s : (k <= String.length s)%nat -> Str.padStart k s = s.
Proof. intros H. unfold Str.padStart. by replace (k - String.length s)%nat with O by lia. Qed.

Lemma str_length_padStart k s :
  String.length (Str.padStart k s) = Nat.max k (String.length s).
Proof. unfold Str.padStart. rewrite str_length_app, str_length_repeat. lia. Qed.

Example toLowerCase_ex : Str.toLowerCase "IMG_01.JPG" = "img_01.jpg".
Proof. reflexivity. Qed.

Example padStart_ex : Str.padStart 3 (Str.toString 7) = "007".
Proof. reflexivity. Qed.

Example padStart_neg_ex : Str.padStart 3 (Str.toString (-5)) = "0-5".
Proof. reflexivity. Qed.

Example replaceToken_ex :
  replaceToken "{name}" "cat" "a_{name}_{name}{nam}" = "a_cat_cat{nam}".
Proof. reflexivity. Qed.

Example replaceToken_dollar_ex :
  replaceToken "{name}" "x$$y$&z" "a{name}b" = "ax$y{name}zb".
Proof. reflexivity. Qed.

Example replaceNum_ex :
  replaceNum 7 "img_{num:003}-{num}-{num:}-{num:1a}-{num:00000}" = "img_007-7-{num:}-{num:1a}-00007".
Proof. reflexivity. Qed.

Example toISOString_epoch : Date.toISOString 0 = Normal "1970-01-01T00:00:00.000Z".
Proof. reflexivity. Qed.

Example toISOString_leap :
  Date.toISOString 951868799999 = Normal "2000-02-29T23:59:59.999Z".
Proof. reflexivity. Qed.

Example toISOString_before_epoch :
  Date.toISOString (-1) = Normal "1969-12-31T23:59:59.999Z".
Proof. reflexivity. Qed.

Example toISOString_2024 :
  Date.toISOString 1709251200000 = Normal "2024-03-01T00:00:00.000Z".
Proof. reflexivity. Qed.

Example toISOString_2001 :
  Date.toISOString 1000000000000 = Normal "2001-09-09T01:46:40.000Z".
Proof. reflexivity. Qed.

Example toISOString_2100 :
  Date.toISOString 4107542400000 = Normal "2100-03-01T00:00:00.000Z".
Proof. reflexivity. Qed.

Example toISOString_9999 :
  Date.toISOString 253402300799999 = Normal "9999-12-31T23:59:59.999Z".
Proof. reflexivity. Qed.

Example toISOString_10000 :
  Date.toISOString 253402300800000 = Normal "+010000-01-01T00:00:00.000Z".
Proof. reflexivity. Qed.

Example toISOString_year1 :
  Date.toISOString (-62135596800000) = Normal "0001-01-01T00:00:00.000Z".
Proof. reflexivity. Qed.

Example toISOString_year0 :
  Date.toISOString (-62167219200000) = Normal "0000-01-01T00:00:00.000Z".
Proof. reflexivity. Qed.

Example toISOString_bc :
  Date.toISOString (-62167219200001) = Normal "-000001-12-31T23:59:59.999Z".
Proof. reflexivity. Qed.

Example toISOString_max :
  Date.toISOString 8640000000000000 = Normal "+275760-09-13T00:00:00.000Z".
Proof. reflexivity. Qed.

Example toISOString_min :
  Date.toISOString (-8640000000000000) = Normal "-271821-04-20T00:00:00.000Z".
Proof. reflexivity. Qed.

Example toISOString_too_late :
  Date.toISOString 8640000000000001 = Throw Date.rangeError.
Proof. reflexivity. Qed.

Example preview_default :
  outcomes (generatePreview [Sample.entry "a" ".jpg" 0; Sample.entry "b" ".png" 0] Sample.config)
  = Normal [("image_001", PENDING, None); ("image_002", PENDING, None)].
Proof. vm_compute. reflexivity. Qed.

(** Section 8 of the specification: the pattern [img] on two entries with the
    same extension. *)
Example preview_conflict :
  outcomes (generatePreview [Sample.entry "a" ".jpg" 0; Sample.entry "b" ".jpg" 0]
              (Sample.withPattern "img" false))
  = Normal [("img", PENDING, None); ("img", ERROR, Some conflictMessage)].
Proof. vm_compute. reflexivity. Qed.

Example preview_overwrite :
  outcomes (generatePreview [Sample.entry "a" ".jpg" 0; Sample.entry "b" ".jpg" 0]
              (Sample.withPattern "img" true))
  = Normal [("img", PENDING, None); ("img", PENDING, None)].
Proof. vm_compute. reflexivity. Qed.

Example preview_case_insensitive :
  outcomes (generatePreview [Sample.entry "A" ".jpg" 0; Sample.entry "a" ".jpg" 0]
              (Sample.withPattern "{name}" false))
  = Normal [("A", PENDING, None); ("a", ERROR, Some conflictMessage)].
Proof. vm_compute. reflexivity. Qed.

Example preview_extension_differs :
  outcomes (generatePreview [Sample.entry "sunset" ".jpg" 0; Sample.entry "sunset" ".png" 0]
              (Sample.withPattern "{name}" false))
  = Normal [("sunset", PENDING, None); ("sunset", PENDING, None)].
Proof. vm_compute. reflexivity. Qed.

Example preview_staged :
  outcomes (generatePreview [Sample.entry "{num}_{date}" ".jpg" 0]
              (Sample.withPattern "{name}-{num:02}" false))
  = Normal [("1_1970-01-01-01", PENDING, None)].
Proof. vm_compute. reflexivity. Qed.

(** ** The counter *)

(** Below [2^53] an increment is exact. *)
Lemma succ_exact (n : Z) :
  - Num.maxExact <= n < Num.maxExact -> Num.succ n = n + 1.
Proof.
  intros Hn. unfold Num.succ, Num.round.
  destruct (Z.leb_spec (Z.abs (n + 1)) Num.maxExact) as [|Hgt]; [done|].
  unfold Num.maxExact in *. lia.
Qed.

(** At [2^53] the counter stays where it is: [2^53 + 1] is no double, and of
    its two neighbours [2^53] has the even significand. *)
Lemma succ_stuck : Num.succ Num.maxExact = Num.maxExact.
Proof. reflexivity. Qed.

(** Beyond [2^53] the doubles are the even integers, then the multiples of
    four, and so on: an increment goes to a neighbour or nowhere. *)
Example succ_beyond :
  Num.succ (Num.maxExact + 2) = Num.maxExact + 4 /\
  Num.succ (Num.maxExact + 4) = Num.maxExact + 4 /\
  Num.succ (- Num.maxExact - 2) = - Num.maxExact /\
  Num.succ (2 ^ 60) = 2 ^ 60.
Proof. by vm_compute. Qed.

Lemma count_succ (c : Z) (k : nat) : Num.count c (S k) = Num.count (Num.succ c) k.
Proof. unfold Num.count. apply Nat.iter_succ_r. Qed.

(** As long as the counter does not pass [2^53], [k] increments add [k]. *)
Lemma count_exact (start : Z) (k : nat) :
  - Num.maxExact <= start -> start + Z.of_nat k <= Num.maxExact ->
  Num.count start k = start + Z.of_nat k.
Proof.
  intros Hlo. induction k as [|k IH]; intros Hhi.
  - unfold Num.count. simpl. lia.
  - change (Num.count start (S k)) with (Num.succ (Num.count start k)).
    rewrite IH by lia. rewrite succ_exact by lia. lia.
Qed.

(** ** The loop of the planner *)

Lemma planned_ext config (used used' : gset string) f n :
  (Str.toLowerCase (n +:+ extension f) ∈ used <->
   Str.toLowerCase (n +:+ extension f) ∈ used') ->
  planned config used f n = planned config used' f n.
Proof. intros H. unfold planned. by rewrite (bool_decide_ext _ _ H). Qed.

Lemma previewStep_Normal config st f st' :
  previewStep config st f = Normal st' ->
  exists n,
    applyPattern f config (counter st) = Normal n /\
    st' = {| result := result st ++ [planned config (usedNames st) f n];
             counter := Num.succ (counter st);
             usedNames := {[ Str.toLowerCase (n +:+ extension f) ]} ∪ usedNames st |}.
Proof.
  unfold previewStep, planned.
  destruct (applyPattern f config (counter st)) as [n|e]; [|done].
  intros H. exists n. split; [done|]. revert H.
  destruct (bool_decide _), (overwrite config); simpl; by intros [= <-].
Qed.

Lemma previewStep_Throw config st f e :
  previewStep config st f = Throw e <-> applyPattern f config (counter st) = Throw e.
Proof.
  unfold previewStep.
  destruct (applyPattern f config (counter st)) as [n|e']; [|split; by intros [= ->]].
  destruct (bool_decide _), (overwrite config); simpl; split; intros [=].
Qed.

(** The invariant of the loop: the entries appended for [files], in order,
    each numbered by its position and judged against the keys before it. *)
Lemma previewLoop_spec config files :
  forall st st', previewLoop config st files = Normal st' ->
  exists new,
    result st' = result st ++ new /\
    file <$> new = files /\
    forall (k : nat) (p : ProcessedFile), new !! k = Some p ->
      exists n,
        applyPattern (file p) config (Num.count (counter st) k) = Normal n /\
        p = planned config (list_to_set (targetKey <$> take k new) ∪ usedNames st) (file p) n.
Proof.
  induction files as [|f files IH]; intros st st'; simpl.
  - intros [= <-]. exists []. rewrite app_nil_r. by split_and!.
  - destruct (previewStep config st f) as [st1|e] eqn:Hstep; [|done].
    intros Hloop.
    destruct (previewStep_Normal _ _ _ _ Hstep) as (n & Hn & ->).
    apply IH in Hloop as (new & Hres & Hfiles & Hnew). simpl in *.
    exists (planned config (usedNames st) f n :: new). split_and!.
    + by rewrite Hres, <-app_assoc.
    + by rewrite fmap_cons, Hfiles.
    + intros [|k] p; simpl.
      * intros [= <-]. exists n. split; [done|].
        simpl. apply planned_ext.
        rewrite elem_of_union, elem_of_empty. tauto.
      * intros Hk. destruct (Hnew _ _ Hk) as (m & Hm & Hp).
        exists m. split.
        { rewrite <-Hm. f_equal. apply count_succ. }
        rewrite Hp at 1. apply planned_ext.
        simpl. change (targetKey (planned config (usedNames st) f n))
          with (Str.toLowerCase (n +:+ extension f)).
        rewrite !elem_of_union. tauto.
Qed.

Lemma generatePreview_spec files config plan :
  generatePreview files config = Normal plan ->
  file <$> plan = files /\
  forall (i : nat) (p : ProcessedFile), plan !! i = Some p ->
    exists n,
      applyPattern (file p) config (Num.count (startNumber config) i) = Normal n /\
      p = planned config (list_to_set (targetKey <$> take i plan)) (file p) n.
Proof.
  unfold generatePreview.
  destruct (previewLoop _ _ files) as [st|e] eqn:Hloop; [|done].
  intros [= <-].
  destruct (previewLoop_spec _ _ _ _ Hloop) as (new & Hres & Hfiles & Hnew).
  simpl in *. subst new. split; [done|].
  intros i p Hi. destruct (Hnew _ _ Hi) as (n & Hn & Hp).
  exists n. split; [done|].
  rewrite Hp at 1. apply planned_ext.
  rewrite elem_of_union, elem_of_empty. tauto.
Qed.

(** A key is in the set built from the first [i] planned entries exactly when
    an entry before position [i] has it. *)
Lemma earlier_key (plan : list ProcessedFile) (i : nat) (key : string) :
  key ∈ (list_to_set (targetKey <$> take i plan) : gset string) <->
  exists (j : nat) (q : ProcessedFile), (j < i)%nat /\ plan !! j = Some q /\ targetKey q = key.
Proof.
  rewrite elem_of_list_to_set, list_elem_of_fmap. split.
  - intros (q & -> & Hq). apply list_elem_of_lookup in Hq as [j Hj].
    apply lookup_take_Some in Hj as [Hj Hlt]. eauto.
  - intros (j & q & Hlt & Hj & <-). exists q. split; [done|].
    apply list_elem_of_lookup. exists j. by apply lookup_take_Some.
Qed.

(** ** The planner *)

Lemma toISOString_valid (value : Z) :
  Z.abs value <= Date.maxTime -> exists iso, Date.toISOString value = Normal iso.
Proof.
  intros H. unfold Date.toISOString, Date.timeClip.
  destruct (Z.leb_spec (Z.abs value) Date.maxTime) as [_|Hgt]; [|lia].
  destruct (Date.civil _) as [[y m] d]. eauto.
Qed.

Lemma toISOString_invalid (value : Z) :
  Date.maxTime < Z.abs value -> Date.toISOString value = Throw Date.rangeError.
Proof.
  intros H. unfold Date.toISOString, Date.timeClip.
  destruct (Z.leb_spec (Z.abs value) Date.maxTime) as [Hle|_]; [lia|done].
Qed.

Lemma applyPattern_valid f config index :
  validTime f -> exists n, applyPattern f config index = Normal n.
Proof.
  intros [iso Hiso]%toISOString_valid. unfold applyPattern. rewrite Hiso. eauto.
Qed.

Lemma previewLoop_valid config files :
  Forall validTime files ->
  forall st, exists st', previewLoop config st files = Normal st'.
Proof.
  induction 1 as [|f files Hf _ IH]; intros st; simpl; [eauto|].
  destruct (applyPattern_valid f config (counter st) Hf) as [n Hn].
  unfold previewStep. rewrite Hn.
  destruct (bool_decide _), (overwrite config); simpl; apply IH.
Qed.

(** C1. In the plan that [generatePreview] produces, the entry at position [i]
    has status [ERROR] exactly when [overwrite] is off and an entry at an earlier
    position has the same lower-cased key [newName + extension]; in every other
    case it is [PENDING]. The earlier entry may itself be flagged: every key is
    recorded, so each later duplicate is flagged too. *)
Theorem planner_conflict_status
  (files : list ImageFile) (config : RenameConfig)
  (plan : list ProcessedFile) (i : nat) (p : ProcessedFile) :
  generatePreview files config = Normal plan ->
  plan !! i = Some p ->
  let earlier := exists (j : nat) (q : ProcessedFile),
    (j < i)%nat /\ plan !! j = Some q /\ targetKey q = targetKey p in
  (status p = ERROR <-> overwrite config = false /\ earlier) /\
  (~ (overwrite config = false /\ earlier) -> status p = PENDING) /\
  (errorMessage p = if decide (status p = ERROR) then Some conflictMessage else None).
Proof.
  intros Hgen Hi earlier.
  destruct (generatePreview_spec _ _ _ Hgen) as [_ Hplan].
  destruct (Hplan _ _ Hi) as (n & _ & Hp).
  assert (bool_decide (targetKey p ∈ (list_to_set (targetKey <$> take i plan) : gset string))
          = true <-> earlier) as Hkey.
  { rewrite bool_decide_eq_true. apply earlier_key. }
  assert (targetKey p = Str.toLowerCase (n +:+ extension (file p))) as Hk.
  { rewrite Hp at 1. reflexivity. }
  rewrite Hk in Hkey.
  assert (status p = if bool_decide (Str.toLowerCase (n +:+ extension (file p))
                        ∈ (list_to_set (targetKey <$> take i plan) : gset string))
                        && negb (overwrite config) then ERROR else PENDING) as Hst
    by (rewrite Hp at 1; reflexivity).
  assert (errorMessage p = if bool_decide (Str.toLowerCase (n +:+ extension (file p))
                        ∈ (list_to_set (targetKey <$> take i plan) : gset string))
                        && negb (overwrite config) then Some conflictMessage else None) as Hmsg
    by (rewrite Hp at 1; reflexivity).
  rewrite Hst, Hmsg.
  destruct (bool_decide _) eqn:Hb, (overwrite config); simpl.
  - split_and!; [|tauto|done]. split; [done|]. by intros [[=] _].
  - split_and!; [|tauto|done]. split; [|done]. intros _. split; [done|]. by apply Hkey.
  - split_and!; [|tauto|done]. split; [done|]. by intros [[=] _].
  - split_and!; [|tauto|done]. split; [done|]. intros [_ He].
    apply Hkey in He. done.
Qed.

Lemma planner_conflict_status_witness :
  status Sample.planned1 = ERROR <->
  overwrite Sample.byNameAndDate = false /\
  exists (j : nat) (q : ProcessedFile),
    (j < 1)%nat /\ Sample.batchPlan !! j = Some q /\ targetKey q = targetKey Sample.planned1.
Proof.
  exact (proj1 (planner_conflict_status Sample.batch Sample.byNameAndDate
                  Sample.batchPlan 1 Sample.planned1 eq_refl eq_refl)).
Defined.

(** C5, as stated, fails: [toISOString] throws a [RangeError] on a time value
    that no [Date] can hold, and [applyPattern] formats the date of every entry,
    whether or not the pattern has the [{date}] token. *)
Lemma planner_throws_on_invalid_date :
  generatePreview [Sample.lateEntry] Sample.config = Throw Date.rangeError /\
  ~ (forall files config, exists plan, generatePreview files config = Normal plan).
Proof.
  assert (generatePreview [Sample.lateEntry] Sample.config = Throw Date.rangeError) as H
    by reflexivity.
  split; [exact H|].
  intros Hall. destruct (Hall [Sample.lateEntry] Sample.config) as [plan Hplan].
  rewrite H in Hplan. discriminate Hplan.
Qed.

(** C5, amended. When the time of last change of every entry is a time value
    that a [Date] can hold, [generatePreview] returns a plan, one planned entry
    for each entry and in the same order, and what it found is in the status
    of the entries: [PENDING] or [ERROR]. *)
Theorem planner_returns (files : list ImageFile) (config : RenameConfig) :
  Forall validTime files ->
  exists plan,
    generatePreview files config = Normal plan /\
    file <$> plan = files /\
    Forall (fun p => status p = PENDING \/ status p = ERROR) plan.
Proof.
  intros Hvalid.
  destruct (previewLoop_valid config files Hvalid
              {| result := []; counter := startNumber config; usedNames := ∅ |})
    as [st Hst].
  assert (generatePreview files config = Normal (result st)) as Hgen
    by (unfold generatePreview; by rewrite Hst).
  exists (result st). split; [done|].
  destruct (generatePreview_spec _ _ _ Hgen) as [Hfiles Hplan].
  split; [done|].
  apply Forall_lookup. intros i p Hi.
  destruct (Hplan _ _ Hi) as (n & _ & ->). unfold planned; simpl.
  destruct (_ && _); auto.
Qed.

Lemma planner_returns_witness :
  exists plan, generatePreview Sample.batch Sample.config = Normal plan.
Proof.
  destruct (planner_returns Sample.batch Sample.config) as (plan & Hplan & _).
  - repeat constructor; unfold validTime; simpl; vm_compute; discriminate.
  - exists plan. exact Hplan.
Defined.

(** The planner throws exactly when some entry has an invalid date. *)
Lemma planner_throws_iff (files : list ImageFile) (config : RenameConfig) :
  (exists e, generatePreview files config = Throw e) <-> ~ Forall validTime files.
Proof.
  split.
  - intros [e He] Hvalid.
    destruct (previewLoop_valid config files Hvalid
                {| result := []; counter := startNumber config; usedNames := ∅ |})
      as [st Hst].
    unfold generatePreview in He. by rewrite Hst in He.
  - intros Hnot. destruct (generatePreview files config) as [plan|e] eqn:Hgen; [|eauto].
    destruct Hnot. destruct (generatePreview_spec _ _ _ Hgen) as [Hfiles Hplan].
    apply Forall_lookup. intros i f Hi.
    rewrite <-Hfiles, list_lookup_fmap in Hi.
    destruct (plan !! i) as [p|] eqn:Hp; [|done]. injection Hi as <-.
    destruct (Hplan _ _ Hp) as (n & Hn & _).
    unfold validTime. destruct (Z.le_gt_cases (Z.abs (lastModified (file p))) Date.maxTime) as [|Hgt]; [done|].
    unfold applyPattern in Hn. rewrite toISOString_invalid in Hn by lia. done.
Qed.

(** The name of an entry depends on the entry and on the configuration through
    the fields of [entryView] and [configView] only. *)
Lemma applyPattern_view f1 f2 c1 c2 index :
  entryView f1 = entryView f2 -> configView c1 = configView c2 ->
  applyPattern f1 c1 index = applyPattern f2 c2 index.
Proof.
  unfold entryView, configView, applyPattern.
  intros [= -> _ ->] [= -> _ _ -> ->]. reflexivity.
Qed.

Lemma previewLoop_view c1 c2 files1 :
  configView c1 = configView c2 ->
  forall files2 st1 st2,
    entryView <$> files1 = entryView <$> files2 ->
    outcome <$> result st1 = outcome <$> result st2 ->
    counter st1 = counter st2 ->
    usedNames st1 = usedNames st2 ->
    match previewLoop c1 st1 files1, previewLoop c2 st2 files2 with
    | Normal st1', Normal st2' => outcome <$> result st1' = outcome <$> result st2'
    | Throw e1, Throw e2 => e1 = e2
    | _, _ => False
    end.
Proof.
  intros Hc. induction files1 as [|f1 files1 IH]; intros [|f2 files2] st1 st2; simpl;
    try done.
  intros Hall Hres Hcnt Hused.
  pose proof (f_equal head Hall) as Hf. apply (inj Some) in Hf.
  pose proof (f_equal tail Hall) as Hfiles. simpl in Hf, Hfiles.
  unfold previewStep.
  rewrite (applyPattern_view f1 f2 c1 c2 (counter st1) Hf Hc), <-Hcnt.
  destruct (applyPattern f2 c2 (counter st1)) as [n|e]; [|done].
  assert (extension f1 = extension f2) as -> by (unfold entryView in Hf; congruence).
  assert (overwrite c1 = overwrite c2) as -> by (unfold configView in Hc; congruence).
  rewrite Hused.
  destruct (bool_decide _), (overwrite c2); simpl; apply IH; simpl;
    rewrite ?fmap_app, ?Hres, ?Hcnt, ?Hused; done.
Qed.

(** C6. The plan is a function of its arguments, and of no more of them than
    the names, extensions and dates of the entries and the pattern, start
    number, overwrite flag, prefix and suffix of the configuration: two calls
    whose arguments agree on these give the same new names, statuses and
    messages, or throw the same error. Each planned entry holds its entry as
    it was given. *)
Theorem planner_deterministic
  (files1 files2 : list ImageFile) (c1 c2 : RenameConfig) :
  entryView <$> files1 = entryView <$> files2 ->
  configView c1 = configView c2 ->
  outcomes (generatePreview files1 c1) = outcomes (generatePreview files2 c2) /\
  (forall plan, generatePreview files1 c1 = Normal plan -> file <$> plan = files1).
Proof.
  intros Hfiles Hc. split.
  - unfold generatePreview.
    assert (startNumber c1 = startNumber c2) as Hstart
      by (unfold configView in Hc; congruence).
    pose proof (previewLoop_view c1 c2 files1 Hc files2
                  {| result := []; counter := startNumber c1; usedNames := ∅ |}
                  {| result := []; counter := startNumber c2; usedNames := ∅ |}
                  Hfiles eq_refl Hstart eq_refl) as H.
    destruct (previewLoop c1 _ files1) as [st1|e1], (previewLoop c2 _ files2) as [st2|e2];
      simpl; try done; by rewrite H.
  - intros plan Hgen. by destruct (generatePreview_spec _ _ _ Hgen).
Qed.

Lemma planner_deterministic_witness :
  outcomes (generatePreview Sample.batch Sample.byNameAndDate)
  = outcomes (generatePreview Sample.rescanned Sample.byNameAndDate').
Proof.
  exact (proj1 (planner_deterministic Sample.batch Sample.rescanned
                  Sample.byNameAndDate Sample.byNameAndDate' eq_refl eq_refl)).
Defined.

(** ** The scan of a global replace *)

Lemma str_app_eq_app (m r x z : string) :
  m +:+ r = x +:+ z ->
  (exists x', x = m +:+ x' /\ r = x' +:+ z) \/
  (exists c m', m = x +:+ String c m' /\ z = String c m' +:+ r).
Proof.
  revert x. induction m as [|a m IH]; intros x.
  - rewrite str_app_nil_l. intros ->. left. by exists x.
  - destruct x as [|b x].
    + rewrite str_app_nil_l. intros <-. right. by exists a, m.
    + rewrite !str_app_cons. intros [= -> H].
      destruct (IH _ H) as [(x' & -> & ->)|(c & m' & -> & ->)].
      * left. by exists x'.
      * right. by exists c, m'.
Qed.

Lemma str_all_cons P c s : Str.all P (String c s) = P c && Str.all P s.
Proof. reflexivity. Qed.

(** Up to the first closing brace a text is determined. *)
Lemma str_first_close (b1 b2 r1 r2 : string) :
  Str.all noBrace b1 = true -> Str.all noBrace b2 = true ->
  b1 +:+ String "}" r1 = b2 +:+ String "}" r2 -> b1 = b2 /\ r1 = r2.
Proof.
  revert b2. induction b1 as [|a b1 IH]; intros [|c b2]; simpl.
  - rewrite !str_app_nil_l. by intros _ _ [= ->].
  - rewrite str_app_nil_l, str_app_cons. intros _ Hc [= <- _]. done.
  - rewrite str_app_nil_l, str_app_cons. intros Ha _ [= -> _]. done.
  - rewrite !str_app_cons.
    intros [_ H1]%andb_true_iff [_ H2]%andb_true_iff [= -> H].
    destruct (IH _ H1 H2 H) as [-> ->]. done.
Qed.

Lemma block_eq (t1 t2 r1 r2 : string) :
  block t1 -> block t2 -> t1 +:+ r1 = t2 +:+ r2 -> t1 = t2 /\ r1 = r2.
Proof.
  intros (b1 & -> & H1) (b2 & -> & H2).
  rewrite !str_app_cons, !str_app_assoc, !str_app_cons, !str_app_nil_l.
  intros [= H]. destruct (str_first_close _ _ _ _ H1 H2 H) as [-> ->]. done.
Qed.

Lemma block_nonempty t : block t -> exists c t', t = String c t' /\ isOpen c = true.
Proof. intros (b & -> & _). by eexists _, _. Qed.

(** Behind its opening brace a block has no opening brace. *)
Lemma block_tail t :
  block t -> exists t', t = String "{" t' /\ Str.all (fun c => negb (isOpen c)) t' = true.
Proof.
  intros (b & -> & Hb). eexists. split; [done|].
  rewrite str_all_app, andb_true_iff. split; [|done].
  eapply str_all_impl; [|exact Hb]. unfold noBrace. by intros c [? _]%andb_true_iff.
Qed.

Section Scan.
Context {Cap : Type}.
Variable matchAt : string -> option (string * string * Cap).
Variable replacement : string -> string -> string -> Cap -> string.
(** The matches of the pattern are brace blocks, and whether the pattern
    matches at the start of a text is decided within the match. *)
Hypothesis match_split :
  forall s m r cap, matchAt s = Some (m, r, cap) -> s = m +:+ r.
Hypothesis match_block :
  forall s m r cap, matchAt s = Some (m, r, cap) -> block m.
Hypothesis match_local :
  forall s m r cap, matchAt s = Some (m, r, cap) ->
  forall r', matchAt (m +:+ r') = Some (m, r', cap).

Abbreviation go := (replaceGo matchAt replacement).

Lemma match_starts_open c s : isOpen c = false -> matchAt (String c s) = None.
Proof.
  intros Hc. destruct (matchAt (String c s)) as [[[m r] cap]|] eqn:Hm; [|done].
  pose proof (match_split _ _ _ _ Hm) as Hs.
  destruct (block_nonempty _ (match_block _ _ _ _ Hm)) as (c' & m' & -> & Hc').
  rewrite str_app_cons in Hs. injection Hs as -> _. congruence.
Qed.

(** A match that starts in front of a block ends in front of it. *)
Lemma block_barrier t : block t -> barrier matchAt t.
Proof.
  intros Ht c x y m r cap Hm.
  pose proof (match_split _ _ _ _ Hm) as Hs. symmetry in Hs.
  destruct (str_app_eq_app _ _ _ _ Hs) as [(x' & Hx & Hr)|(d & m' & Hmx & Hty)]; [eauto|].
  exfalso.
  destruct (block_nonempty _ Ht) as (c' & t' & -> & Hc').
  rewrite str_app_cons in Hty. injection Hty as <- _.
  destruct (block_tail _ (match_block _ _ _ _ Hm)) as (mt & Hmt & Hall).
  rewrite Hmx, str_app_cons in Hmt. injection Hmt as _ <-.
  rewrite str_all_app, str_all_cons, Hc' in Hall.
  by rewrite andb_false_r in Hall.
Qed.

Lemma match_agree c x t y :
  barrier matchAt t ->
  matchAt (String c (x +:+ t +:+ y)) =
    match matchAt (String c x) with
    | Some (m, x', cap) => Some (m, x' +:+ t +:+ y, cap)
    | None => None
    end.
Proof.
  intros Ht. change (String c (x +:+ t +:+ y)) with (String c x +:+ t +:+ y).
  destruct (matchAt (String c x)) as [[[m x'] cap]|] eqn:Hx.
  - rewrite (match_split _ _ _ _ Hx), str_app_assoc.
    by apply (match_local _ _ _ _ Hx).
  - destruct (matchAt (String c x +:+ t +:+ y)) as [[[m r] cap]|] eqn:Hm; [|done].
    destruct (Ht _ _ _ _ _ _ Hm) as (x' & Hcx & _).
    rewrite Hcx in Hx. by rewrite (match_local _ _ _ _ Hm x') in Hx.
Qed.

Lemma match_length s m r cap :
  matchAt s = Some (m, r, cap) ->
  (String.length s = String.length m + String.length r)%nat /\ (0 < String.length m)%nat.
Proof.
  intros Hm. rewrite (match_split _ _ _ _ Hm), str_length_app. split; [done|].
  destruct (block_nonempty _ (match_block _ _ _ _ Hm)) as (c & m' & -> & _). simpl. lia.
Qed.

Lemma go_cons b k c s :
  go b k (String c s) =
    match k with
    | S k' => go (b +:+ String c "") k' s
    | O =>
        match matchAt (String c s) with
        | Some (m, r, cap) =>
            replacement b m r cap +:+ go (b +:+ String c "") (pred (String.length m)) s
        | None => String c (go (b +:+ String c "") O s)
        end
    end.
Proof. reflexivity. Qed.

Lemma go_skip m : forall b s, go b (String.length m) (m +:+ s) = go (b +:+ m) O s.
Proof.
  induction m as [|c m IH]; intros b s.
  - by rewrite str_app_nil_l, str_app_nil_r.
  - rewrite str_app_cons. simpl String.length. rewrite go_cons, IH.
    by rewrite str_app_assoc, str_app_cons, str_app_nil_l.
Qed.

Lemma go_match b s m r cap :
  matchAt s = Some (m, r, cap) ->
  go b O s = replacement b m r cap +:+ go (b +:+ m) O r.
Proof.
  intros Hm. pose proof (match_split _ _ _ _ Hm) as ->.
  destruct (block_nonempty _ (match_block _ _ _ _ Hm)) as (c & m' & -> & _).
  rewrite str_app_cons in Hm |- *. rewrite go_cons, Hm. simpl pred.
  by rewrite go_skip, str_app_assoc, str_app_cons, str_app_nil_l.
Qed.

Lemma go_nomatch b c s :
  matchAt (String c s) = None ->
  go b O (String c s) = String c (go (b +:+ String c "") O s).
Proof. intros Hm. by rewrite go_cons, Hm. Qed.

(** A text without an opening brace is copied. *)
Lemma go_plain s : forall b t,
  Str.all (fun c => negb (isOpen c)) s = true ->
  go b O (s +:+ t) = s +:+ go (b +:+ s) O t.
Proof.
  induction s as [|c s IH]; intros b t.
  - by rewrite !str_app_nil_l, str_app_nil_r.
  - rewrite str_all_cons. intros [Hc Hs]%andb_true_iff. apply negb_true_iff in Hc.
    rewrite !str_app_cons, go_nomatch by (by apply match_starts_open).
    by rewrite IH, str_app_assoc, str_app_cons, str_app_nil_l.
Qed.

(** In front of a barrier the scan comes to the barrier with nothing left to skip. *)
Lemma go_prefix x : forall b k t y,
  barrier matchAt t -> (k <= String.length x)%nat ->
  exists a, go b k (x +:+ t +:+ y) = a +:+ go (b +:+ x) O (t +:+ y).
Proof.
  induction x as [|c x IH]; intros b k t y Ht Hk.
  - exists "". simpl in Hk. replace k with O by lia.
    by rewrite !str_app_nil_l, str_app_nil_r.
  - assert (forall b', (b' +:+ String c "") +:+ x = b' +:+ String c x) as Hb.
    { intros b'. by rewrite str_app_assoc, str_app_cons, str_app_nil_l. }
    destruct k as [|k].
    + rewrite str_app_cons, go_cons, match_agree by done.
      destruct (matchAt (String c x)) as [[[m x'] cap]|] eqn:Hm.
      * destruct (match_length _ _ _ _ Hm) as [Hlen Hpos].
        simpl in Hlen.
        destruct (IH (b +:+ String c "") (pred (String.length m)) t y Ht) as [a Ha]; [lia|].
        rewrite Ha, Hb. eexists. by rewrite <-str_app_assoc.
      * destruct (IH (b +:+ String c "") O t y Ht) as [a Ha]; [lia|].
        rewrite Ha, Hb. exists (String c a). by rewrite str_app_cons.
    + rewrite str_app_cons, go_cons. simpl in Hk.
      destruct (IH (b +:+ String c "") k t y Ht) as [a Ha]; [lia|].
      rewrite Ha, Hb. by exists a.
Qed.

End Scan.

(** The scan does not depend on how the replacement is written. *)
Lemma replaceGo_ext {Cap : Type} (matchAt : string -> option (string * string * Cap))
  (r1 r2 : string -> string -> string -> Cap -> string) :
  (forall b m a cap, r1 b m a cap = r2 b m a cap) ->
  forall s b k, replaceGo matchAt r1 b k s = replaceGo matchAt r2 b k s.
Proof.
  intros Hr. induction s as [|c s IH]; intros b k; [done|].
  simpl. destruct k as [|k]; [|apply IH].
  destruct (matchAt (String c s)) as [[[m r] cap]|]; by rewrite ?Hr, IH.
Qed.

Section ScanFree.
Context {Cap : Type}.
Variable matchAt : string -> option (string * string * Cap).
Variable rep : string -> Cap -> string.

Hypothesis match_split :
  forall s m r cap, matchAt s = Some (m, r, cap) -> s = m +:+ r.
Hypothesis match_block :
  forall s m r cap, matchAt s = Some (m, r, cap) -> block m.
Hypothesis match_local :
  forall s m r cap, matchAt s = Some (m, r, cap) ->
  forall r', matchAt (m +:+ r') = Some (m, r', cap).

Abbreviation gof := (replaceGo matchAt (fun _ m _ cap => rep m cap)).

(** A replacement that does not look around does not need the text passed. *)
Lemma gof_before s : forall b b' k, gof b k s = gof b' k s.
Proof.
  induction s as [|c s IH]; intros b b' k; [done|].
  simpl. destruct k as [|k]; [|apply IH].
  destruct (matchAt (String c s)) as [[[m r] cap]|];
    by rewrite (IH (b +:+ String c "") (b' +:+ String c "")).
Qed.

Lemma gof_match b s m r cap :
  matchAt s = Some (m, r, cap) -> gof b O s = rep m cap +:+ gof b O r.
Proof.
  intros Hm.
  rewrite (go_match matchAt _ match_split match_block b s m r cap Hm).
  f_equal. apply gof_before.
Qed.

Lemma gof_plain b s t :
  Str.all (fun c => negb (isOpen c)) s = true -> gof b O (s +:+ t) = s +:+ gof b O t.
Proof.
  intros Hs. rewrite (go_plain matchAt _ match_split match_block s b t Hs).
  f_equal. apply gof_before.
Qed.

Lemma gof_nil b k : gof b k "" = "".
Proof. reflexivity. Qed.

(** The scan of a block that is followed by [y]: the block is replaced or copied
    as it would be on its own. *)
Lemma gof_block b t y : block t -> gof b O (t +:+ y) = gof b O t +:+ gof b O y.
Proof.
  intros Ht.
  destruct (matchAt (t +:+ y)) as [[[m r] cap]|] eqn:Hm.
  - destruct (block_eq m t r y (match_block _ _ _ _ Hm) Ht
                (eq_sym (match_split _ _ _ _ Hm))) as [-> ->].
    pose proof (match_local _ _ _ _ Hm "") as Hm'. rewrite str_app_nil_r in Hm'.
    rewrite (gof_match b _ _ _ _ Hm), (gof_match b _ _ _ _ Hm'), gof_nil.
    by rewrite str_app_nil_r.
  - assert (matchAt t = None) as Hm'.
    { destruct (matchAt t) as [[[m r] cap]|] eqn:Hmt; [|done].
      pose proof (match_split _ _ _ _ Hmt) as Hs.
      destruct (block_eq m t r "" (match_block _ _ _ _ Hmt) Ht) as [-> ->].
      { by rewrite str_app_nil_r. }
      rewrite (match_local _ _ _ _ Hmt y) in Hm. done. }
    destruct (block_tail _ Ht) as (t' & -> & Ht').
    rewrite str_app_cons in Hm |- *.
    rewrite (go_nomatch matchAt _ b _ _ Hm), (go_nomatch matchAt _ b _ _ Hm').
    rewrite (gof_plain _ t' y Ht').
    rewrite <-(str_app_nil_r t') at 2. rewrite (gof_plain _ t' "" Ht'), gof_nil.
    rewrite str_app_nil_r, str_app_cons. do 2 f_equal. apply gof_before.
Qed.

Lemma gof_prefix x : forall b k t y,
  barrier matchAt t -> (k <= String.length x)%nat ->
  gof b k (x +:+ t +:+ y) = gof b k x +:+ gof b O (t +:+ y).
Proof.
  induction x as [|c x IH]; intros b k t y Ht Hk.
  - simpl in Hk. replace k with O by lia. by rewrite gof_nil, !str_app_nil_l.
  - rewrite str_app_cons. simpl. destruct k as [|k].
    + rewrite (match_agree matchAt match_split match_local) by done.
      destruct (matchAt (String c x)) as [[[m x'] cap]|] eqn:Hm.
      * destruct (match_length matchAt match_split match_block _ _ _ _ Hm) as [Hlen Hpos].
        simpl in Hlen. rewrite IH by (done || lia). rewrite str_app_assoc.
        do 2 f_equal. apply gof_before.
      * rewrite IH by (done || lia). rewrite str_app_cons. do 2 f_equal. apply gof_before.
    + simpl in Hk. rewrite IH by (done || lia). f_equal. apply gof_before.
Qed.

(** A global replace whose matches are blocks and whose replacement does not
    look around works on a block and on the texts around it one by one. *)
Lemma replaceAll_block x t y :
  block t ->
  replaceAll matchAt (fun _ m _ cap => rep m cap) (x +:+ t +:+ y) =
    replaceAll matchAt (fun _ m _ cap => rep m cap) x
    +:+ replaceAll matchAt (fun _ m _ cap => rep m cap) t
    +:+ replaceAll matchAt (fun _ m _ cap => rep m cap) y.
Proof.
  intros Ht. unfold replaceAll.
  rewrite gof_prefix by (by apply (block_barrier matchAt match_split match_block) || lia).
  by rewrite gof_block.
Qed.

(** The same for a barrier without an opening brace: it is copied. *)
Lemma replaceAll_barrier x t y :
  barrier matchAt t -> Str.all (fun c => negb (isOpen c)) t = true ->
  replaceAll matchAt (fun _ m _ cap => rep m cap) (x +:+ t +:+ y) =
    replaceAll matchAt (fun _ m _ cap => rep m cap) x
    +:+ t +:+ replaceAll matchAt (fun _ m _ cap => rep m cap) y.
Proof.
  intros Ht Hplain. unfold replaceAll.
  rewrite gof_prefix by (done || lia). by rewrite gof_plain.
Qed.

Lemma replaceAll_plain s :
  Str.all (fun c => negb (isOpen c)) s = true ->
  replaceAll matchAt (fun _ m _ cap => rep m cap) s = s.
Proof.
  intros Hs. unfold replaceAll.
  rewrite <-(str_app_nil_r s) at 1. by rewrite (gof_plain _ _ _ Hs), gof_nil, str_app_nil_r.
Qed.

Lemma replaceAll_match t cap :
  matchAt t = Some (t, "", cap) ->
  replaceAll matchAt (fun _ m _ cap => rep m cap) t = rep t cap.
Proof.
  intros Hm. unfold replaceAll.
  by rewrite (gof_match _ _ _ _ _ Hm), gof_nil, str_app_nil_r.
Qed.

(** A block that the pattern does not match is copied. *)
Lemma replaceAll_nomatch t :
  block t -> matchAt t = None -> replaceAll matchAt (fun _ m _ cap => rep m cap) t = t.
Proof.
  intros Ht Hm. unfold replaceAll.
  destruct (block_tail _ Ht) as (t' & -> & Ht').
  rewrite (go_nomatch matchAt _ "" _ _ Hm).
  rewrite <-(str_app_nil_r t') at 1. by rewrite (gof_plain _ t' "" Ht'), gof_nil, str_app_nil_r.
Qed.

End ScanFree.

(** ** The patterns of [applyPattern] *)

Lemma matchToken_split tok s m r cap : matchToken tok s = Some (m, r, cap) -> s = m +:+ r.
Proof.
  unfold matchToken. destruct (Str.stripPrefix tok s) as [r'|] eqn:Hs; [|done].
  intros [= <- <- _]. by apply str_stripPrefix_Some.
Qed.

Lemma matchToken_block tok s m r cap :
  block tok -> matchToken tok s = Some (m, r, cap) -> block m.
Proof.
  unfold matchToken. destruct (Str.stripPrefix tok s); [|done]. by intros Ht [= <- _ _].
Qed.

Lemma matchToken_local tok s m r cap :
  matchToken tok s = Some (m, r, cap) ->
  forall r', matchToken tok (m +:+ r') = Some (m, r', cap).
Proof.
  unfold matchToken. destruct (Str.stripPrefix tok s); [|done].
  intros [= <- _ <-] r'. by rewrite str_stripPrefix_app.
Qed.

Lemma matchToken_here tok r : matchToken tok (tok +:+ r) = Some (tok, r, tt).
Proof. unfold matchToken. by rewrite str_stripPrefix_app. Qed.

Lemma isDigit_noBrace c : isDigit c = true -> noBrace c = true.
Proof.
  unfold isDigit, noBrace, isOpen, isClose.
  destruct (Ascii.eqb_spec c "{") as [->|_]; [done|].
  destruct (Ascii.eqb_spec c "}") as [->|_]; done.
Qed.

Lemma spanDigits_spec s : forall ds r,
  spanDigits s = (ds, r) -> s = ds +:+ r /\ Str.all isDigit ds = true.
Proof.
  induction s as [|c s IH]; intros ds r; simpl.
  - by intros [= <- <-].
  - destruct (isDigit c) eqn:Hc.
    + destruct (spanDigits s) as [ds' r'] eqn:Hs. intros [= <- <-].
      destruct (IH _ _ eq_refl) as [-> Hds]. rewrite str_app_cons. simpl.
      by rewrite Hc, Hds.
    + by intros [= <- <-].
Qed.

Lemma spanDigits_app ds e r :
  Str.all isDigit ds = true -> isDigit e = false ->
  spanDigits (ds +:+ String e r) = (ds, String e r).
Proof.
  intros Hds He. induction ds as [|d ds IH].
  - rewrite str_app_nil_l. simpl. by rewrite He.
  - rewrite str_all_cons in Hds. apply andb_true_iff in Hds as [Hd Hds].
    rewrite str_app_cons. simpl. by rewrite Hd, IH.
Qed.

(** What [matchNum] matches: the bare token, or the token with its digits. *)
Lemma matchNum_Some s m r cap :
  matchNum s = Some (m, r, cap) ->
  s = m +:+ r /\
  ((m = "{num}" /\ cap = None) \/
   (exists d ds, m = "{num:" +:+ String d ds +:+ "}" /\ cap = Some (String d ds) /\
                 Str.all isDigit (String d ds) = true)).
Proof.
  unfold matchNum.
  destruct (Str.stripPrefix "{num" s) as [r0|] eqn:Hs; [|done].
  apply str_stripPrefix_Some in Hs as ->.
  destruct r0 as [|c r1]; [done|].
  destruct (Ascii.eqb_spec c ":") as [->|_].
  - destruct (spanDigits r1) as [ds rest] eqn:Hspan.
    destruct (spanDigits_spec _ _ _ Hspan) as [-> Hds].
    destruct ds as [|d ds]; [done|]. destruct rest as [|e r2]; [done|].
    destruct (Ascii.eqb_spec e "}") as [->|_]; [|done].
    intros [= <- <- <-]. split.
    + by rewrite !str_app_assoc.
    + right. by exists d, ds.
  - destruct (Ascii.eqb_spec c "}") as [->|_]; [|done].
    intros [= <- <- <-]. split; [done|]. by left.
Qed.

Lemma matchNum_bare r : matchNum ("{num}" +:+ r) = Some ("{num}", r, None).
Proof. reflexivity. Qed.

Lemma matchNum_padded d ds r :
  Str.all isDigit (String d ds) = true ->
  matchNum ("{num:" +:+ String d ds +:+ "}" +:+ r)
  = Some ("{num:" +:+ String d ds +:+ "}", r, Some (String d ds)).
Proof.
  intros Hds. unfold matchNum.
  change ("{num:" +:+ String d ds +:+ "}" +:+ r)
    with ("{num" +:+ String ":" (String d ds +:+ String "}" r)).
  rewrite str_stripPrefix_app. simpl Ascii.eqb. cbv iota.
  rewrite spanDigits_app by done. reflexivity.
Qed.

Lemma matchNum_split s m r cap : matchNum s = Some (m, r, cap) -> s = m +:+ r.
Proof. by intros [? _]%matchNum_Some. Qed.

Lemma matchNum_block s m r cap : matchNum s = Some (m, r, cap) -> block m.
Proof.
  intros [_ [[-> _]|(d & ds & -> & _ & Hds)]]%matchNum_Some.
  - by exists "num".
  - exists ("num:" +:+ String d ds). split; [by rewrite !str_app_assoc|].
    rewrite str_all_app. apply andb_true_iff. split; [done|].
    eapply str_all_impl; [apply isDigit_noBrace|done].
Qed.

Lemma matchNum_local s m r cap :
  matchNum s = Some (m, r, cap) ->
  forall r', matchNum (m +:+ r') = Some (m, r', cap).
Proof.
  intros [_ [[-> ->]|(d & ds & -> & -> & Hds)]]%matchNum_Some r'.
  - apply matchNum_bare.
  - rewrite !str_app_assoc. by apply matchNum_padded.
Qed.

Lemma block_num : block "{num}".
Proof. by exists "num". Qed.

Lemma block_date : block "{date}".
Proof. by exists "date". Qed.

Lemma block_name : block "{name}".
Proof. by exists "name". Qed.

Lemma block_padded ds : Str.all isDigit ds = true -> block ("{num:" +:+ ds +:+ "}").
Proof.
  intros Hds. exists ("num:" +:+ ds). split; [by rewrite !str_app_assoc|].
  rewrite str_all_app. apply andb_true_iff. split; [done|].
  eapply str_all_impl; [apply isDigit_noBrace|done].
Qed.

(** ** Digits and dates *)

Lemma string_of_uint_digits d : Str.all isDigit (NilEmpty.string_of_uint d) = true.
Proof. induction d; simpl; auto. Qed.

Lemma toString_chars n :
  Str.all (fun c => isDigit c || Ascii.eqb c "-") (Str.toString n) = true.
Proof.
  assert (forall d, Str.all (fun c => isDigit c || Ascii.eqb c "-")
                      (NilZero.string_of_uint d) = true) as Hu.
  { intros d. eapply str_all_impl; [|destruct d; try apply string_of_uint_digits; done].
    intros c ->. done. }
  unfold Str.toString, NilZero.string_of_int.
  destruct (Z.to_int n); [apply Hu|]. simpl. apply Hu.
Qed.

Lemma str_all_repeat P c n : P c = true -> Str.all P (Str.repeat c n) = true.
Proof. intros Hc. induction n; simpl; [done|]. by rewrite Hc. Qed.

Lemma pad_dateChars width n : Str.all dateChar (Date.pad width n) = true.
Proof.
  unfold Date.pad, Str.padStart. rewrite str_all_app, str_all_repeat by done.
  eapply str_all_impl; [|apply toString_chars].
  intros c Hc. unfold dateChar. apply orb_true_iff in Hc as [->| ->]; [done|].
  by rewrite orb_true_r.
Qed.

Lemma yearString_dateChars y : Str.all dateChar (Date.yearString y) = true.
Proof.
  unfold Date.yearString. destruct (_ && _); [apply pad_dateChars|].
  rewrite str_all_app, pad_dateChars. by destruct (0 <=? y).
Qed.

Lemma dateChar_isoChar c : dateChar c = true -> isoChar c = true.
Proof. unfold dateChar, isoChar. intros ->. done. Qed.

Lemma pad_chars width n : Str.all isoChar (Date.pad width n) = true.
Proof. eapply str_all_impl; [apply dateChar_isoChar|apply pad_dateChars]. Qed.

Lemma yearString_chars y : Str.all isoChar (Date.yearString y) = true.
Proof. eapply str_all_impl; [apply dateChar_isoChar|apply yearString_dateChars]. Qed.

Lemma toISOString_chars value iso :
  Date.toISOString value = Normal iso -> Str.all isoChar iso = true.
Proof.
  unfold Date.toISOString. destruct (Date.timeClip value) as [tv|]; [|done].
  destruct (Date.civil _) as [[y m] d]. intros [= <-].
  by rewrite !str_all_app, yearString_chars, !pad_chars.
Qed.

Lemma splitHead_app sep s t :
  Str.all (fun c => negb (Ascii.eqb c sep)) s = true ->
  splitHead sep (s +:+ t) = s +:+ splitHead sep t.
Proof.
  induction s as [|c s IH]; [done|].
  rewrite str_all_cons. intros [Hc Hs]%andb_true_iff. apply negb_true_iff in Hc.
  rewrite !str_app_cons. simpl. by rewrite Hc, IH.
Qed.

(** The date string of a valid time value has a hyphen behind the year. *)
Lemma dateString_hyphen value :
  Z.abs value <= Date.maxTime ->
  exists d1 d2, dateString value = d1 +:+ String "-" d2.
Proof.
  intros H. unfold dateString, Date.toISOString, Date.timeClip.
  destruct (Z.leb_spec (Z.abs value) Date.maxTime) as [_|Hgt]; [|lia].
  destruct (Date.civil _) as [[y m] d].
  rewrite splitHead_app.
  - eexists _, _. reflexivity.
  - eapply str_all_impl; [|apply yearString_dateChars].
    intros c. unfold dateChar, isDigit.
    destruct (Ascii.eqb_spec c "T") as [->|_]; done.
Qed.

Lemma splitHead_all P sep s : Str.all P s = true -> Str.all P (splitHead sep s) = true.
Proof.
  induction s as [|c s IH]; simpl; [done|].
  intros [Hc Hs]%andb_true_iff. destruct (Ascii.eqb c sep); simpl; [done|].
  by rewrite Hc, IH.
Qed.

Lemma dateString_chars value : Str.all isoChar (dateString value) = true.
Proof.
  unfold dateString. destruct (Date.toISOString value) as [iso|] eqn:Hiso; [|done].
  apply splitHead_all. by eapply toISOString_chars.
Qed.

Lemma isoChar_plain c :
  isoChar c = true -> noDollar c = true /\ negb (isOpen c) = true.
Proof.
  unfold isoChar, noDollar, isOpen, isDigit.
  destruct (Ascii.eqb_spec c "$") as [->|_]; [done|].
  destruct (Ascii.eqb_spec c "{") as [->|_]; done.
Qed.

Lemma dateString_noDollar value : Str.all noDollar (dateString value) = true.
Proof.
  eapply str_all_impl; [|apply dateString_chars]. intros c Hc. by apply isoChar_plain.
Qed.

Lemma dateString_noOpen value :
  Str.all (fun c => negb (isOpen c)) (dateString value) = true.
Proof.
  eapply str_all_impl; [|apply dateString_chars]. intros c Hc. by apply isoChar_plain.
Qed.

Lemma toString_noOpen n : Str.all (fun c => negb (isOpen c)) (Str.toString n) = true.
Proof.
  eapply str_all_impl; [|apply toString_chars]. intros c. unfold isOpen, isDigit.
  destruct (Ascii.eqb_spec c "{") as [->|_]; done.
Qed.

(** ** Replacement strings *)

(** A replacement string without a dollar sign stands for itself. *)
Lemma getSubstitution_plain m b a template :
  Str.all noDollar template = true -> getSubstitution m b a template = template.
Proof.
  induction template as [|c t IH]; [done|].
  rewrite str_all_cons. intros [Hc Ht]%andb_true_iff.
  unfold noDollar in Hc. apply negb_true_iff in Hc.
  simpl. rewrite Hc. by rewrite IH.
Qed.

Lemma replaceToken_plain tok template s :
  Str.all noDollar template = true ->
  replaceToken tok template s = replaceAll (matchToken tok) (fun _ _ _ _ => template) s.
Proof.
  intros Ht. unfold replaceToken, replaceAll. apply replaceGo_ext.
  intros b m a _. by apply getSubstitution_plain.
Qed.

(** ** The passes of [applyPattern] on blocks *)

Lemma matchToken_other tok t : block tok -> block t -> t <> tok -> matchToken tok t = None.
Proof.
  intros Htok Ht Hne. destruct (matchToken tok t) as [[[m r] []]|] eqn:Hm; [|done].
  pose proof (matchToken_split _ _ _ _ _ Hm) as Hs.
  pose proof (matchToken_block _ _ _ _ _ Htok Hm) as Hb.
  destruct (block_eq m t r "" Hb Ht) as [-> _]; [by rewrite str_app_nil_r|].
  unfold matchToken in Hm. destruct (Str.stripPrefix tok t); [|done].
  injection Hm as -> _. done.
Qed.

Section TokenPass.
Variables tok template : string.
Hypothesis tok_block : block tok.
Hypothesis template_plain : Str.all noDollar template = true.

Lemma replaceToken_block x t y :
  block t ->
  replaceToken tok template (x +:+ t +:+ y) =
    replaceToken tok template x +:+ replaceToken tok template t
    +:+ replaceToken tok template y.
Proof.
  intros Ht. rewrite !replaceToken_plain by done.
  apply (replaceAll_block (matchToken tok) (fun _ _ => template)
           (matchToken_split tok)
           (fun s m r cap => matchToken_block tok s m r cap tok_block)
           (matchToken_local tok) x t y Ht).
Qed.

Lemma replaceToken_self : replaceToken tok template tok = template.
Proof.
  rewrite replaceToken_plain by done.
  apply (replaceAll_match (matchToken tok) (fun _ _ => template)
           (matchToken_split tok)
           (fun s m r cap => matchToken_block tok s m r cap tok_block) tok tt).
  pose proof (matchToken_here tok "") as H. by rewrite str_app_nil_r in H.
Qed.

Lemma replaceToken_other t : block t -> t <> tok -> replaceToken tok template t = t.
Proof.
  intros Ht Hne. rewrite replaceToken_plain by done.
  apply (replaceAll_nomatch (matchToken tok) (fun _ _ => template)
           (matchToken_split tok)
           (fun s m r cap => matchToken_block tok s m r cap tok_block) t Ht).
  by apply matchToken_other.
Qed.

End TokenPass.

Lemma replaceNum_block index x t y :
  block t ->
  replaceNum index (x +:+ t +:+ y) =
    replaceNum index x +:+ replaceNum index t +:+ replaceNum index y.
Proof.
  apply (replaceAll_block matchNum (fun _ cap => numReplacer index cap)
           matchNum_split matchNum_block matchNum_local).
Qed.

Lemma replaceNum_bare index : replaceNum index "{num}" = Str.toString index.
Proof.
  apply (replaceAll_match matchNum (fun _ cap => numReplacer index cap)
           matchNum_split matchNum_block "{num}" None). reflexivity.
Qed.

Lemma replaceNum_padded index ds :
  ds <> "" -> Str.all isDigit ds = true ->
  replaceNum index ("{num:" +:+ ds +:+ "}")
  = Str.padStart (String.length ds) (Str.toString index).
Proof.
  intros Hne Hds. destruct ds as [|d ds]; [done|].
  apply (replaceAll_match matchNum (fun _ cap => numReplacer index cap)
           matchNum_split matchNum_block _ (Some (String d ds))).
  pose proof (matchNum_padded d ds "" Hds) as H.
  by rewrite str_app_nil_r in H.
Qed.

Lemma matchNum_chars s m r cap : matchNum s = Some (m, r, cap) -> Str.all numChar m = true.
Proof.
  intros [_ [[-> _]|(d & ds & -> & _ & Hds)]]%matchNum_Some; [done|].
  rewrite !str_all_app. apply andb_true_iff. split; [done|].
  apply andb_true_iff. split; [|done].
  eapply str_all_impl; [|exact Hds]. unfold numChar. by intros c ->.
Qed.

(** A nonempty end of a text that ends with a closing brace ends with it. *)
Lemma str_end_close u : forall v w c,
  u +:+ String c v = w +:+ "}" -> exists v', String c v = v' +:+ "}".
Proof.
  induction u as [|a u IH]; intros v w c.
  - rewrite str_app_nil_l. intros ->. by exists w.
  - destruct w as [|b w].
    + rewrite str_app_cons, str_app_nil_l. intros [= _ H].
      destruct u; discriminate H.
    + rewrite !str_app_cons. intros [= _ H]. by apply (IH _ _ _ H).
Qed.

(** A text without braces that holds a code unit foreign to the matches of
    [matchNum] is a barrier for it. *)
Lemma matchNum_barrier d1 e d2 :
  Str.all noBrace (d1 +:+ String e d2) = true -> numChar e = false ->
  barrier matchNum (d1 +:+ String e d2).
Proof.
  intros Hplain He c x y m r cap Hm.
  pose proof (matchNum_split _ _ _ _ Hm) as Hs. symmetry in Hs.
  destruct (str_app_eq_app _ _ _ _ Hs) as [(x' & Hx & Hr)|(a & m' & Hmx & Hdy)]; [eauto|].
  exfalso. symmetry in Hdy.
  destruct (str_app_eq_app _ _ _ _ Hdy) as [(x' & Hd & _)|(a' & m'' & Hm' & _)].
  - destruct (matchNum_block _ _ _ _ Hm) as (body & Hbody & _).
    assert (exists v', String a m' = v' +:+ "}") as [v' Hv].
    { apply (str_end_close (String c x) m' (String "{" body) a).
      by rewrite <-Hmx, Hbody, str_app_cons. }
    rewrite Hd, Hv, str_app_assoc, str_all_app in Hplain.
    apply andb_true_iff in Hplain as [_ Hplain]. done.
  - pose proof (matchNum_chars _ _ _ _ Hm) as Hall.
    rewrite Hmx, Hm', !str_all_app in Hall.
    apply andb_true_iff in Hall as [_ [[_ Hall]%andb_true_iff _]%andb_true_iff].
    rewrite str_all_cons, He in Hall. done.
Qed.

Lemma dateString_barrier value :
  Z.abs value <= Date.maxTime -> barrier matchNum (dateString value).
Proof.
  intros Hv. destruct (dateString_hyphen value Hv) as (d1 & d2 & Hd).
  pose proof (dateString_chars value) as Hchars. rewrite Hd in Hchars |- *.
  apply matchNum_barrier; [|done].
  eapply str_all_impl; [|exact Hchars]. intros c. unfold isoChar, noBrace, isOpen, isClose, isDigit.
  destruct (Ascii.eqb_spec c "{") as [->|_]; [done|].
  destruct (Ascii.eqb_spec c "}") as [->|_]; done.
Qed.

Lemma replaceNum_date index value x y :
  Z.abs value <= Date.maxTime ->
  replaceNum index (x +:+ dateString value +:+ y) =
    replaceNum index x +:+ dateString value +:+ replaceNum index y.
Proof.
  intros Hv.
  apply (replaceAll_barrier matchNum (fun _ cap => numReplacer index cap)
           matchNum_split matchNum_block matchNum_local).
  - by apply dateString_barrier.
  - apply dateString_noOpen.
Qed.

Lemma getSubstitution_cons_plain m b a c t :
  Ascii.eqb c "$" = false ->
  getSubstitution m b a (String c t) = String c (getSubstitution m b a t).
Proof. intros Hc. simpl. by rewrite Hc. Qed.

Lemma getSubstitution_open m b a c s :
  getSubstitution m b a (String c (String "{" s))
  = String c (getSubstitution m b a (String "{" s)).
Proof. simpl. by destruct (Ascii.eqb c "$"). Qed.

Lemma getSubstitution_dollar m b a d s :
  getSubstitution m b a (String "$" (String d s)) =
    if Ascii.eqb d "$" then String "$" (getSubstitution m b a s)
    else if Ascii.eqb d "&" then m +:+ getSubstitution m b a s
    else if Ascii.eqb d "`" then b +:+ getSubstitution m b a s
    else if Ascii.eqb d "'" then a +:+ getSubstitution m b a s
    else String "$" (getSubstitution m b a (String d s)).
Proof. reflexivity. Qed.

Lemma getSubstitution_single m b a c : getSubstitution m b a (String c "") = String c "".
Proof. simpl. by destruct (Ascii.eqb c "$"). Qed.

(** A brace block inside a replacement string stands for itself, and what is
    in front of it and behind it is expanded as it would be on its own. *)
Lemma getSubstitution_block m b a t n2 :
  block t -> Str.all noDollar t = true ->
  forall n1,
    getSubstitution m b a (n1 +:+ t +:+ n2)
    = getSubstitution m b a n1 +:+ t +:+ getSubstitution m b a n2.
Proof.
  intros Ht Hplain.
  assert (forall u s, Str.all noDollar u = true ->
            getSubstitution m b a (u +:+ s) = u +:+ getSubstitution m b a s) as Hcopy.
  { induction u as [|c u IH]; intros s; [done|].
    rewrite str_all_cons. intros [Hc Hu]%andb_true_iff.
    apply negb_true_iff in Hc.
    by rewrite !str_app_cons, getSubstitution_cons_plain, IH. }
  destruct (block_nonempty _ Ht) as (o & t' & Heq & Ho).
  apply Ascii.eqb_eq in Ho. subst o.
  assert (forall n1,
            (getSubstitution m b a (n1 +:+ t +:+ n2)
             = getSubstitution m b a n1 +:+ t +:+ getSubstitution m b a n2) /\
            (forall c, getSubstitution m b a (String c n1 +:+ t +:+ n2)
             = getSubstitution m b a (String c n1) +:+ t +:+ getSubstitution m b a n2))
    as H; [|intros n1; apply H].
  induction n1 as [|d n1 [IH1 IH2]].
  - split; [by rewrite !str_app_nil_l, Hcopy|].
    intros c. rewrite str_app_cons, str_app_nil_l, getSubstitution_single.
    pose proof (Hcopy t n2 Hplain) as Ht2. subst t.
    rewrite str_app_cons in Ht2 |- *.
    by rewrite getSubstitution_open, Ht2, !str_app_cons, str_app_nil_l.
  - split; [apply IH2|].
    intros c. rewrite !str_app_cons.
    destruct (Ascii.eqb c "$") eqn:Hc.
    + specialize (IH2 d). rewrite str_app_cons in IH2.
      apply Ascii.eqb_eq in Hc. subst c. rewrite !getSubstitution_dollar.
      destruct (Ascii.eqb d "$"); [by rewrite IH1, str_app_cons|].
      destruct (Ascii.eqb d "&"); [by rewrite IH1, str_app_assoc|].
      destruct (Ascii.eqb d "`"); [by rewrite IH1, str_app_assoc|].
      destruct (Ascii.eqb d "'"); [by rewrite IH1, str_app_assoc|].
      by rewrite IH2, str_app_cons.
    + specialize (IH2 d). rewrite str_app_cons in IH2.
      rewrite (getSubstitution_cons_plain m b a c (String d (n1 +:+ t +:+ n2))) by done.
      rewrite (getSubstitution_cons_plain m b a c (String d n1)) by done.
      rewrite IH2. reflexivity.
Qed.

(** The first pass puts the expanded name in the place of a [{name}] token. *)
Lemma replaceName_inject name p1 p2 :
  exists A0 B0,
    replaceToken "{name}" name (p1 +:+ "{name}" +:+ p2)
    = A0 +:+ getSubstitution "{name}" p1 p2 name +:+ B0 /\
    (Str.all noDollar name = true ->
     A0 = replaceToken "{name}" name p1 /\ B0 = replaceToken "{name}" name p2).
Proof.
  destruct (Str.all noDollar name) eqn:Hplain.
  - exists (replaceToken "{name}" name p1), (replaceToken "{name}" name p2).
    split; [|done].
    rewrite replaceToken_block by (done || apply block_name).
    rewrite replaceToken_self by (done || apply block_name).
    by rewrite getSubstitution_plain.
  - pose (repl := fun before m after (_ : unit) => getSubstitution m before after name).
    destruct (go_prefix (matchToken "{name}") repl (matchToken_split "{name}")
                (fun s m r cap => matchToken_block "{name}" s m r cap block_name)
                (matchToken_local "{name}") p1 "" O "{name}" p2) as [A0 HA0].
    { apply (block_barrier _ (matchToken_split "{name}")
               (fun s m r cap => matchToken_block "{name}" s m r cap block_name)).
      apply block_name. }
    { lia. }
    exists A0, (replaceGo (matchToken "{name}") repl (p1 +:+ "{name}") O p2).
    split; [|done].
    unfold replaceToken, replaceAll. fold repl. rewrite HA0, str_app_nil_l.
    by rewrite (go_match (matchToken "{name}") repl (matchToken_split "{name}")
                  (fun s m r cap => matchToken_block "{name}" s m r cap block_name)
                  p1 _ _ _ _ (matchToken_here "{name}" p2)).
Qed.

Lemma applyPattern_passes f c index :
  validTime f ->
  applyPattern f c index =
    Normal (prefix c
            +:+ laterPasses (dateString (lastModified f)) index
                  (replaceToken "{name}" (originalName f) (pattern c))
            +:+ suffix c).
Proof.
  intros [iso Hiso]%toISOString_valid.
  unfold applyPattern, laterPasses, dateString. by rewrite Hiso.
Qed.

Lemma laterPasses_num d index a b :
  Str.all noDollar d = true ->
  laterPasses d index (a +:+ "{num}" +:+ b)
  = laterPasses d index a +:+ Str.toString index +:+ laterPasses d index b.
Proof.
  intros Hd. unfold laterPasses.
  rewrite (replaceToken_block "{date}" d block_date Hd _ _ _ block_num).
  rewrite (replaceToken_other "{date}" d block_date Hd _ block_num) by done.
  by rewrite (replaceNum_block _ _ _ _ block_num), replaceNum_bare.
Qed.

Lemma laterPasses_padded d index ds a b :
  Str.all noDollar d = true -> ds <> "" -> Str.all isDigit ds = true ->
  laterPasses d index (a +:+ ("{num:" +:+ ds +:+ "}") +:+ b)
  = laterPasses d index a
    +:+ Str.padStart (String.length ds) (Str.toString index)
    +:+ laterPasses d index b.
Proof.
  intros Hd Hne Hds. unfold laterPasses.
  rewrite (replaceToken_block "{date}" d block_date Hd _ _ _ (block_padded ds Hds)).
  rewrite (replaceToken_other "{date}" d block_date Hd _ (block_padded ds Hds)) by done.
  by rewrite (replaceNum_block _ _ _ _ (block_padded ds Hds)), replaceNum_padded.
Qed.

Lemma laterPasses_date value index a b :
  Z.abs value <= Date.maxTime ->
  laterPasses (dateString value) index (a +:+ "{date}" +:+ b)
  = laterPasses (dateString value) index a +:+ dateString value
    +:+ laterPasses (dateString value) index b.
Proof.
  intros Hv. unfold laterPasses.
  rewrite (replaceToken_block "{date}" _ block_date (dateString_noDollar value)
             _ _ _ block_date).
  rewrite (replaceToken_self "{date}" _ block_date (dateString_noDollar value)).
  by apply replaceNum_date.
Qed.

Lemma applyPattern_Normal_valid f c index n :
  applyPattern f c index = Normal n -> validTime f.
Proof.
  unfold applyPattern, validTime. intros Hn.
  destruct (Z.le_gt_cases (Z.abs (lastModified f)) Date.maxTime) as [|Hgt]; [done|].
  rewrite toISOString_invalid in Hn by lia. done.
Qed.

(** C8. For an index from [-2^53] to [2^53]: in the text that reaches the
    third pass, a token [{num:ds}] with one or more digits [ds] is replaced by
    the decimal string of the index, padded on the left with zeros to the
    number of digits of [ds], and a bare [{num}] by the decimal string as it
    is; what stands in front of the token and behind it is rewritten on its
    own. For a name without a dollar sign the same holds of the pattern and
    the name that [applyPattern] returns. In a plan the index of the entry at
    position [i] is [startNumber + i], as long as the counter, which starts
    at [-2^53] or above, has not passed [2^53]. *)
Theorem num_token_padding
  (f : ImageFile) (c : RenameConfig) (index : Z) (pre ds post : string)
  (files : list ImageFile) (plan : list ProcessedFile) (i : nat) :
  ds <> "" -> Str.all isDigit ds = true ->
  - Num.maxExact <= index <= Num.maxExact ->
  let pad := fun n : Z =>
    Str.repeat "0" (String.length ds - String.length (Str.toString n))
    +:+ Str.toString n in
  replaceNum index (pre +:+ ("{num:" +:+ ds +:+ "}") +:+ post)
    = replaceNum index pre +:+ pad index +:+ replaceNum index post /\
  replaceNum index (pre +:+ "{num}" +:+ post)
    = replaceNum index pre +:+ Str.toString index +:+ replaceNum index post /\
  (validTime f -> Str.all noDollar (originalName f) = true ->
   (pattern c = pre +:+ ("{num:" +:+ ds +:+ "}") +:+ post ->
    applyPattern f c index =
      Normal (prefix c +:+ passes f index pre +:+ pad index +:+ passes f index post
              +:+ suffix c)) /\
   (pattern c = pre +:+ "{num}" +:+ post ->
    applyPattern f c index =
      Normal (prefix c +:+ passes f index pre +:+ Str.toString index
              +:+ passes f index post +:+ suffix c))) /\
  (forall p, generatePreview files c = Normal plan -> plan !! i = Some p ->
   - Num.maxExact <= startNumber c ->
   startNumber c + Z.of_nat i <= Num.maxExact ->
   Str.all noDollar (originalName (file p)) = true ->
   (pattern c = pre +:+ ("{num:" +:+ ds +:+ "}") +:+ post ->
    newName p =
      prefix c +:+ passes (file p) (startNumber c + Z.of_nat i) pre
      +:+ pad (startNumber c + Z.of_nat i)
      +:+ passes (file p) (startNumber c + Z.of_nat i) post +:+ suffix c) /\
   (pattern c = pre +:+ "{num}" +:+ post ->
    newName p =
      prefix c +:+ passes (file p) (startNumber c + Z.of_nat i) pre
      +:+ Str.toString (startNumber c + Z.of_nat i)
      +:+ passes (file p) (startNumber c + Z.of_nat i) post +:+ suffix c)).
Proof.
  intros Hne Hds _ pad.
  assert (forall n, pad n = Str.padStart (String.length ds) (Str.toString n)) as Hpad
    by done.
  assert (forall g k, validTime g -> Str.all noDollar (originalName g) = true ->
            pattern c = pre +:+ ("{num:" +:+ ds +:+ "}") +:+ post ->
            applyPattern g c k =
              Normal (prefix c +:+ passes g k pre +:+ pad k +:+ passes g k post
                      +:+ suffix c)) as Hpadded.
  { intros g k Hvalid Hname Hpat.
    rewrite (applyPattern_passes g c k Hvalid), Hpat. unfold passes.
    rewrite (replaceToken_block "{name}" _ block_name Hname _ _ _ (block_padded ds Hds)).
    rewrite (replaceToken_other "{name}" _ block_name Hname _ (block_padded ds Hds)) by done.
    rewrite laterPasses_padded by (done || apply dateString_noDollar).
    by rewrite !str_app_assoc, Hpad. }
  assert (forall g k, validTime g -> Str.all noDollar (originalName g) = true ->
            pattern c = pre +:+ "{num}" +:+ post ->
            applyPattern g c k =
              Normal (prefix c +:+ passes g k pre +:+ Str.toString k +:+ passes g k post
                      +:+ suffix c)) as Hbare.
  { intros g k Hvalid Hname Hpat.
    rewrite (applyPattern_passes g c k Hvalid), Hpat. unfold passes.
    rewrite (replaceToken_block "{name}" _ block_name Hname _ _ _ block_num).
    rewrite (replaceToken_other "{name}" _ block_name Hname _ block_num) by done.
    rewrite laterPasses_num by apply dateString_noDollar.
    by rewrite !str_app_assoc. }
  split_and!.
  - by rewrite (replaceNum_block _ _ _ _ (block_padded ds Hds)), replaceNum_padded.
  - by rewrite (replaceNum_block _ _ _ _ block_num), replaceNum_bare.
  - intros Hvalid Hname. split; [by apply Hpadded|by apply Hbare].
  - intros p Hgen Hi Hlo Hhi Hname.
    destruct (generatePreview_spec _ _ _ Hgen) as [_ Hplan].
    destruct (Hplan _ _ Hi) as (n & Hn & Hp).
    rewrite (count_exact _ _ Hlo Hhi) in Hn.
    assert (newName p = n) as -> by (rewrite Hp at 1; reflexivity).
    pose proof (applyPattern_Normal_valid _ _ _ _ Hn) as Hvalid.
    split; intros Hpat.
    + rewrite (Hpadded _ _ Hvalid Hname Hpat) in Hn. by injection Hn as <-.
    + rewrite (Hbare _ _ Hvalid Hname Hpat) in Hn. by injection Hn as <-.
Qed.

Lemma num_token_padding_witness :
  replaceNum 7 ("img_" +:+ ("{num:" +:+ "003" +:+ "}") +:+ "_{num}") = "img_007_7" /\
  applyPattern (Sample.entry "cat" ".jpg" 0) Sample.config 7 = Normal "image_007" /\
  newName <$> Numbered.plan = ["image_001"; "image_002"; "image_003"].
Proof.
  destruct (num_token_padding (Sample.entry "cat" ".jpg" 0) Sample.config 7
              "image_" "003" "" Sample.batch Numbered.plan 2)
    as (H1 & _ & H3 & H4); [done|reflexivity|unfold Num.maxExact; lia|].
  split; [reflexivity|]. split.
  - destruct H3 as [H3 _]; [unfold validTime; simpl; vm_compute; discriminate|reflexivity|].
    exact (H3 eq_refl).
  - assert (generatePreview Sample.batch Sample.config = Normal Numbered.plan) as Hgen
      by (vm_compute; reflexivity).
    assert (Numbered.plan !! 2%nat = Some Numbered.third) as Hi by reflexivity.
    destruct (H4 Numbered.third Hgen Hi) as [H _];
      [unfold Num.maxExact; simpl; lia|unfold Num.maxExact; simpl; lia|reflexivity|].
    specialize (H eq_refl).
    change (newName <$> Numbered.plan)
      with ["image_001"; "image_002"; newName Numbered.third].
    rewrite H. vm_compute. reflexivity.
Defined.

(** C8, as stated, fails beyond [2^53]: the counter that starts there stays
    there, and the second entry gets the padded [2^53] of the first, not the
    padded [2^53 + 1]. *)
Lemma padded_number_repeats_at_2_53 :
  generatePreview Stuck.files Stuck.padded = Normal Stuck.paddedPlan /\
  newName <$> Stuck.paddedPlan = ["00009007199254740992"; "00009007199254740992"] /\
  Str.padStart 20 (Str.toString (startNumber Stuck.padded + Z.of_nat 1))
    = "00009007199254740993" /\
  ~ (forall files c plan (i : nat) p ds,
       ds <> "" -> Str.all isDigit ds = true ->
       generatePreview files c = Normal plan -> plan !! i = Some p ->
       pattern c = "{num:" +:+ ds +:+ "}" ->
       newName p = prefix c
                   +:+ Str.padStart (String.length ds)
                         (Str.toString (startNumber c + Z.of_nat i))
                   +:+ suffix c).
Proof.
  assert (generatePreview Stuck.files Stuck.padded = Normal Stuck.paddedPlan) as Hgen
    by (vm_compute; reflexivity).
  split_and!; [exact Hgen|reflexivity|reflexivity|].
  intros H.
  specialize (H Stuck.files Stuck.padded Stuck.paddedPlan 1%nat Stuck.paddedSecond
                "00000000000000000000").
  specialize (H ltac:(discriminate) eq_refl Hgen eq_refl eq_refl).
  vm_compute in H. discriminate H.
Qed.

(** C10. The passes of [applyPattern] follow one another on one text. When the
    pattern holds [{name}] and the name of the entry holds [{num}] or [{date}],
    the first pass puts that token into the text, between some [A0 +:+ G n1]
    and [G n2 +:+ B0], where [G] expands the dollar signs of the replacement
    string; the later passes replace the token, by the index or by the date
    string, as they replace the tokens of the pattern itself, and what the
    planner returns does not hold the token at that place. For a name without
    a dollar sign, [A0] and [B0] are the first pass of the pattern in front of
    [{name}] and behind it. *)
Theorem name_tokens_rewritten
  (f : ImageFile) (c : RenameConfig) (index : Z) (p1 p2 n1 n2 : string) :
  validTime f ->
  pattern c = p1 +:+ "{name}" +:+ p2 ->
  let G := getSubstitution "{name}" p1 p2 in
  let d := dateString (lastModified f) in
  exists A0 B0,
    (Str.all noDollar (originalName f) = true ->
     A0 = replaceToken "{name}" (originalName f) p1 /\
     B0 = replaceToken "{name}" (originalName f) p2) /\
    (originalName f = n1 +:+ "{num}" +:+ n2 ->
     replaceToken "{name}" (originalName f) (pattern c)
       = (A0 +:+ G n1) +:+ "{num}" +:+ (G n2 +:+ B0) /\
     applyPattern f c index =
       Normal (prefix c +:+ laterPasses d index (A0 +:+ G n1)
               +:+ Str.toString index
               +:+ laterPasses d index (G n2 +:+ B0) +:+ suffix c)) /\
    (originalName f = n1 +:+ "{date}" +:+ n2 ->
     replaceToken "{name}" (originalName f) (pattern c)
       = (A0 +:+ G n1) +:+ "{date}" +:+ (G n2 +:+ B0) /\
     applyPattern f c index =
       Normal (prefix c +:+ laterPasses d index (A0 +:+ G n1)
               +:+ d
               +:+ laterPasses d index (G n2 +:+ B0) +:+ suffix c)).
Proof.
  intros Hvalid Hpat G d.
  destruct (replaceName_inject (originalName f) p1 p2) as (A0 & B0 & Hinj & Hplain).
  exists A0, B0. split; [exact Hplain|].
  rewrite (applyPattern_passes f c index Hvalid), Hpat, Hinj. fold G d.
  split; intros ->.
  - assert (A0 +:+ G (n1 +:+ "{num}" +:+ n2) +:+ B0
            = (A0 +:+ G n1) +:+ "{num}" +:+ (G n2 +:+ B0)) as ->.
    { unfold G. rewrite (getSubstitution_block _ _ _ "{num}" n2 block_num eq_refl n1).
      by rewrite !str_app_assoc. }
    split; [done|].
    rewrite laterPasses_num by apply dateString_noDollar.
    by rewrite !str_app_assoc.
  - assert (A0 +:+ G (n1 +:+ "{date}" +:+ n2) +:+ B0
            = (A0 +:+ G n1) +:+ "{date}" +:+ (G n2 +:+ B0)) as ->.
    { unfold G. rewrite (getSubstitution_block _ _ _ "{date}" n2 block_date eq_refl n1).
      by rewrite !str_app_assoc. }
    split; [done|].
    unfold d. rewrite laterPasses_date by exact Hvalid.
    by rewrite !str_app_assoc.
Qed.

Lemma name_tokens_rewritten_witness :
  applyPattern Sample.tokenEntry Sample.byName 5 = Normal "x-a5b1970-01-01c-05".
Proof.
  destruct (name_tokens_rewritten Sample.tokenEntry Sample.byName 5
              "x-" "-{num:02}" "a" "b{date}c") as (A0 & B0 & HAB & Hnum & _).
  - unfold validTime; simpl; vm_compute; discriminate.
  - reflexivity.
  - destruct (HAB eq_refl) as [-> ->].
    destruct (Hnum eq_refl) as [_ Happly].
    exact Happly.
Defined.

(** ** The resizer *)

(** The image that the browser decodes from a file, in the world [w]. *)
Lemma loadFile_spec {W} (P : Platform W) (f : File) (w : W) :
  forall r w' t, loadFile P f w = (r, w', t) ->
  Forall (fun e : Event =>
            match e.1 with CReadAsDataURL _ | CLoadImage _ => True | _ => False end) t.
Proof.
  intros r w' t. unfold loadFile, bind, performOr.
  destruct (p_readAsDataURL P f w) as [[url|] w1].
  - destruct (p_loadImage P url w1) as [[img|] w2]; intros [= <- <- <-];
      repeat constructor.
  - intros [= <- <- <-]. repeat constructor.
Qed.

Lemma shouldResize_spec {W} (P : Platform W) (f : File) (targetWidth : Z) (w : W) :
  shouldResize P f targetWidth w =
    match loadFile P f w with
    | (Normal img, w', t) => (Normal (img_width img >? targetWidth), w', t)
    | (Throw e, w', t) => (Throw e, w', t)
    end.
Proof.
  unfold shouldResize, bind, ret.
  destruct (loadFile P f w) as [[[img|e] w'] t]; [|done].
  by rewrite app_nil_r.
Qed.

(** ** The executor *)



Lemma loadFile_reads {W} (P : Platform W) f w r w' t :
  loadFile P f w = (r, w', t) -> Forall (fun e => isRead e = true) t.
Proof.
  unfold loadFile, bind, performOr.
  destruct (p_readAsDataURL P f w) as [[url|] w1].
  - destruct (p_loadImage P url w1) as [[img|] w2]; intros [= <- <- <-];
      by repeat constructor.
  - intros [= <- <- <-]. by repeat constructor.
Qed.

Lemma resizeImage_reads {W} (P : Platform W) f width quality w r w' t :
  resizeImage P f width quality w = (r, w', t) -> Forall (fun e => isRead e = true) t.
Proof.
  unfold resizeImage, bind.
  destruct (loadFile P f w) as [[[img|e] w1] t1] eqn:Hload;
    pose proof (loadFile_reads _ _ _ _ _ _ Hload) as Ht1.
  - unfold performAlways, perform, throw, ret.
    destruct (p_getContext P w1) as [[|] w2]; simpl.
    + destruct (p_toBlob P _ _ _ _ _ w2) as [[[b|]|e] w3]; simpl; intros [= <- <- <-];
        rewrite Forall_app; split; try done; by repeat constructor.
    + intros [= <- <- <-]. rewrite Forall_app; split; try done; by repeat constructor.
  - by intros [= <- <- <-].
Qed.

Lemma readContent_reads {W} (P : Platform W) h config w r w' t :
  readContent P h config w = (r, w', t) -> Forall (fun e => isRead e = true) t.
Proof.
  unfold readContent, bind, perform, ret.
  destruct (enableResize config).
  - destruct (p_getFile P h w) as [[orig|e] w1]; simpl; [|intros [= <- <- <-]; by repeat constructor].
    rewrite shouldResize_spec.
    destruct (loadFile P orig w1) as [[[img|e] w2] t2] eqn:Hload;
      pose proof (loadFile_reads _ _ _ _ _ _ Hload) as Ht2;
      [|intros [= <- <- <-]; by constructor].
    destruct (img_width img >? resizeWidth config).
    + destruct (resizeImage P orig _ _ w2) as [[[blob|e] w3] t3] eqn:Hres;
        pose proof (resizeImage_reads _ _ _ _ _ _ _ _ Hres) as Ht3;
        intros [= <- <- <-]; constructor; try done;
        rewrite ?app_nil_r; by apply Forall_app.
    + intros [= <- <- <-]. constructor; [done|]. by rewrite app_nil_r.
  - destruct (p_getFile P h w) as [[f|e] w1]; simpl; intros [= <- <- <-];
      by repeat constructor.
Qed.

Lemma copyAndDelete_trace {W} (P : Platform W) dir target old config content w r w' t :
  copyAndDelete P dir target old config content w = (r, w', t) ->
  copyTrace dir target old config content r t.
Proof.
  unfold copyAndDelete, bind, perform, ret.
  destruct (p_getFileHandle P dir target w) as [[h|e] w1]; simpl;
    [|intros [= <- <- <-]; constructor].
  destruct (p_createWritable P h w1) as [[wr|e] w2]; simpl;
    [|intros [= <- <- <-]; econstructor].
  destruct (p_write P wr content w2) as [[[]|e] w3]; simpl;
    [|intros [= <- <- <-]; econstructor].
  destruct (p_close P wr w3) as [[[]|e] w4]; simpl;
    [|intros [= <- <- <-]; econstructor].
  destruct (keepOriginals config) eqn:Hkeep; simpl.
  { intros [= <- <- <-]. constructor. by left. }
  destruct (String.eqb_spec target old) as [->|Hne]; simpl.
  { intros [= <- <- <-]. constructor. by right. }
  destruct (p_removeEntry P dir old w4) as [r' w5]. intros [= <- <- <-].
  by constructor.
Qed.


Lemma copyTrace_write dir target old config content r t :
  copyTrace dir target old config content r t ->
  forall wr data ok, (CWrite wr data, ok) ∈ t -> data = content.
Proof.
  intros Ht wr data ok Hin.
  destruct Ht; repeat (apply elem_of_cons in Hin as [Hin|Hin]; simplify_eq/=);
    try done; by apply elem_of_nil in Hin.
Qed.

Lemma copyTrace_no_canvas dir target old config content r t :
  copyTrace dir target old config content r t -> Forall (fun e => isCanvas e = false) t.
Proof. intros Ht. destruct Ht; by repeat constructor. Qed.

(** The calls of [executeRename]: none; or the reads and then, if they
    succeed, one [move] or the fallback; a failure is logged at the end. *)
Lemma executeRename_trace {W} (P : Platform W) pfile dirHandle config w r w' t :
  executeRename P pfile dirHandle config w = (r, w', t) ->
  (t = [] /\
   (isNormal r = true ->
    String.eqb (fullNewNameOf pfile) (fullOldNameOf pfile)
      && negb (enableResize config) = true)) \/
  exists h d tr w1 rc,
    handle (file pfile) = Some h /\ dirHandle = Some d /\
    (String.eqb (fullNewNameOf pfile) (fullOldNameOf pfile)
       && negb (enableResize config) = false) /\
    readContent P h config w = (rc, w1, tr) /\
    match rc with
    | Throw e => r = Throw e /\ t = tr ++ [renameFailed pfile]
    | Normal content =>
        if takesMove h config then
          exists ok, ok = isNormal r /\
            t = tr ++ (CMove h (fullNewNameOf pfile), ok)
                       :: (if ok then [] else [renameFailed pfile])
        else
          exists tc,
            copyTrace d (targetFileNameOf pfile config) (fullOldNameOf pfile) config
              content r tc /\
            t = tr ++ tc ++ (if isNormal r then [] else [renameFailed pfile])
    end.
Proof.
  unfold executeRename.
  destruct (handle (file pfile)) as [h|]; [|intros [= <- <- <-]; by left].
  destruct dirHandle as [d|]; [|intros [= <- <- <-]; by left].
  destruct (String.eqb _ _ && negb _) eqn:Hsame; [intros [= <- <- <-]; by left|].
  intros Hrun. right.
  unfold tryCatch, bind in Hrun. fold (takesMove h config) in Hrun.
  destruct (readContent P h config w) as [[[content|e] w1] tr] eqn:Hread.
  - exists h, d, tr, w1, (Normal content). split_and!; try done.
    destruct (takesMove h config).
    + unfold perform in Hrun.
      destruct (p_move P h (fullNewNameOf pfile) w1) as [[[]|e] w2]; simpl in Hrun;
        injection Hrun as <- <- <-.
      * exists true. by split.
      * exists false. split; [done|]. by rewrite <-app_assoc.
    + destruct (copyAndDelete P d _ _ config content w1) as [[[[]|e] w2] tc] eqn:Hcopy;
        pose proof (copyAndDelete_trace _ _ _ _ _ _ _ _ _ _ Hcopy) as Htc;
        simpl in Hrun; injection Hrun as <- <- <-; exists tc; (split; [done|]); simpl.
      * by rewrite app_nil_r.
      * by rewrite <-app_assoc.
  - simpl in Hrun. injection Hrun as <- <- <-.
    exists h, d, tr, w1, (Throw e). by split_and!.
Qed.




Lemma readContent_original {W} (P : Platform W) h config w orig w1 img w2 tl :
  enableResize config = true ->
  p_getFile P h w = (Normal orig, w1) ->
  loadFile P orig w1 = (Normal img, w2, tl) ->
  img_width img <= resizeWidth config ->
  readContent P h config w = (Normal (OfFile orig), w2, (CGetFile h, true) :: tl).
Proof.
  intros Hres Hget Hload Hle. unfold readContent, bind, perform, ret.
  rewrite Hres, Hget. simpl. rewrite shouldResize_spec, Hload.
  assert ((img_width img >? resizeWidth config) = false) as ->.
  { rewrite Z.gtb_ltb. apply Z.ltb_ge. lia. }
  by rewrite !app_nil_r.
Qed.

(** C7. [shouldResize] resolves to [img.width > targetWidth] for the image
    loaded from the file, so to [true] exactly when the image is wider than
    the target, and rejects when the file cannot be loaded. With the resizer
    on and an image no wider than [resizeWidth], [executeRename] makes no call
    to the canvas, runs the fallback with the file read from the handle, and
    every [write] it issues passes that file: the bytes written are the bytes
    of the original. *)
Theorem resize_only_downscales {W : Type} (P : Platform W)
  (f : File) (targetWidth : Z) (w0 : W)
  (pfile : ProcessedFile) (d : FileSystemDirectoryHandle) (config : RenameConfig)
  (h : FileSystemFileHandle) (orig : File) (img : Image) (tl : list Event)
  (w w1 w2 w' : W) (r : completion unit) (t : list Event) :
  (shouldResize P f targetWidth w0 =
     match loadFile P f w0 with
     | (Normal i, w3, t3) => (Normal (img_width i >? targetWidth), w3, t3)
     | (Throw e, w3, t3) => (Throw e, w3, t3)
     end) /\
  (forall i : Image, (img_width i >? targetWidth) = true <-> targetWidth < img_width i) /\
  (handle (file pfile) = Some h ->
   enableResize config = true ->
   p_getFile P h w = (Normal orig, w1) ->
   loadFile P orig w1 = (Normal img, w2, tl) ->
   img_width img <= resizeWidth config ->
   executeRename P pfile (Some d) config w = (r, w', t) ->
   Forall (fun e => isCanvas e = false) t /\
   (forall wr data ok, (CWrite wr data, ok) ∈ t ->
      data = OfFile orig /\ contentBytes data = file_bytes orig) /\
   exists tc,
     copyTrace d (targetFileNameOf pfile config) (fullOldNameOf pfile) config
       (OfFile orig) r tc /\
     t = (CGetFile h, true) :: tl ++ tc ++ (if isNormal r then [] else [renameFailed pfile])).
Proof.
  split_and!.
  - apply shouldResize_spec.
  - intros i. rewrite Z.gtb_ltb. apply Z.ltb_lt.
  - intros Hh Hres Hget Hload Hle Hrun.
    pose proof (readContent_original P h config w orig w1 img w2 tl Hres Hget Hload Hle)
      as Hread.
    unfold executeRename in Hrun. rewrite Hh, Hres, andb_false_r in Hrun.
    unfold tryCatch, bind in Hrun. rewrite Hread in Hrun.
    rewrite andb_false_r in Hrun. simpl in Hrun.
    assert (exists tc,
      copyTrace d (targetFileNameOf pfile config) (fullOldNameOf pfile) config
        (OfFile orig) r tc /\
      t = (CGetFile h, true) :: tl ++ tc ++ (if isNormal r then [] else [renameFailed pfile]))
      as (tc & Hcopy & ->).
    { destruct (copyAndDelete P d _ _ config (OfFile orig) w2) as [[[[]|e] w3] tc] eqn:Hc;
        pose proof (copyAndDelete_trace _ _ _ _ _ _ _ _ _ _ Hc) as Htc;
        simpl in Hrun; injection Hrun as <- <- <-; exists tc; (split; [done|]); simpl.
      - by rewrite app_nil_r.
      - by rewrite <-app_assoc. }
    split_and!; [| |eauto].
    + constructor; [done|]. rewrite !Forall_app. split_and!.
      * pose proof (loadFile_spec P _ _ _ _ _ Hload) as Hl.
        eapply Forall_impl; [exact Hl|]. intros [c ok]. unfold isCanvas; simpl.
        by destruct c.
      * by eapply copyTrace_no_canvas.
      * destruct (isNormal r); by repeat constructor.
    + intros wr data ok Hin.
      assert (data = OfFile orig) as ->; [|done].
      apply elem_of_cons in Hin as [Hin|Hin]; [done|].
      rewrite !elem_of_app in Hin. destruct Hin as [Hin|[Hin|Hin]].
      * pose proof (loadFile_spec P _ _ _ _ _ Hload) as Hl.
        rewrite Forall_forall in Hl. by specialize (Hl _ Hin).
      * by eapply copyTrace_write.
      * destruct (isNormal r); [by apply elem_of_nil in Hin|].
        apply list_elem_of_singleton in Hin. done.
Qed.

Lemma resize_only_downscales_witness :
  Forall (fun e : Event =>
            match e.1 with
            | CWrite _ data => contentBytes data = [Byte.x61]
            | _ => True
            end) (snd Mem.resized).
Proof.
  assert (executeRename (Mem.platform None []) Mem.first (Some Mem.photos)
            (Mem.config true false) Mem.start
          = (fst (fst Mem.resized), snd (fst Mem.resized), snd Mem.resized)) as Hrun
    by (vm_compute; reflexivity).
  destruct (resize_only_downscales (Mem.platform None []) (Mem.photo []) 1920 Mem.start
              Mem.first Mem.photos (Mem.config true false)
              {| handle_name := "a.jpg"; handle_move := false |}
              (Mem.photo [Byte.x61]) {| img_width := 1000; img_height := 750 |}
              [(CReadAsDataURL (Mem.photo [Byte.x61]), true);
               (CLoadImage "data:image/jpeg", true)]
              Mem.start Mem.start Mem.start (snd (fst Mem.resized)) (fst (fst Mem.resized))
              (snd Mem.resized)) as (_ & _ & Hexec).
  destruct Hexec as (_ & Hwrites & _).
  - reflexivity.
  - reflexivity.
  - vm_compute. reflexivity.
  - reflexivity.
  - vm_compute. discriminate.
  - exact Hrun.
  - apply Forall_forall. intros [c ok] Hin. destruct c; try exact I.
    destruct (Hwrites w data ok Hin) as [_ Hbytes]. exact Hbytes.
Defined.

(** ** The batch *)

Section Batch.
Context {W : Type}.
Variable P : Platform W.
Variable dir : FileSystemDirectoryHandle.
Variable config : RenameConfig.

Lemma renameStep_spec i pfile st :
  renameStep P dir config i pfile st =
    if decide (status pfile <> ERROR) then
      match executeRename P pfile (Some dir) config (world st) with
      | (r, w, t) =>
          {| processedFiles :=
               alter (fun q => finished r q) i (processedFiles st);
             world := w;
             issued := issued st ++ [if isNormal r then t else t ++ [batchFailed pfile]] |}
      end
    else {| processedFiles := processedFiles st; world := world st;
            issued := issued st ++ [[]] |}.
Proof.
  unfold renameStep. destruct (decide _); [|done].
  by destruct (executeRename P pfile (Some dir) config (world st)) as [[[[]|e] w] t].
Qed.

Lemma renameStep_length i pfile st :
  length (processedFiles (renameStep P dir config i pfile st)) = length (processedFiles st) /\
  length (issued (renameStep P dir config i pfile st)) = S (length (issued st)).
Proof.
  rewrite renameStep_spec. destruct (decide _).
  - destruct (executeRename _ _ _ _ _) as [[r w] t]. simpl.
    rewrite length_alter, length_app. simpl. lia.
  - simpl. rewrite length_app. simpl. lia.
Qed.

Lemma renameStep_other i j pfile st :
  i <> j ->
  processedFiles (renameStep P dir config i pfile st) !! j = processedFiles st !! j.
Proof.
  intros Hne. rewrite renameStep_spec. destruct (decide _); [|done].
  destruct (executeRename _ _ _ _ _) as [[r w] t]. simpl.
  by apply list_lookup_alter_ne.
Qed.

Lemma renameStep_issued i pfile st :
  exists t, issued (renameStep P dir config i pfile st) = issued st ++ [t].
Proof.
  rewrite renameStep_spec. destruct (decide _); [|by eexists].
  destruct (executeRename _ _ _ _ _) as [[r w] t]. by eexists.
Qed.

(** The loop from place [i] on leaves the other places of the array as they
    are, and adds one list of calls for each entry. *)
Lemma renameLoop_other queue : forall i st j,
  (j < i \/ i + length queue <= j)%nat ->
  processedFiles (renameLoop P dir config i queue st) !! j = processedFiles st !! j.
Proof.
  induction queue as [|p queue IH]; intros i st j Hj; [done|].
  simpl in *. rewrite IH by lia. apply renameStep_other. lia.
Qed.

Lemma renameLoop_length queue : forall i st,
  length (processedFiles (renameLoop P dir config i queue st)) = length (processedFiles st).
Proof.
  induction queue as [|p queue IH]; intros i st; [done|].
  simpl. rewrite IH. apply renameStep_length.
Qed.

Lemma renameLoop_issued queue : forall i st,
  exists l, issued (renameLoop P dir config i queue st) = issued st ++ l /\
            length l = length queue.
Proof.
  induction queue as [|p queue IH]; intros i st; simpl.
  - exists []. by rewrite app_nil_r.
  - destruct (IH (S i) (renameStep P dir config i p st)) as (l & -> & Hl).
    destruct (renameStep_issued i p st) as [t ->].
    exists (t :: l). rewrite <-app_assoc. simpl. by rewrite Hl.
Qed.

Lemma renameLoop_app q1 : forall q2 i st,
  renameLoop P dir config i (q1 ++ q2) st =
    renameLoop P dir config (i + length q1) q2 (renameLoop P dir config i q1 st).
Proof.
  induction q1 as [|p q1 IH]; intros q2 i st; simpl.
  - by rewrite Nat.add_0_r.
  - rewrite IH. f_equal. lia.
Qed.

End Batch.

(** C4. In a run of [handleRename] that is not a dry run, every entry has its
    turn, whatever happened to the entries in front of it. For an entry that
    the plan holds in [ERROR] the turn issues no call, leaves the world as it
    is and leaves the entry as it is. For any other entry the turn runs
    [executeRename] in the world that the turns in front of it left; at the end
    of the batch the entry has its file and its new name, its status is
    [SUCCESS] if that run returned, with the message it had, and [ERROR] with
    the message [Write/Move failed] if that run threw; the calls of the turn
    are the calls of that run. No turn touches another entry. *)
Theorem batch_continues {W : Type} (P : Platform W)
  (dir : FileSystemDirectoryHandle) (config : RenameConfig)
  (processed : list ProcessedFile) (w : W) (k : nat) (p : ProcessedFile) :
  dryRun config = false ->
  processed !! k = Some p ->
  let st0 := {| processedFiles := processed; world := w; issued := [] |} in
  let before := renameLoop P dir config O (take k processed) st0 in
  let final := handleRename P (Some dir) config processed w in
  length (processedFiles final) = length processed /\
  length (issued final) = length processed /\
  (status p = ERROR ->
   processedFiles final !! k = Some p /\
   issued final !! k = Some [] /\
   world (renameStep P dir config k p before) = world before) /\
  (status p <> ERROR ->
   exists r w1 t,
     executeRename P p (Some dir) config (world before) = (r, w1, t) /\
     world (renameStep P dir config k p before) = w1 /\
     processedFiles final !! k
       = Some {| file := file p; newName := newName p;
                 status := if isNormal r then SUCCESS else ERROR;
                 errorMessage := if isNormal r then errorMessage p
                                 else Some "Write/Move failed" |} /\
     issued final !! k = Some (if isNormal r then t else t ++ [batchFailed p])).
Proof.
  intros Hdry Hk st0 before final.
  assert (final = renameLoop P dir config (S k) (drop (S k) processed)
                    (renameStep P dir config k p before)) as Hfinal.
  { unfold final, handleRename. rewrite Hdry. fold st0.
    rewrite <-(take_drop_middle processed k p Hk) at 1.
    rewrite renameLoop_app. simpl.
    rewrite length_take_le by (apply lookup_lt_Some in Hk; lia). done. }
  assert (processedFiles before !! k = Some p) as Hbefore.
  { unfold before. rewrite renameLoop_other; [done|].
    right. rewrite length_take. lia. }
  assert (length (issued before) = k) as Hissued.
  { unfold before. destruct (renameLoop_issued P dir config (take k processed) O st0)
      as (l & -> & Hl). simpl. rewrite Hl, length_take.
    apply lookup_lt_Some in Hk. lia. }
  assert (forall t, issued (renameStep P dir config k p before) = issued before ++ [t] ->
                    issued final !! k = Some t) as Hturn.
  { intros t Ht. rewrite Hfinal.
    destruct (renameLoop_issued P dir config (drop (S k) processed) (S k)
                (renameStep P dir config k p before)) as (l & -> & _).
    rewrite Ht, <-app_assoc. rewrite lookup_app_r by lia.
    by rewrite Hissued, Nat.sub_diag. }
  split_and!.
  - unfold final, handleRename. rewrite Hdry. apply renameLoop_length.
  - unfold final, handleRename. rewrite Hdry. fold st0.
    destruct (renameLoop_issued P dir config processed O st0) as (l & -> & Hl). done.
  - intros Herr.
    assert (renameStep P dir config k p before
            = {| processedFiles := processedFiles before; world := world before;
                 issued := issued before ++ [[]] |}) as Hstep.
    { rewrite renameStep_spec. destruct (decide _); [done|done]. }
    split_and!.
    + rewrite Hfinal, renameLoop_other by lia. by rewrite Hstep.
    + apply Hturn. by rewrite Hstep.
    + by rewrite Hstep.
  - intros Hok.
    destruct (executeRename P p (Some dir) config (world before)) as [[r w1] t] eqn:Hrun.
    exists r, w1, t.
    assert (renameStep P dir config k p before
            = {| processedFiles := alter (fun q => finished r q) k (processedFiles before);
                 world := w1;
                 issued := issued before
                           ++ [if isNormal r then t else t ++ [batchFailed p]] |}) as Hstep.
    { rewrite renameStep_spec, Hrun. by destruct (decide _). }
    split_and!; [done| | |].
    + by rewrite Hstep.
    + rewrite Hfinal, renameLoop_other by lia. rewrite Hstep. simpl.
      rewrite list_lookup_alter_eq, Hbefore. simpl. by destruct r.
    + apply Hturn. by rewrite Hstep.
Qed.

Lemma batch_continues_witness :
  let final := handleRename (Mem.platform None ["img_3.jpg"]) (Some Mem.photos)
                 (Mem.config false false) Mixed.plan Mem.start in
  processedFiles final !! 1%nat = Some Mem.second /\
  issued final !! 1%nat = Some [] /\
  processedFiles final !! 2%nat = Some Mixed.failed /\
  processedFiles final !! 3%nat = Some Mixed.renamed.
Proof.
  pose (P := Mem.platform None ["img_3.jpg"]).
  pose (c := Mem.config false false).
  destruct (batch_continues P Mem.photos c Mixed.plan Mem.start 1 Mem.second
              eq_refl eq_refl) as (_ & _ & Herr & _).
  destruct (Herr eq_refl) as (Hentry & Hcalls & _).
  destruct (batch_continues P Mem.photos c Mixed.plan Mem.start 2 Mixed.third
              eq_refl eq_refl) as (_ & _ & _ & Hthird).
  destruct (Hthird ltac:(discriminate)) as (r3 & w3 & t3 & Hrun3 & _ & Hentry3 & _).
  destruct (batch_continues P Mem.photos c Mixed.plan Mem.start 3 Mixed.fourth
              eq_refl eq_refl) as (_ & _ & _ & Hfourth).
  destruct (Hfourth ltac:(discriminate)) as (r4 & w4 & t4 & Hrun4 & _ & Hentry4 & _).
  assert (isNormal r3 = false) as Hr3.
  { vm_compute in Hrun3. by injection Hrun3 as <- _ _. }
  assert (isNormal r4 = true) as Hr4.
  { vm_compute in Hrun4. by injection Hrun4 as <- _ _. }
  rewrite Hr3 in Hentry3. rewrite Hr4 in Hentry4.
  split_and!; [exact Hentry|exact Hcalls|exact Hentry3|exact Hentry4].
Defined.

(** Section 8 of the specification: in a batch of five where the write of the
    third entry fails, the other four are renamed and the third is in [ERROR]. *)
Example batch_third_write_fails :
  let final := handleRename (Mem.platform None ["img_3.jpg"]) (Some Mem.photos)
                 (Mem.config false false) Mem.plan Mem.start in
  status <$> processedFiles final = [SUCCESS; SUCCESS; ERROR; SUCCESS; SUCCESS] /\
  errorMessage <$> processedFiles final
    = [None; None; Some "Write/Move failed"; None; None].
Proof. vm_compute. done. Qed.

Example batch_skips_planned_error :
  let final := handleRename (Mem.platform None []) (Some Mem.photos)
                 (Mem.config false false) Mem.flagged Mem.start in
  status <$> processedFiles final = [SUCCESS; ERROR; SUCCESS] /\
  issued final !! 1%nat = Some [].
Proof. vm_compute. done. Qed.

Example dry_run_issues_nothing :
  issued (handleRename (Mem.platform None []) (Some Mem.photos)
            {| pattern := ""; startNumber := 1; recursive := false; dryRun := true;
               overwrite := false; prefix := ""; suffix := ""; enableResize := false;
               resizeWidth := 1920; resizeQuality := 85; keepOriginals := false |}
            Mem.plan Mem.start) = [].
Proof. reflexivity. Qed.

(** ** The scanner *)

(** C9. Without the directory picker, [scanDirectory] throws and calls
    nothing. With it, when the picker throws an error that is not an
    [AbortError], as it does when access is denied, [scanDirectory] throws that
    error; when the picker throws an [AbortError], as it does when the user
    closes it, [scanDirectory] returns the empty list of files, with no
    directory handle. *)
Theorem scan_errors {W : Type} (P : Platform W) (w w1 : W) (e : JsError) :
  (p_hasPicker P = false -> scanDirectory P w = (Throw unsupported, w, [])) /\
  (p_hasPicker P = true ->
   p_showDirectoryPicker P w = (Throw e, w1) ->
   (err_name e <> "AbortError" ->
    scanDirectory P w = (Throw e, w1, [(CShowDirectoryPicker, false)])) /\
   (err_name e = "AbortError" ->
    scanDirectory P w = (Normal ([], None), w1, [(CShowDirectoryPicker, false)]))).
Proof.
  split.
  - intros Hno. unfold scanDirectory. by rewrite Hno.
  - intros Hhas Hpick. unfold scanDirectory. rewrite Hhas. simpl.
    unfold tryCatch, bind, perform. rewrite Hpick. simpl.
    split; intros Hname.
    + destruct (String.eqb_spec (err_name e) "AbortError") as [Heq|_]; [done|done].
    + by rewrite Hname.
Qed.

Lemma scan_errors_witness :
  scanDirectory (Mem.platform (Some Mem.Dismissed) []) Mem.start
  = (Normal ([], None), Mem.start, [(CShowDirectoryPicker, false)]).
Proof.
  destruct (scan_errors (Mem.platform (Some Mem.Dismissed) []) Mem.start Mem.start
              Mem.aborted) as [_ Hpick].
  destruct (Hpick eq_refl eq_refl) as [_ Habort].
  exact (Habort eq_refl).
Defined.

Example scan_denied :
  scanDirectory (Mem.platform (Some Mem.Denied) []) Mem.start
  = (Throw Mem.notAllowed, Mem.start, [(CShowDirectoryPicker, false)]).
Proof. reflexivity. Qed.

Example scan_unsupported :
  scanDirectory (Mem.platform None []) Mem.start = (Throw unsupported, Mem.start, []).
Proof. reflexivity. Qed.

(** [scanDirectory] never throws an [AbortError]: wherever in the [try] block
    one is thrown, the scan ends with the empty result. *)
Lemma scan_abort_anywhere {W : Type} (P : Platform W) (w : W) r w' t :
  p_hasPicker P = true ->
  scanDirectory P w = (r, w', t) ->
  forall e, r = Throw e -> err_name e <> "AbortError".
Proof.
  intros Hhas. unfold scanDirectory, tryCatch. rewrite Hhas. simpl.
  destruct (bind _ _ w) as [[[res|e0] w2] t2].
  - intros [= <- _ _] e. done.
  - destruct (String.eqb_spec (err_name e0) "AbortError") as [Heq|Hne]; simpl.
    + intros [= <- _ _] e. done.
    + intros [= <- _ _] e [= <-]. done.
Qed.

(** * More of the planner *)

(** ** The keys of a plan *)

(** X1. With [overwrite] off, an entry that the plan leaves in [PENDING] has a
    key that no entry in front of it has: the keys of the entries that the
    batch will carry out are pairwise different. *)
Theorem pending_keys_distinct
  (files : list ImageFile) (config : RenameConfig) (plan : list ProcessedFile)
  (i j : nat) (p q : ProcessedFile) :
  generatePreview files config = Normal plan ->
  overwrite config = false ->
  plan !! i = Some p -> plan !! j = Some q -> (i < j)%nat ->
  status q = PENDING ->
  targetKey p <> targetKey q.
Proof.
  intros Hgen Hover Hi Hj Hlt Hq Heq.
  destruct (generatePreview_spec _ _ _ Hgen) as [_ Hplan].
  destruct (Hplan _ _ Hj) as (n & _ & Hp).
  assert (targetKey q ∈ (list_to_set (targetKey <$> take j plan) : gset string)) as Hin.
  { apply earlier_key. by exists i, p. }
  assert (targetKey q = Str.toLowerCase (n +:+ extension (file q))) as Hk
    by (rewrite Hp at 1; reflexivity).
  assert (status q = if bool_decide (Str.toLowerCase (n +:+ extension (file q))
                        ∈ (list_to_set (targetKey <$> take j plan) : gset string))
                        && negb (overwrite config) then ERROR else PENDING) as Hst
    by (rewrite Hp at 1; reflexivity).
  rewrite <-Hk, Hover, (bool_decide_eq_true_2 _ Hin) in Hst. simpl in Hst. congruence.
Qed.

Lemma pending_keys_distinct_witness :
  targetKey {| file := Sample.entry "Cat" ".jpg" 0; newName := "Cat_1970-01-01";
               status := PENDING; errorMessage := None |}
  <> targetKey Sample.planned2.
Proof.
  apply (pending_keys_distinct Sample.batch Sample.byNameAndDate Sample.batchPlan 0 2
           _ _ eq_refl eq_refl eq_refl eq_refl); [lia|reflexivity].
Defined.

(** ** Patterns without tokens *)

Lemma replaceToken_literal tok template s :
  block tok -> Str.all (fun c => negb (isOpen c)) s = true ->
  replaceToken tok template s = s.
Proof.
  intros Htok Hs. unfold replaceToken, replaceAll.
  rewrite <-(str_app_nil_r s) at 1.
  rewrite (go_plain (matchToken tok) _ (matchToken_split tok)
             (fun s m r cap => matchToken_block tok s m r cap Htok) s "" "" Hs).
  simpl. by rewrite str_app_nil_r.
Qed.

Lemma replaceNum_literal index s :
  Str.all (fun c => negb (isOpen c)) s = true -> replaceNum index s = s.
Proof.
  apply (replaceAll_plain matchNum (fun _ cap => numReplacer index cap)
           matchNum_split matchNum_block).
Qed.

(** X2. A pattern without an opening brace is taken as it is: the new name of
    every entry with a valid date is the prefix, the pattern and the suffix,
    whatever the name of the entry and its number. *)
Theorem literal_pattern (f : ImageFile) (c : RenameConfig) (index : Z) :
  validTime f ->
  Str.all (fun ch => negb (isOpen ch)) (pattern c) = true ->
  applyPattern f c index = Normal (prefix c +:+ pattern c +:+ suffix c).
Proof.
  intros Hv Hp. rewrite applyPattern_passes by done. unfold laterPasses.
  rewrite (replaceToken_literal "{name}") by (done || apply block_name).
  rewrite (replaceToken_literal "{date}") by (done || apply block_date).
  by rewrite replaceNum_literal.
Qed.

Lemma literal_pattern_witness :
  applyPattern (Sample.entry "a$&b" ".jpg" 0) (Sample.withPattern "img" false) 7
  = Normal ("" +:+ "img" +:+ "").
Proof.
  apply (literal_pattern (Sample.entry "a$&b" ".jpg" 0) (Sample.withPattern "img" false) 7).
  - unfold validTime. simpl. vm_compute. discriminate.
  - reflexivity.
Defined.

(** ** What a pass leaves behind *)

Lemma includes_nil tok : tok <> "" -> includes tok "" = false.
Proof. by destruct tok. Qed.

Lemma includes_cases tok c s :
  includes tok (String c s) = true ->
  is_Some (Str.stripPrefix tok (String c s)) \/ includes tok s = true.
Proof.
  simpl includes. destruct (Str.stripPrefix tok (String c s)) as [r|]; [by left; eexists|].
  by right.
Qed.

Lemma includes_cons tok c s : includes tok s = true -> includes tok (String c s) = true.
Proof.
  intros Hs. simpl includes. by destruct (Str.stripPrefix tok (String c s)).
Qed.

Lemma includes_app tok x y : includes tok y = true -> includes tok (x +:+ y) = true.
Proof.
  intros Hy. induction x as [|c x IH]; [done|].
  rewrite str_app_cons. by apply includes_cons.
Qed.

Lemma includes_starts tok s : is_Some (Str.stripPrefix tok s) -> includes tok s = true.
Proof. intros [r Hr]. destruct s; simpl; by rewrite Hr. Qed.

Lemma hasChar_cons a c s : hasChar a (String c s) = Ascii.eqb a c || hasChar a s.
Proof.
  unfold hasChar. simpl. destruct (Ascii.eqb a c); simpl; [done|].
  by destruct (Str.all _ s).
Qed.

(** A text that starts with a code unit that does not occur in [tok] does not
    start with [tok], unless [tok] is empty. *)
Lemma stripPrefix_foreign a tok x s :
  hasChar x (String a tok) = false -> Str.stripPrefix (String a tok) (String x s) = None.
Proof.
  rewrite hasChar_cons. intros [Hx _]%orb_false_iff.
  simpl. rewrite Ascii.eqb_sym in Hx. by rewrite Hx.
Qed.

Lemma includes_skip tok a o :
  tok <> "" -> foreignTo tok a = true ->
  includes tok (a +:+ o) = true -> includes tok o = true.
Proof.
  intros Hne. induction a as [|x a IH]; [done|].
  unfold foreignTo. rewrite str_all_cons. intros [Hx Ha]%andb_true_iff.
  apply negb_true_iff in Hx.
  rewrite str_app_cons. intros [[r Hr]|Hin]%includes_cases; [|by apply IH].
  destruct tok as [|t0 tok]; [done|].
  by rewrite stripPrefix_foreign in Hr.
Qed.

Section Survive.
Context {Cap : Type}.
Variable matchAt : string -> option (string * string * Cap).
Variable rep : string -> Cap -> string.

Hypothesis match_split :
  forall s m r cap, matchAt s = Some (m, r, cap) -> s = m +:+ r.
Hypothesis match_block :
  forall s m r cap, matchAt s = Some (m, r, cap) -> block m.

Abbreviation scan := (replaceGo matchAt (fun _ m _ cap => rep m cap)).

(** When no replacement starts with a code unit of [u], the result of the
    scan starts with [u] only if the subject does, and then the first code unit
    was copied. *)
Lemma starts_transfer u :
  (forall m cap, exists x r, rep m cap = String x r /\ hasChar x u = false) ->
  forall s b, is_Some (Str.stripPrefix u (scan b O s)) ->
    is_Some (Str.stripPrefix u s) /\ (u <> "" -> matchAt s = None).
Proof.
  induction u as [|a u IH]; intros Hrep s b Hs.
  { split; [by eexists|done]. }
  destruct s as [|c s]; [by destruct Hs|].
  destruct (matchAt (String c s)) as [[[m r] cap]|] eqn:Hm.
  - exfalso. rewrite (gof_match matchAt rep match_split match_block b _ _ _ _ Hm) in Hs.
    destruct (Hrep m cap) as (x & r' & Hr & Hx).
    rewrite Hr, str_app_cons, stripPrefix_foreign in Hs by done. by destruct Hs.
  - rewrite (go_nomatch matchAt _ b _ _ Hm) in Hs. simpl in Hs |- *.
    destruct (Ascii.eqb a c); [|by destruct Hs].
    split; [|done]. eapply IH; [|exact Hs].
    intros m cap. destruct (Hrep m cap) as (x & r' & Hr & Hx).
    exists x, r'. split; [done|].
    rewrite hasChar_cons in Hx. by apply orb_false_iff in Hx as [_ Hx].
Qed.

(** When every replacement is nonempty and made of code units that do not
    occur in [tok], an occurrence of [tok] in the result of the scan is an
    occurrence in the subject, at a place where the pattern does not match. *)
Lemma includes_transfer tok :
  tok <> "" ->
  (forall m cap, rep m cap <> "" /\ foreignTo tok (rep m cap) = true) ->
  forall s b, includes tok (scan b O s) = true ->
    exists x y, s = x +:+ y /\ is_Some (Str.stripPrefix tok y) /\ matchAt y = None.
Proof.
  intros Hne Hrep s.
  assert (forall m cap, exists x r, rep m cap = String x r /\ hasChar x tok = false) as Hrep'.
  { intros m cap. destruct (Hrep m cap) as [Hnil Hfor].
    destruct (rep m cap) as [|x r]; [done|]. exists x, r. split; [done|].
    unfold foreignTo in Hfor. rewrite str_all_cons in Hfor.
    apply andb_true_iff in Hfor as [Hx _]. by apply negb_true_iff in Hx. }
  remember (String.length s) as n eqn:Hn. revert s Hn.
  induction n as [n IH] using lt_wf_ind. intros s Hn b Hinc.
  destruct s as [|c s]; [by rewrite gof_nil, includes_nil in Hinc|].
  destruct (matchAt (String c s)) as [[[m r] cap]|] eqn:Hm.
  - rewrite (gof_match matchAt rep match_split match_block b _ _ _ _ Hm) in Hinc.
    apply includes_skip in Hinc; [|done|apply Hrep].
    destruct (match_length matchAt match_split match_block _ _ _ _ Hm) as [Hlen Hpos].
    destruct (IH (String.length r)) with (s := r) (b := b) as (x & y & -> & Hy & Hmy);
      [lia|done|done|].
    exists (m +:+ x), y. split_and!; [|done|done].
    by rewrite (match_split _ _ _ _ Hm), str_app_assoc.
  - pose proof Hinc as Hinc'. rewrite (go_nomatch matchAt _ b _ _ Hm) in Hinc'.
    apply includes_cases in Hinc' as [Hst|Hin].
    + rewrite <-(go_nomatch matchAt _ b _ _ Hm) in Hst.
      destruct (starts_transfer tok Hrep' _ _ Hst) as [Hs _].
      exists "", (String c s). by split_and!.
    + destruct (IH (String.length s)) with (s := s) (b := b +:+ String c "")
        as (x & y & -> & Hy & Hmy); [simpl in Hn; lia|done|done|].
      exists (String c x), y. by split_and!.
Qed.

End Survive.

(** A global replace of a token leaves no occurrence of the token, when the
    replacement is not empty and has none of its code units. *)
Lemma replaceToken_gone tok d s :
  block tok -> Str.all noDollar d = true -> d <> "" -> foreignTo tok d = true ->
  includes tok (replaceToken tok d s) = false.
Proof.
  intros Htok Hplain Hne Hfor. rewrite replaceToken_plain by done.
  destruct (includes tok _) eqn:Hinc; [|done]. exfalso.
  assert (tok <> "") as Hnil.
  { destruct (block_nonempty _ Htok) as (c & t' & -> & _). done. }
  unfold replaceAll in Hinc.
  apply (includes_transfer (matchToken tok) (fun _ _ => d) (matchToken_split tok)
           (fun s m r cap => matchToken_block tok s m r cap Htok) tok Hnil) in Hinc;
    [|done].
  destruct Hinc as (x & y & _ & [r Hr] & Hm).
  unfold matchToken in Hm. by rewrite Hr in Hm.
Qed.

Lemma str_toString_nonempty n : Str.toString n <> "".
Proof.
  unfold Str.toString, NilZero.string_of_int.
  assert (forall d, NilZero.string_of_uint d <> "") as Hu by (by intros []).
  destruct (Z.to_int n); [apply Hu|done].
Qed.

Lemma numReplacer_nonempty index cap : numReplacer index cap <> "".
Proof.
  assert (forall k, Str.padStart k (Str.toString index) <> "") as Hpad.
  { intros k. unfold Str.padStart.
    pose proof (str_toString_nonempty index) as Hn.
    destruct (Str.repeat _ _), (Str.toString index); done. }
  unfold numReplacer. destruct cap as [[|d ds]|]; try apply str_toString_nonempty.
  apply Hpad.
Qed.

Lemma numReplacer_chars index cap :
  Str.all (fun c => isDigit c || Ascii.eqb c "-") (numReplacer index cap) = true.
Proof.
  unfold numReplacer. destruct cap as [[|d ds]|]; try apply toString_chars.
  unfold Str.padStart. rewrite str_all_app, str_all_repeat by done. apply toString_chars.
Qed.

(** The third pass brings in digits and a minus sign only: a text without
    them that occurs in its result occurred in its subject. *)
Lemma replaceNum_keeps tok index s :
  tok <> "" ->
  Str.all (fun c => negb (isDigit c || Ascii.eqb c "-")) tok = true ->
  includes tok (replaceNum index s) = true -> includes tok s = true.
Proof.
  intros Hne Htok Hinc. unfold replaceNum, replaceAll in Hinc.
  apply (includes_transfer matchNum (fun _ cap => numReplacer index cap)
           matchNum_split matchNum_block tok Hne) in Hinc.
  - destruct Hinc as (x & y & -> & Hy & _). by apply includes_app, includes_starts.
  - intros _ cap. split; [apply numReplacer_nonempty|].
    eapply str_all_impl; [|apply numReplacer_chars].
    intros a Ha. apply negb_true_iff. unfold hasChar. apply negb_false_iff.
    eapply str_all_impl; [|exact Htok].
    intros b Hb. simpl in Hb. apply negb_true_iff.
    destruct (Ascii.eqb_spec a b) as [->|_]; [|done]. by rewrite Ha in Hb.
Qed.

Lemma dateString_foreign value : foreignTo "{date}" (dateString value) = true.
Proof.
  eapply str_all_impl; [|apply dateString_chars].
  intros c. unfold isoChar, isDigit, hasChar. simpl.
  destruct (Ascii.eqb_spec c "{") as [->|_]; [done|].
  destruct (Ascii.eqb_spec c "d") as [->|_]; [done|].
  destruct (Ascii.eqb_spec c "a") as [->|_]; [done|].
  destruct (Ascii.eqb_spec c "t") as [->|_]; [done|].
  destruct (Ascii.eqb_spec c "e") as [->|_]; [done|].
  destruct (Ascii.eqb_spec c "}") as [->|_]; done.
Qed.

(** X3. No [{date}] token is left in a name: in what [applyPattern] puts
    between the prefix and the suffix the text [{date}] does not occur,
    whatever the pattern and the name of the entry. *)
Theorem date_token_expanded (f : ImageFile) (c : RenameConfig) (index : Z) (n : string) :
  applyPattern f c index = Normal n ->
  exists body, n = prefix c +:+ body +:+ suffix c /\ includes "{date}" body = false.
Proof.
  intros Hn. pose proof (applyPattern_Normal_valid _ _ _ _ Hn) as Hv.
  rewrite applyPattern_passes in Hn by done. injection Hn as <-.
  eexists. split; [reflexivity|]. unfold laterPasses.
  destruct (includes "{date}" (replaceNum index _)) eqn:Hinc; [|done].
  apply replaceNum_keeps in Hinc; [|done|done].
  rewrite replaceToken_gone in Hinc; [done|apply block_date|apply dateString_noDollar
                                     | |apply dateString_foreign].
  destruct (dateString_hyphen _ Hv) as (d1 & d2 & ->). by destruct d1.
Qed.

Lemma date_token_expanded_witness :
  exists body,
    "{da1te}_1970-01-01" = "" +:+ body +:+ "" /\ includes "{date}" body = false.
Proof.
  apply (date_token_expanded (Sample.entry "{da{num}te}" ".jpg" 0)
           (Sample.withPattern "{name}_{date}" false) 1).
  vm_compute. reflexivity.
Defined.

(** The other two tokens can be left: a [{num}] token that the third pass
    makes, and a [{name}] token that the name of the entry brings in. *)
Example num_token_left :
  applyPattern (Sample.entry "a" ".jpg" 0) (Sample.withPattern "{num:{num}}" false) 5
  = Normal "{num:5}".
Proof. vm_compute. reflexivity. Qed.

Example name_token_left :
  applyPattern (Sample.entry "{name}" ".jpg" 0) (Sample.withPattern "{name}" false) 5
  = Normal "{name}".
Proof. vm_compute. reflexivity. Qed.

(** ** Numbered names *)

Lemma str_toLowerCase_app s t :
  Str.toLowerCase (s +:+ t) = Str.toLowerCase s +:+ Str.toLowerCase t.
Proof.
  induction s as [|c s IH]; [done|].
  rewrite str_app_cons. simpl. by rewrite IH, str_app_cons.
Qed.

Lemma str_length_toLowerCase s : String.length (Str.toLowerCase s) = String.length s.
Proof. induction s as [|c s IH]; simpl; by rewrite ?IH. Qed.

Lemma str_app_inj (a b x y : string) :
  String.length a = String.length b -> a +:+ x = b +:+ y -> a = b /\ x = y.
Proof.
  revert b. induction a as [|c a IH]; intros [|d b]; simpl; try done.
  rewrite !str_app_cons. intros [= Hlen] [= -> Heq].
  by destruct (IH _ Hlen Heq) as [-> ->].
Qed.

Lemma str_app_inv_head (s a b : string) : s +:+ a = s +:+ b -> a = b.
Proof. intros H. by destruct (str_app_inj s s a b eq_refl H). Qed.

Lemma str_app_inv_tail (s a b : string) : a +:+ s = b +:+ s -> a = b.
Proof.
  intros H. apply (str_app_inj a b s s); [|done].
  apply (f_equal String.length) in H. rewrite !str_length_app in H. lia.
Qed.

Lemma lowerChar_digit c : isDigit c || Ascii.eqb c "-" = true -> Str.lowerChar c = c.
Proof.
  intros [Hc|Hc]%orb_true_iff.
  - unfold isDigit in Hc. apply andb_true_iff in Hc as [H1 H2].
    apply N.leb_le in H1, H2. unfold Str.lowerChar.
    destruct (N.leb_spec 65 (N_of_ascii c)); [lia|]. simpl.
    destruct (N.leb_spec 192 (N_of_ascii c)); [lia|]. done.
  - apply Ascii.eqb_eq in Hc. by subst c.
Qed.

Lemma str_toLowerCase_digits s :
  Str.all (fun c => isDigit c || Ascii.eqb c "-") s = true -> Str.toLowerCase s = s.
Proof.
  induction s as [|c s IH]; [done|].
  rewrite str_all_cons. intros [Hc Hs]%andb_true_iff.
  simpl. by rewrite lowerChar_digit, IH.
Qed.

(** Different numbers have different decimal strings. *)
Lemma str_toString_inj a b : Str.toString a = Str.toString b -> a = b.
Proof.
  assert (forall n, NilZero.int_of_string (Str.toString n) = Some (Z.to_int n)) as Hback.
  { intros n. unfold Str.toString. apply NilZero.isi.
    - destruct n as [|p|p]; simpl; try done.
      intros [= H]. by apply DecimalPos.Unsigned.to_uint_nonnil in H.
    - destruct n as [|p|p]; simpl; try done.
      intros [= H]. by apply DecimalPos.Unsigned.to_uint_nonnil in H. }
  intros Heq. apply DecimalZ.to_int_inj.
  pose proof (Hback a) as Ha. rewrite Heq, Hback in Ha. by injection Ha.
Qed.

Lemma replaceName_num name pre post :
  Str.all (fun c => negb (isOpen c)) pre = true ->
  Str.all (fun c => negb (isOpen c)) post = true ->
  replaceToken "{name}" name (pre +:+ "{num}" +:+ post) = pre +:+ "{num}" +:+ post.
Proof.
  intros Hpre Hpost. unfold replaceToken, replaceAll.
  pose (repl := fun before m after (_ : unit) => getSubstitution m before after name).
  fold repl.
  assert (forall s m r cap, matchToken "{name}" s = Some (m, r, cap) -> block m) as Hblock.
  { intros s m r cap. apply matchToken_block, block_name. }
  assert (forall b s, Str.all (fun c => negb (isOpen c)) s = true ->
            replaceGo (matchToken "{name}") repl b O s = s) as Hcopy.
  { intros b s Hs. rewrite <-(str_app_nil_r s) at 1.
    rewrite (go_plain (matchToken "{name}") repl (matchToken_split "{name}") Hblock
               s b "" Hs).
    simpl. by rewrite str_app_nil_r. }
  rewrite (go_plain (matchToken "{name}") repl (matchToken_split "{name}") Hblock
             pre "" _ Hpre).
  f_equal. change ("{num}" +:+ post) with (String "{" ("num}" +:+ post)).
  rewrite (go_nomatch (matchToken "{name}") repl) by reflexivity.
  f_equal. apply Hcopy. by rewrite str_all_app, Hpost.
Qed.

(** The name for a pattern that is a [{num}] token between two texts without
    an opening brace. *)
Lemma applyPattern_numbered f c index pre post :
  validTime f ->
  pattern c = pre +:+ "{num}" +:+ post ->
  Str.all (fun ch => negb (isOpen ch)) pre = true ->
  Str.all (fun ch => negb (isOpen ch)) post = true ->
  applyPattern f c index
  = Normal (prefix c +:+ (pre +:+ Str.toString index +:+ post) +:+ suffix c).
Proof.
  intros Hv Hpat Hpre Hpost.
  rewrite applyPattern_passes, Hpat, replaceName_num by done.
  rewrite laterPasses_num by apply dateString_noDollar.
  unfold laterPasses.
  rewrite !(replaceToken_literal "{date}") by (done || apply block_date).
  by rewrite !replaceNum_literal.
Qed.

(** C2. As long as the counter, which starts at [-2^53] or above, has not
    passed [2^53], the number that [applyPattern] renders for the entry at
    position [i] is [startNumber + i], whatever the status of this or of any
    other entry: the new name of that entry is the pattern rewritten with that
    number. Where the pattern has a [{num}] token, the new name holds the
    decimal string of [startNumber + i] at its place: between what the passes
    make of the text in front of the token and behind it, for a name without a
    dollar sign; and between these two texts as they are, when they have no
    opening brace. *)
Theorem planner_counter
  (files : list ImageFile) (config : RenameConfig)
  (plan : list ProcessedFile) (i : nat) (p : ProcessedFile) :
  generatePreview files config = Normal plan ->
  plan !! i = Some p ->
  - Num.maxExact <= startNumber config ->
  startNumber config + Z.of_nat i <= Num.maxExact ->
  files !! i = Some (file p) /\
  applyPattern (file p) config (startNumber config + Z.of_nat i) = Normal (newName p) /\
  (exists dateStr,
     newName p =
       prefix config
       +:+ replaceAll matchNum
             (fun _ _ _ paddingStr => numReplacer (startNumber config + Z.of_nat i) paddingStr)
             (replaceToken "{date}" dateStr
                (replaceToken "{name}" (originalName (file p)) (pattern config)))
       +:+ suffix config) /\
  (forall pre post : string,
     pattern config = pre +:+ "{num}" +:+ post ->
     Str.all noDollar (originalName (file p)) = true ->
     newName p =
       prefix config +:+ passes (file p) (startNumber config + Z.of_nat i) pre
       +:+ Str.toString (startNumber config + Z.of_nat i)
       +:+ passes (file p) (startNumber config + Z.of_nat i) post +:+ suffix config) /\
  (forall pre post : string,
     pattern config = pre +:+ "{num}" +:+ post ->
     Str.all (fun ch => negb (isOpen ch)) pre = true ->
     Str.all (fun ch => negb (isOpen ch)) post = true ->
     newName p =
       prefix config +:+ (pre +:+ Str.toString (startNumber config + Z.of_nat i) +:+ post)
       +:+ suffix config).
Proof.
  intros Hgen Hi Hlo Hhi.
  destruct (generatePreview_spec _ _ _ Hgen) as [Hfiles Hplan].
  destruct (Hplan _ _ Hi) as (n & Hn & Hp).
  rewrite (count_exact _ _ Hlo Hhi) in Hn.
  assert (newName p = n) as Hname by (rewrite Hp at 1; reflexivity).
  pose proof (applyPattern_Normal_valid _ _ _ _ Hn) as Hvalid.
  split_and!.
  - rewrite <-Hfiles, list_lookup_fmap, Hi. reflexivity.
  - by rewrite Hname.
  - rewrite Hname. revert Hn. unfold applyPattern.
    destruct (Date.toISOString _) as [iso|e]; [|done].
    intros [= <-]. by exists (splitHead "T" iso).
  - intros pre post Hpat Hdollar. rewrite Hname.
    rewrite (applyPattern_passes _ _ _ Hvalid), Hpat in Hn. unfold passes in *.
    rewrite (replaceToken_block "{name}" _ block_name Hdollar _ _ _ block_num) in Hn.
    rewrite (replaceToken_other "{name}" _ block_name Hdollar _ block_num) in Hn by done.
    rewrite laterPasses_num in Hn by apply dateString_noDollar.
    injection Hn as <-. by rewrite !str_app_assoc.
  - intros pre post Hpat Hpre Hpost. rewrite Hname.
    rewrite (applyPattern_numbered _ _ _ pre post Hvalid Hpat Hpre Hpost) in Hn.
    by injection Hn as <-.
Qed.

Lemma planner_counter_witness :
  status <$> Counted.plan = [PENDING; PENDING; ERROR; PENDING] /\
  newName <$> Counted.plan = ["a-1"; "b0"; "a-1"; "c2"].
Proof.
  assert (generatePreview Counted.files Counted.config = Normal Counted.plan) as Hgen
    by (vm_compute; reflexivity).
  assert (Counted.plan !! 3%nat = Some Counted.last) as Hi by reflexivity.
  destruct (planner_counter Counted.files Counted.config Counted.plan 3 Counted.last
              Hgen Hi ltac:(done) ltac:(done)) as (_ & _ & _ & Hnum & _).
  split; [reflexivity|].
  change (newName <$> Counted.plan) with ["a-1"; "b0"; "a-1"; newName Counted.last].
  rewrite (Hnum "{name}" "" eq_refl eq_refl). vm_compute. reflexivity.
Defined.

(** C2, as stated, fails beyond [2^53]: a counter that starts there stays
    there, since [2^53 + 1] is no double. The second of two files gets the
    number of the first, and with it the name of the first. *)
Lemma counter_stops_at_2_53 :
  startNumber Stuck.config = 2 ^ 53 /\
  generatePreview Stuck.files Stuck.config = Normal Stuck.plan /\
  newName <$> Stuck.plan = ["p9007199254740992"; "p9007199254740992"] /\
  applyPattern (file Stuck.second) Stuck.config (startNumber Stuck.config + Z.of_nat 1)
    = Normal "p9007199254740993" /\
  ~ (forall files config plan (i : nat) p,
       generatePreview files config = Normal plan -> plan !! i = Some p ->
       applyPattern (file p) config (startNumber config + Z.of_nat i)
       = Normal (newName p)).
Proof.
  assert (generatePreview Stuck.files Stuck.config = Normal Stuck.plan) as Hgen
    by (vm_compute; reflexivity).
  split_and!; [reflexivity|exact Hgen|reflexivity|vm_compute; reflexivity|].
  intros H.
  specialize (H Stuck.files Stuck.config Stuck.plan 1%nat Stuck.second Hgen eq_refl).
  vm_compute in H. discriminate H.
Qed.

(** A plan whose names are a number, written by [num], between the same
    texts, and whose counter does not pass [2^53]: the keys of entries with the
    same extension differ. *)
Lemma numbered_plan (files : list ImageFile) (config : RenameConfig)
  (plan : list ProcessedFile) (num : Z -> string) (pre post : string)
  (j : nat) (q : ProcessedFile) :
  generatePreview files config = Normal plan ->
  - Num.maxExact <= startNumber config ->
  startNumber config + Z.of_nat (length files) <= Num.maxExact ->
  (forall f index, validTime f ->
     applyPattern f config index
     = Normal (prefix config +:+ (pre +:+ num index +:+ post) +:+ suffix config)) ->
  (forall a, Str.all (fun c => isDigit c || Ascii.eqb c "-") (num a) = true) ->
  (forall a b : nat,
     num (startNumber config + Z.of_nat a) = num (startNumber config + Z.of_nat b) -> a = b) ->
  plan !! j = Some q ->
  (forall (i : nat) (p : ProcessedFile),
     plan !! i = Some p -> i <> j -> extension (file p) = extension (file q) ->
     targetKey p <> targetKey q) /\
  ((forall (i : nat) (p : ProcessedFile),
      (i < j)%nat -> plan !! i = Some p -> extension (file p) = extension (file q)) ->
   status q = PENDING).
Proof.
  intros Hgen Hlo Hhi Hname Hchars Hinj Hj.
  destruct (generatePreview_spec _ _ _ Hgen) as [Hfiles Hplan].
  assert (forall (k : nat) (r : ProcessedFile), plan !! k = Some r ->
            targetKey r = Str.toLowerCase
              ((prefix config +:+ (pre +:+ num (startNumber config + Z.of_nat k)
                                   +:+ post) +:+ suffix config) +:+ extension (file r)))
    as Hkey.
  { intros k r Hk. destruct (Hplan _ _ Hk) as (n & Hn & Hr).
    pose proof (lookup_lt_Some _ _ _ Hk) as Hlt.
    rewrite <-Hfiles, length_fmap in Hhi.
    rewrite count_exact in Hn by lia.
    pose proof (applyPattern_Normal_valid _ _ _ _ Hn) as Hv.
    rewrite (Hname _ _ Hv) in Hn. injection Hn as <-. rewrite Hr at 1. reflexivity. }
  assert (forall (i : nat) (p : ProcessedFile),
     plan !! i = Some p -> i <> j -> extension (file p) = extension (file q) ->
     targetKey p <> targetKey q) as Hdistinct.
  { intros i p Hi Hne Hext Heq. apply Hne.
    rewrite (Hkey _ _ Hi), (Hkey _ _ Hj), Hext in Heq.
    rewrite !str_toLowerCase_app in Heq.
    apply str_app_inv_tail, str_app_inv_head, str_app_inv_tail in Heq.
    apply str_app_inv_head, str_app_inv_tail in Heq.
    rewrite !str_toLowerCase_digits in Heq by apply Hchars.
    by apply Hinj. }
  split; [exact Hdistinct|].
  intros Hsame. destruct (Hplan _ _ Hj) as (n & _ & Hq).
  assert (targetKey q = Str.toLowerCase (n +:+ extension (file q))) as Hk
    by (rewrite Hq at 1; reflexivity).
  assert (status q = if bool_decide (Str.toLowerCase (n +:+ extension (file q))
                        ∈ (list_to_set (targetKey <$> take j plan) : gset string))
                        && negb (overwrite config) then ERROR else PENDING) as Hst
    by (rewrite Hq at 1; reflexivity).
  rewrite Hst, <-Hk, bool_decide_eq_false_2; [done|].
  intros (i & p & Hlt & Hi & Heq)%earlier_key.
  apply (Hdistinct i p Hi); [lia|by eapply Hsame|done].
Qed.

(** X4. Numbering keeps names apart as long as the counter counts: when the
    pattern is one [{num}] token between two texts without an opening brace,
    the start number is [-2^53] or above and the counter does not pass [2^53],
    two entries of a plan that have the same extension have different keys; so
    an entry is [PENDING] when the entries in front of it have its extension.
    (From [2^53] on the counter stays where it is and the names repeat.) *)
Theorem numbered_keys_distinct
  (files : list ImageFile) (config : RenameConfig) (plan : list ProcessedFile)
  (pre post : string) (j : nat) (q : ProcessedFile) :
  generatePreview files config = Normal plan ->
  - Num.maxExact <= startNumber config ->
  startNumber config + Z.of_nat (length files) <= Num.maxExact ->
  pattern config = pre +:+ "{num}" +:+ post ->
  Str.all (fun ch => negb (isOpen ch)) pre = true ->
  Str.all (fun ch => negb (isOpen ch)) post = true ->
  plan !! j = Some q ->
  (forall (i : nat) (p : ProcessedFile),
     plan !! i = Some p -> i <> j -> extension (file p) = extension (file q) ->
     targetKey p <> targetKey q) /\
  ((forall (i : nat) (p : ProcessedFile),
      (i < j)%nat -> plan !! i = Some p -> extension (file p) = extension (file q)) ->
   status q = PENDING).
Proof.
  intros Hgen Hlo Hhi Hpat Hpre Hpost Hj.
  apply (numbered_plan files config plan Str.toString pre post j q Hgen); try done.
  - intros f index Hv. by apply applyPattern_numbered.
  - apply toString_chars.
  - intros a b Heq. apply str_toString_inj in Heq. lia.
Qed.

Lemma numbered_keys_distinct_witness :
  targetKey Mem.first
  <> targetKey {| file := Mem.item "e"; newName := "img_5"; status := PENDING;
                  errorMessage := None |}.
Proof.
  assert (generatePreview (Mem.item <$> ["a"; "b"; "c"; "d"; "e"]) (Mem.config false false)
          = Normal Mem.plan) as Hgen by (vm_compute; reflexivity).
  destruct (numbered_keys_distinct _ _ _ "img_" "" 4
              {| file := Mem.item "e"; newName := "img_5"; status := PENDING;
                 errorMessage := None |} Hgen ltac:(done) ltac:(done)
              eq_refl eq_refl eq_refl eq_refl)
    as [Hdistinct _].
  apply (Hdistinct 0%nat Mem.first); [reflexivity|lia|reflexivity].
Defined.

(** ** Padded numbers *)

(** The number that a text of digits stands for, leading zeros or not. *)
Lemma uint_of_string_zero s :
  option_map Pos.of_uint (NilEmpty.uint_of_string (String "0" s))
  = option_map Pos.of_uint (NilEmpty.uint_of_string s).
Proof. simpl. by destruct (NilEmpty.uint_of_string s). Qed.

Lemma uint_of_string_zeros n s :
  option_map Pos.of_uint (NilEmpty.uint_of_string (Str.repeat "0" n +:+ s))
  = option_map Pos.of_uint (NilEmpty.uint_of_string s).
Proof.
  induction n as [|n IH]; [done|].
  simpl Str.repeat. by rewrite str_app_cons, uint_of_string_zero.
Qed.

Lemma uint_of_string_toString a :
  0 <= a ->
  option_map Pos.of_uint (NilEmpty.uint_of_string (Str.toString a)) = Some (Z.to_N a).
Proof.
  intros Ha. unfold Str.toString.
  pose proof (DecimalZ.of_to a) as Hback.
  destruct (Z.to_int a) as [u|u] eqn:Hu.
  - simpl in Hback |- *. unfold Z.of_uint in Hback.
    assert (option_map Pos.of_uint (NilEmpty.uint_of_string (NilZero.string_of_uint u))
            = Some (Pos.of_uint u)) as ->.
    { destruct u; try (unfold NilZero.string_of_uint; by rewrite NilEmpty.usu). done. }
    by rewrite <-Hback, N2Z.id.
  - exfalso. destruct a as [|p|p]; simpl in Hu; try discriminate Hu. lia.
Qed.

(** Different numbers from zero on have different padded strings. *)
Lemma str_padStart_inj k a b :
  0 <= a -> 0 <= b ->
  Str.padStart k (Str.toString a) = Str.padStart k (Str.toString b) -> a = b.
Proof.
  intros Ha Hb Heq.
  apply (f_equal (fun s => option_map Pos.of_uint (NilEmpty.uint_of_string s))) in Heq.
  unfold Str.padStart in Heq.
  rewrite !uint_of_string_zeros, !uint_of_string_toString in Heq by done.
  injection Heq as Heq. lia.
Qed.

Lemma replaceName_padded name pre ds post :
  Str.all (fun c => negb (isOpen c)) pre = true ->
  Str.all isDigit ds = true ->
  Str.all (fun c => negb (isOpen c)) post = true ->
  replaceToken "{name}" name (pre +:+ ("{num:" +:+ ds +:+ "}") +:+ post)
  = pre +:+ ("{num:" +:+ ds +:+ "}") +:+ post.
Proof.
  intros Hpre Hds Hpost. unfold replaceToken, replaceAll.
  pose (repl := fun before m after (_ : unit) => getSubstitution m before after name).
  fold repl.
  assert (forall s m r cap, matchToken "{name}" s = Some (m, r, cap) -> block m) as Hblock.
  { intros s m r cap. apply matchToken_block, block_name. }
  assert (forall b s, Str.all (fun c => negb (isOpen c)) s = true ->
            replaceGo (matchToken "{name}") repl b O s = s) as Hcopy.
  { intros b s Hs. rewrite <-(str_app_nil_r s) at 1.
    rewrite (go_plain (matchToken "{name}") repl (matchToken_split "{name}") Hblock
               s b "" Hs).
    simpl. by rewrite str_app_nil_r. }
  rewrite (go_plain (matchToken "{name}") repl (matchToken_split "{name}") Hblock
             pre "" _ Hpre).
  f_equal.
  change (("{num:" +:+ ds +:+ "}") +:+ post)
    with (String "{" (("num:" +:+ ds +:+ "}") +:+ post)).
  rewrite (go_nomatch (matchToken "{name}") repl) by reflexivity.
  f_equal. apply Hcopy.
  rewrite !str_all_app, Hpost. rewrite andb_true_r. simpl. rewrite andb_true_r.
  eapply str_all_impl; [|exact Hds].
  intros c Hc. apply isDigit_noBrace in Hc. unfold noBrace in Hc.
  by apply andb_true_iff in Hc as [Hc _].
Qed.

Lemma applyPattern_padded f c index pre ds post :
  validTime f ->
  pattern c = pre +:+ ("{num:" +:+ ds +:+ "}") +:+ post ->
  ds <> "" -> Str.all isDigit ds = true ->
  Str.all (fun ch => negb (isOpen ch)) pre = true ->
  Str.all (fun ch => negb (isOpen ch)) post = true ->
  applyPattern f c index
  = Normal (prefix c +:+ (pre +:+ Str.padStart (String.length ds) (Str.toString index)
                          +:+ post) +:+ suffix c).
Proof.
  intros Hv Hpat Hne Hds Hpre Hpost.
  rewrite applyPattern_passes, Hpat, replaceName_padded by done.
  rewrite laterPasses_padded by (done || apply dateString_noDollar).
  unfold laterPasses.
  rewrite !(replaceToken_literal "{date}") by (done || apply block_date).
  by rewrite !replaceNum_literal.
Qed.

(** X5. The same with a padded number, as in the pattern [image_{num:003}]
    that the application starts with: when the pattern is one [{num:ds}] token
    between two texts without an opening brace, the start number is not
    negative and the counter does not pass [2^53], two entries of a plan that
    have the same extension have different keys, and an entry is [PENDING] when
    the entries in front of it have its extension. *)
Theorem padded_keys_distinct
  (files : list ImageFile) (config : RenameConfig) (plan : list ProcessedFile)
  (pre ds post : string) (j : nat) (q : ProcessedFile) :
  generatePreview files config = Normal plan ->
  pattern config = pre +:+ ("{num:" +:+ ds +:+ "}") +:+ post ->
  ds <> "" -> Str.all isDigit ds = true ->
  Str.all (fun ch => negb (isOpen ch)) pre = true ->
  Str.all (fun ch => negb (isOpen ch)) post = true ->
  0 <= startNumber config ->
  startNumber config + Z.of_nat (length files) <= Num.maxExact ->
  plan !! j = Some q ->
  (forall (i : nat) (p : ProcessedFile),
     plan !! i = Some p -> i <> j -> extension (file p) = extension (file q) ->
     targetKey p <> targetKey q) /\
  ((forall (i : nat) (p : ProcessedFile),
      (i < j)%nat -> plan !! i = Some p -> extension (file p) = extension (file q)) ->
   status q = PENDING).
Proof.
  intros Hgen Hpat Hne Hds Hpre Hpost Hstart Hhi Hj.
  apply (numbered_plan files config plan
           (fun n => Str.padStart (String.length ds) (Str.toString n)) pre post j q Hgen);
    try done.
  - unfold Num.maxExact. lia.
  - intros f index Hv. by apply applyPattern_padded.
  - intros a. unfold Str.padStart. rewrite str_all_app, str_all_repeat by done.
    apply toString_chars.
  - intros a b Heq. apply str_padStart_inj in Heq; lia.
Qed.

Lemma padded_keys_distinct_witness :
  targetKey {| file := Sample.entry "Cat" ".jpg" 0; newName := "image_001";
               status := PENDING; errorMessage := None |}
  <> targetKey {| file := Sample.entry "dog" ".jpg" 0; newName := "image_003";
                  status := PENDING; errorMessage := None |}.
Proof.
  assert (exists plan, generatePreview Sample.batch Sample.config = Normal plan /\
            plan !! 0%nat = Some {| file := Sample.entry "Cat" ".jpg" 0;
                                    newName := "image_001"; status := PENDING;
                                    errorMessage := None |} /\
            plan !! 2%nat = Some {| file := Sample.entry "dog" ".jpg" 0;
                                    newName := "image_003"; status := PENDING;
                                    errorMessage := None |})
    as (plan & Hgen & Hi & Hj).
  { eexists. split; [vm_compute; reflexivity|]. split; reflexivity. }
  destruct (padded_keys_distinct Sample.batch Sample.config plan "image_" "003" "" 2
              _ Hgen eq_refl ltac:(discriminate) eq_refl eq_refl eq_refl ltac:(done)
              ltac:(done) Hj)
    as [Hdistinct _].
  apply (Hdistinct 0%nat _ Hi); [lia|reflexivity].
Defined.

(** X6. One entry with a time of last change that no [Date] can hold makes
    the whole plan fail: [generatePreview] throws exactly when there is such an
    entry, what it throws is the [RangeError] of [toISOString], and no part of
    the plan is returned. *)
Theorem planner_all_or_nothing (files : list ImageFile) (config : RenameConfig) :
  (Exists (fun f => Date.maxTime < Z.abs (lastModified f)) files ->
   generatePreview files config = Throw Date.rangeError) /\
  (forall e, generatePreview files config = Throw e ->
     e = Date.rangeError /\
     Exists (fun f => Date.maxTime < Z.abs (lastModified f)) files) /\
  (forall plan, generatePreview files config = Normal plan ->
     Forall validTime files /\ length plan = length files).
Proof.
  assert (forall st e, previewLoop config st files = Throw e ->
            e = Date.rangeError /\
            Exists (fun f => Date.maxTime < Z.abs (lastModified f)) files) as Hthrow.
  { induction files as [|f files' IH]; intros st e; simpl; [done|].
    destruct (previewStep config st f) as [st1|e1] eqn:Hstep.
    - intros [-> Hex]%IH. split; [done|]. by apply Exists_cons_tl.
    - intros [= ->]. apply previewStep_Throw in Hstep.
      unfold applyPattern in Hstep.
      destruct (Z.le_gt_cases (Z.abs (lastModified f)) Date.maxTime) as [Hle|Hgt].
      + destruct (toISOString_valid _ Hle) as [iso Hiso]. by rewrite Hiso in Hstep.
      + rewrite toISOString_invalid in Hstep by lia. injection Hstep as <-.
        split; [done|]. apply Exists_cons_hd. lia. }
  assert (forall plan, generatePreview files config = Normal plan ->
            Forall validTime files /\ length plan = length files) as Hplan.
  { intros plan Hgen. destruct (generatePreview_spec _ _ _ Hgen) as [Hfiles Hentries].
    split; [|by rewrite <-Hfiles, length_fmap].
    apply Forall_lookup. intros i f Hi.
    rewrite <-Hfiles, list_lookup_fmap in Hi.
    destruct (plan !! i) as [p|] eqn:Hp; [|done]. injection Hi as <-.
    destruct (Hentries _ _ Hp) as (n & Hn & _). by eapply applyPattern_Normal_valid. }
  split_and!; [|intros e He|exact Hplan].
  - intros Hex. destruct (generatePreview files config) as [plan|e] eqn:Hgen.
    + exfalso. destruct (Hplan _ eq_refl) as [Hvalid _].
      apply Exists_exists in Hex as (f & Hin & Hf).
      rewrite Forall_forall in Hvalid. specialize (Hvalid _ Hin).
      unfold validTime in Hvalid. lia.
    + unfold generatePreview in Hgen.
      destruct (previewLoop config _ files) as [st|e'] eqn:Hloop; [done|].
      injection Hgen as <-. by destruct (Hthrow _ _ Hloop) as [-> _].
  - unfold generatePreview in He.
    destruct (previewLoop config _ files) as [st|e'] eqn:Hloop; [done|].
    injection He as <-. by eapply Hthrow.
Qed.

Lemma planner_all_or_nothing_witness :
  generatePreview (Sample.batch ++ [Sample.lateEntry]) Sample.config = Throw Date.rangeError.
Proof.
  apply (proj1 (planner_all_or_nothing (Sample.batch ++ [Sample.lateEntry]) Sample.config)).
  apply Exists_app. right. apply Exists_cons_hd. vm_compute. reflexivity.
Defined.

(** * More of the scanner *)

(** ** The order of the result *)

Lemma insertByName_perm {W} (P : Platform W) f l : insertByName P f l ≡ₚ f :: l.
Proof.
  induction l as [|g l IH]; simpl; [done|].
  destruct (_ <=? 0); [done|]. rewrite IH. apply Permutation_swap.
Qed.

Lemma sortByName_same {W} (P : Platform W) (files : list ImageFile) :
  sortByName P files ≡ₚ files.
Proof.
  induction files as [|f files IH]; simpl; [done|].
  change (foldr (insertByName P) [] files) with (sortByName P files).
  by rewrite insertByName_perm, IH.
Qed.

(** X7. Sorting loses nothing and adds nothing: the sorted list of files is a
    permutation of the list that the loop over the directory built, whatever
    [localeCompare] answers; it has the same length and the same members. *)
Theorem sortByName_perm {W : Type} (P : Platform W) (files : list ImageFile) :
  sortByName P files ≡ₚ files /\
  length (sortByName P files) = length files /\
  (forall f, f ∈ sortByName P files <-> f ∈ files).
Proof.
  pose proof (sortByName_same P files) as Hperm. split_and!; [done| |].
  - by rewrite Hperm.
  - intros f. by rewrite Hperm.
Qed.

Section Sorting.
Context {W : Type}.
Variable P : Platform W.

(** The comparison is a consistent one: [a] is greater than [b] exactly when
    [b] is less than [a], and "not greater than" is transitive. *)
Hypothesis compare_flip :
  forall a b, 0 < p_localeCompare P a b <-> p_localeCompare P b a < 0.
Hypothesis compare_trans :
  forall a b c, p_localeCompare P a b <= 0 -> p_localeCompare P b c <= 0 ->
                p_localeCompare P a c <= 0.

Abbreviation notAfter :=
  (fun f g : ImageFile => p_localeCompare P (originalName f) (originalName g) <= 0).

Lemma insertByName_sorted f l :
  StronglySorted notAfter l -> StronglySorted notAfter (insertByName P f l).
Proof.
  induction 1 as [|g l Hl IH Hg]; simpl.
  - by repeat constructor.
  - destruct (Z.leb_spec (p_localeCompare P (originalName f) (originalName g)) 0)
      as [Hle|Hgt].
    + constructor; [by constructor|]. constructor; [done|].
      eapply Forall_impl; [exact Hg|]. intros h Hh. simpl in *. by eapply compare_trans.
    + constructor; [done|].
      assert (notAfter g f) as Hgf by (apply compare_flip in Hgt; simpl; lia).
      rewrite insertByName_perm. by constructor.
Qed.

Lemma sortByName_sorted_all files : StronglySorted notAfter (sortByName P files).
Proof.
  induction files as [|f files IH]; simpl; [constructor|].
  by apply insertByName_sorted.
Qed.

(** The sort is stable: the entries that compare equal to a name stay in the
    order in which they were found. *)
Lemma insertByName_stable a f l :
  filter (fun g => p_localeCompare P (originalName g) a = 0) (insertByName P f l)
  = filter (fun g => p_localeCompare P (originalName g) a = 0) (f :: l).
Proof.
  induction l as [|g l IH]; simpl; [done|].
  destruct (Z.leb_spec (p_localeCompare P (originalName f) (originalName g)) 0)
    as [Hle|Hgt]; [done|].
  rewrite (filter_cons _ g), IH, !filter_cons.
  destruct (decide (p_localeCompare P (originalName g) a = 0)) as [Hg|Hg];
    destruct (decide (p_localeCompare P (originalName f) a = 0)) as [Hf|Hf];
    try done.
  exfalso.
  assert (p_localeCompare P a (originalName g) <= 0) as Hag.
  { destruct (Z.lt_ge_cases 0 (p_localeCompare P a (originalName g))) as [H|H]; [|lia].
    apply compare_flip in H. lia. }
  assert (p_localeCompare P (originalName f) (originalName g) <= 0); [|lia].
  apply (compare_trans _ a); [lia|done].
Qed.

End Sorting.

(** X8. With a consistent [localeCompare], the files come out of the scan's
    sort in ascending order of their names, and files whose names compare equal
    keep the order in which the directory gave them. *)
Theorem sortByName_sorted {W : Type} (P : Platform W) (files : list ImageFile) (a : string) :
  (forall a b, 0 < p_localeCompare P a b <-> p_localeCompare P b a < 0) ->
  (forall a b c, p_localeCompare P a b <= 0 -> p_localeCompare P b c <= 0 ->
                 p_localeCompare P a c <= 0) ->
  StronglySorted
    (fun f g => p_localeCompare P (originalName f) (originalName g) <= 0)
    (sortByName P files) /\
  filter (fun g => p_localeCompare P (originalName g) a = 0) (sortByName P files)
  = filter (fun g => p_localeCompare P (originalName g) a = 0) files.
Proof.
  intros Hflip Htrans. split; [by apply sortByName_sorted_all|].
  induction files as [|f files IH]; [done|].
  simpl sortByName.
  change (foldr (insertByName P) [] files) with (sortByName P files).
  rewrite (insertByName_stable P Hflip Htrans), !filter_cons, IH. done.
Qed.

Lemma mem_compare_flip picker failing a b :
  0 < p_localeCompare (Mem.platform picker failing) a b
  <-> p_localeCompare (Mem.platform picker failing) b a < 0.
Proof.
  simpl. rewrite (String.compare_antisym a b).
  destruct (String.compare b a); simpl; lia.
Qed.

Lemma mem_compare_trans picker failing a b c :
  p_localeCompare (Mem.platform picker failing) a b <= 0 ->
  p_localeCompare (Mem.platform picker failing) b c <= 0 ->
  p_localeCompare (Mem.platform picker failing) a c <= 0.
Proof.
  assert (forall x y, p_localeCompare (Mem.platform picker failing) x y <= 0
                      <-> String.le x y) as Hle.
  { intros x y. simpl. unfold String.le, String.leb.
    destruct (String.compare x y); simpl; split; (done || lia). }
  rewrite !Hle. apply transitivity.
Qed.

Lemma sortByName_sorted_witness :
  StronglySorted
    (fun f g => p_localeCompare (Mem.platform None []) (originalName f) (originalName g) <= 0)
    (sortByName (Mem.platform None []) (Mem.item <$> ["b"; "c"; "a"; "b"])).
Proof.
  apply (proj1 (sortByName_sorted (Mem.platform None []) (Mem.item <$> ["b"; "c"; "a"; "b"])
                  "a" (mem_compare_flip None []) (mem_compare_trans None []))).
Defined.

(** ** The entries that are taken *)

Lemma str_take_drop i : forall s, takeStr i s +:+ dropStr i s = s.
Proof.
  induction i as [|i IH]; intros [|a s]; simpl; try done.
  by rewrite str_app_cons, IH.
Qed.

Lemma lastIndexOf_None c s :
  lastIndexOf c s = None -> Str.all (fun a => negb (Ascii.eqb a c)) s = true.
Proof.
  induction s as [|a s IH]; simpl; [done|].
  destruct (lastIndexOf c s); [done|].
  destruct (Ascii.eqb a c); [done|]. intros _. by rewrite IH.
Qed.

(** At the last index of [c] there is a [c], and none behind it. *)
Lemma lastIndexOf_Some c s : forall i,
  lastIndexOf c s = Some i ->
  exists rest, dropStr i s = String c rest /\
               Str.all (fun a => negb (Ascii.eqb a c)) rest = true.
Proof.
  induction s as [|a s IH]; intros i; simpl; [done|].
  destruct (lastIndexOf c s) as [j|] eqn:Hs.
  - intros [= <-]. simpl. by apply IH.
  - destruct (Ascii.eqb_spec a c) as [->|_]; [|done].
    intros [= <-]. exists s. split; [done|]. by apply lastIndexOf_None.
Qed.

(** One turn of the loop over the directory: an entry that is not the handle
    of an image file is passed over without a call; for an image file the file
    is read from its handle, and the record that is pushed is made of the
    handle and of the file. *)
Lemma scanEntry_spec {W} (P : Platform W) entry w r w' t :
  scanEntry P entry w = (r, w', t) ->
  match imageHandle (Normal entry) with
  | None => r = Normal None /\ w' = w /\ t = []
  | Some h =>
      entry = FileEntry h /\
      match p_getFile P h w with
      | (Throw e, w1) => r = Throw e /\ w' = w1 /\ t = [(CGetFile h, false)]
      | (Normal data, w1) =>
          exists i f,
            lastIndexOf "." (handle_name h) = Some i /\
            r = Normal (Some f) /\
            t = [(CGetFile h, true); (CRandom, true); (CCreateObjectURL data, true)] /\
            originalName f = takeStr i (handle_name h) /\
            extension f = Str.toLowerCase (dropStr i (handle_name h)) /\
            path f = handle_name h /\ handle f = Some h /\
            fileObject f = data /\ size f = file_size data /\
            lastModified f = file_lastModified data /\ is_Some (previewUrl f)
      end
  end.
Proof.
  destruct entry as [h|name]; simpl; [|by intros [= <- <- <-]].
  unfold isImageName.
  destruct (lastIndexOf "." (handle_name h)) as [i|] eqn:Hdot; [|by intros [= <- <- <-]].
  destruct (bool_decide _) eqn:Hext; [|by intros [= <- <- <-]].
  intros Hrun. split; [done|]. revert Hrun. unfold bind, perform, performAlways, ret.
  destruct (p_getFile P h w) as [[data|e] w1]; simpl; [|by intros [= <- <- <-]].
  destruct (p_random P w1) as [newId w2]. simpl.
  destruct (p_createObjectURL P data w2) as [url w3]. simpl.
  intros [= <- <- <-]. eexists i, _. by split_and!.
Qed.

(** X9. The record of a scanned file splits the file name at its last dot:
    the name is [originalName] followed by a suffix that starts with the only
    dot it has, and [extension] is that suffix in lower case, an allowed
    extension. So [originalName + extension] is the name of the file on disk
    only when the suffix is in lower case already. *)
Theorem scanEntry_pushed {W : Type} (P : Platform W)
  (entry : DirEntry) (w w' : W) (f : ImageFile) (t : list Event) :
  scanEntry P entry w = (Normal (Some f), w', t) ->
  exists h rest,
    entry = FileEntry h /\ handle f = Some h /\ path f = handle_name h /\
    handle_name h = originalName f +:+ String "." rest /\
    Str.all (fun a => negb (Ascii.eqb a ".")) rest = true /\
    extension f = Str.toLowerCase (String "." rest) /\
    extension f ∈ allowedExtensions /\
    (originalName f +:+ extension f = handle_name h
     <-> Str.toLowerCase rest = rest).
Proof.
  intros Hrun. pose proof (scanEntry_spec P _ _ _ _ _ Hrun) as Hspec.
  destruct (imageHandle (Normal entry)) as [h|] eqn:Himg; [|by destruct Hspec as [[=] _]].
  destruct Hspec as [-> Hspec].
  destruct (p_getFile P h w) as [[data|e] w1]; [|by destruct Hspec as [[=] _]].
  destruct Hspec as (i & f' & Hdot & [= <-] & _ & Hname & Hext & Hpath & Hh & _).
  destruct (lastIndexOf_Some _ _ _ Hdot) as (rest & Hdrop & Hrest).
  assert (handle_name h = originalName f +:+ String "." rest) as Hsplit.
  { by rewrite Hname, <-Hdrop, str_take_drop. }
  exists h, rest. split_and!; try done.
  - by rewrite Hext, Hdrop.
  - simpl in Himg. unfold isImageName in Himg. rewrite Hdot in Himg.
    destruct (bool_decide _) eqn:Hin; [|done].
    apply bool_decide_eq_true in Hin. by rewrite Hext.
  - rewrite Hsplit, Hext, Hdrop. simpl. split.
    + intros Heq. apply str_app_inv_head in Heq. by injection Heq.
    + by intros ->.
Qed.

Lemma scanEntry_pushed_witness :
  exists h rest,
    FileEntry Album.upper = FileEntry h /\
    handle_name h = "IMG" +:+ String "." rest /\
    Str.toLowerCase (String "." rest) = ".jpg" /\
    ("IMG" +:+ ".jpg" = handle_name h <-> Str.toLowerCase rest = rest).
Proof.
  destruct (scanEntry_pushed (Mem.platform (Some Mem.Picks) []) (FileEntry Album.upper)
              Album.start Album.start
              {| id := "k3j9x0q1z"; originalName := "IMG"; extension := ".jpg";
                 path := "IMG.JPG"; size := 1; lastModified := 0;
                 previewUrl := Some "blob:"; fileObject := Mem.photo [Byte.x61];
                 handle := Some Album.upper |}
              [(CGetFile Album.upper, true); (CRandom, true);
               (CCreateObjectURL (Mem.photo [Byte.x61]), true)])
    as (h & rest & He & _ & _ & Hname & _ & Hext & _ & Hiff).
  - vm_compute. reflexivity.
  - exists h, rest. by split_and!.
Defined.

(** ** The loop over the directory *)

Lemma isImageName_extension name i :
  isImageName name = true -> lastIndexOf "." name = Some i ->
  Str.toLowerCase (dropStr i name) ∈ allowedExtensions.
Proof.
  unfold isImageName. intros Himg Hdot. rewrite Hdot in Himg.
  by apply bool_decide_eq_true in Himg.
Qed.

Lemma imageHandle_Some step h :
  imageHandle step = Some h ->
  step = Normal (FileEntry h) /\ isImageName (handle_name h) = true.
Proof.
  destruct step as [[h'|name]|e]; simpl; try done.
  destruct (isImageName (handle_name h')) eqn:Himg; [|done]. by intros [= <-].
Qed.

Lemma scanLoop_spec {W} (P : Platform W) entries : forall acc w r w' t,
  scanLoop P entries acc w = (r, w', t) ->
  Forall scanCall t /\
  match r with
  | Normal files =>
      exists new, files = acc ++ new /\
        handle <$> new = Some <$> omap imageHandle entries /\
        Forall scanRecord new
  | Throw _ => True
  end.
Proof.
  induction entries as [|[entry|e] entries IH]; intros acc w r w' t; simpl.
  - intros [= <- <- <-]. split; [done|]. exists []. by rewrite app_nil_r.
  - unfold bind.
    destruct (scanEntry P entry w) as [[[pushed|e] w1] t1] eqn:Hentry.
    + destruct (scanLoop P entries _ w1) as [[r2 w2] t2] eqn:Hloop.
      intros [= <- <- <-].
      apply scanEntry_spec in Hentry. apply IH in Hloop as [Ht2 Hr2].
      destruct (imageHandle (Normal entry)) as [h|] eqn:Himg.
      * destruct Hentry as [-> Hentry].
        apply imageHandle_Some in Himg as [_ Himg].
        destruct (p_getFile P h w) as [[data|e] w0]; [|by destruct Hentry as [[=] _]].
        destruct Hentry
          as (i & f & Hdot & [= ->] & -> & _ & Hext & Hpath & Hh & Hobj & Hsize & _).
        split.
        { apply Forall_app. split; [|done]. by repeat constructor. }
        destruct r2 as [files|e]; [|done].
        destruct Hr2 as (new & -> & Hhandles & Hnew).
        exists (f :: new). split_and!.
        -- by rewrite <-app_assoc.
        -- rewrite fmap_cons, Hh, Hhandles. simpl. by rewrite Himg.
        -- constructor; [|done]. split_and!; [|by exists h|congruence].
           rewrite Hext. by apply isImageName_extension.
      * destruct Hentry as ([= ->] & -> & ->). split; [done|].
        destruct r2 as [files|e]; [|done]. simpl in Himg. rewrite Himg. exact Hr2.
    + intros [= <- <- <-]. apply scanEntry_spec in Hentry.
      destruct (imageHandle (Normal entry)) as [h|] eqn:Himg;
        [|by destruct Hentry as [[=] _]].
      destruct Hentry as [-> Hentry]. apply imageHandle_Some in Himg as [_ Himg].
      destruct (p_getFile P h w) as [[data|e'] w0].
      * by destruct Hentry as (i & f & _ & [=] & _).
      * destruct Hentry as (_ & _ & ->). split; [|done]. by repeat constructor.
  - intros [= <- <- <-]. done.
Qed.

(** How a scan runs, once the browser has the picker. *)
Lemma scanDirectory_run {W} (P : Platform W) w r w' t :
  p_hasPicker P = true ->
  scanDirectory P w = (r, w', t) ->
  match p_showDirectoryPicker P w with
  | (Throw e, w1) =>
      w' = w1 /\ t = [(CShowDirectoryPicker, false)] /\
      r = (if String.eqb (err_name e) "AbortError" then Normal ([], None) else Throw e)
  | (Normal d, w1) =>
      match p_values P d w1 with
      | (entries, w2) =>
          match scanLoop P entries [] w2 with
          | (Normal files, w3, tl) =>
              w' = w3 /\ t = (CShowDirectoryPicker, true) :: (CValues d, true) :: tl /\
              r = Normal (sortByName P files, Some d)
          | (Throw e, w3, tl) =>
              w' = w3 /\ t = (CShowDirectoryPicker, true) :: (CValues d, true) :: tl /\
              r = (if String.eqb (err_name e) "AbortError" then Normal ([], None)
                   else Throw e)
          end
      end
  end.
Proof.
  intros Hhas. unfold scanDirectory. rewrite Hhas. simpl.
  unfold tryCatch, bind, perform, performAlways, ret, throw.
  destruct (p_showDirectoryPicker P w) as [[d|e] w1]; simpl.
  - destruct (p_values P d w1) as [entries w2]. simpl.
    destruct (scanLoop P entries [] w2) as [[[files|e] w3] tl]; simpl.
    + rewrite app_nil_r. by intros [= <- <- <-].
    + destruct (String.eqb _ _); simpl; rewrite ?app_nil_r; by intros [= <- <- <-].
  - destruct (String.eqb _ _); simpl; by intros [= <- <- <-].
Qed.

(** X10. A scan reads and nothing else: the calls of [scanDirectory] are the
    picker, the listing of the directory and, for each image file, [getFile],
    [Math.random] and [createObjectURL]. Every [getFile] is for a handle whose
    name passes the test of the scanner: a directory, a file without a dot and
    a file with another extension are not opened, and nothing is written,
    moved or removed. *)
Theorem scan_opens_images_only {W : Type} (P : Platform W) (w w' : W)
  (r : completion (list ImageFile * option FileSystemDirectoryHandle)) (t : list Event) :
  scanDirectory P w = (r, w', t) ->
  Forall scanningCall t /\
  (forall h ok, (CGetFile h, ok) ∈ t -> isImageName (handle_name h) = true).
Proof.
  intros Hrun.
  assert (Forall scanningCall t) as Hcalls.
  { destruct (p_hasPicker P) eqn:Hhas.
    - pose proof (scanDirectory_run P _ _ _ _ Hhas Hrun) as Hshape.
      destruct (p_showDirectoryPicker P w) as [[d|e] w1].
      + destruct (p_values P d w1) as [entries w2].
        destruct (scanLoop P entries [] w2) as [[r2 w3] tl] eqn:Hloop.
        destruct (scanLoop_spec P _ _ _ _ _ _ Hloop) as [Hloopcalls _].
        assert (t = (CShowDirectoryPicker, true) :: (CValues d, true) :: tl) as ->
          by (destruct r2; by destruct Hshape as (_ & -> & _)).
        repeat (constructor; [done|]).
        eapply Forall_impl; [exact Hloopcalls|].
        intros [c ok]. unfold scanningCall, scanCall. simpl. by destruct c.
      + destruct Hshape as (_ & -> & _). by repeat constructor.
    - unfold scanDirectory in Hrun. rewrite Hhas in Hrun. injection Hrun as _ _ <-.
      constructor. }
  split; [done|].
  intros h ok Hin. rewrite Forall_forall in Hcalls. exact (Hcalls _ Hin).
Qed.

Lemma scan_opens_images_only_witness : Forall scanningCall (snd Album.scan).
Proof.
  apply (scan_opens_images_only (Mem.platform (Some Mem.Picks) []) Album.start
           (snd (fst Album.scan)) (fst (fst Album.scan)) (snd Album.scan)).
  vm_compute. reflexivity.
Defined.

(** X11. What a scan returns, when the browser has the picker. With a
    directory handle, the handle is the one that the picker gave, and the files
    are, in some order, the image files of the directory, one record for each
    handle that passes the test, with an allowed extension and the name of the
    handle as its path. Without a directory handle the list of files is empty.
    What [scanDirectory] throws is never an [AbortError]. *)
Theorem scan_result {W : Type} (P : Platform W) (w w' : W)
  (r : completion (list ImageFile * option FileSystemDirectoryHandle)) (t : list Event) :
  p_hasPicker P = true ->
  scanDirectory P w = (r, w', t) ->
  match r with
  | Normal (files, Some d) =>
      exists w1 entries w2,
        p_showDirectoryPicker P w = (Normal d, w1) /\
        p_values P d w1 = (entries, w2) /\
        handle <$> files ≡ₚ Some <$> omap imageHandle entries /\
        Forall (fun f => extension f ∈ allowedExtensions /\
                         exists h, handle f = Some h /\ path f = handle_name h) files
  | Normal (files, None) => files = []
  | Throw e => err_name e <> "AbortError"
  end.
Proof.
  intros Hhas Hrun. pose proof (scanDirectory_run P _ _ _ _ Hhas Hrun) as Hshape.
  destruct (p_showDirectoryPicker P w) as [[d|e] w1] eqn:Hpick.
  - destruct (p_values P d w1) as [entries w2] eqn:Hvalues.
    destruct (scanLoop P entries [] w2) as [[[files|e] w3] tl] eqn:Hloop.
    + destruct Hshape as (_ & _ & ->).
      destruct (scanLoop_spec P _ _ _ _ _ _ Hloop) as [_ (new & Hfiles & Hhandles & Hnew)].
      rewrite app_nil_l in Hfiles. subst files.
      exists w1, entries, w2. split_and!; try done.
      * by rewrite sortByName_same, Hhandles.
      * rewrite sortByName_same. eapply Forall_impl; [exact Hnew|].
        by intros f (? & ? & _).
    + destruct Hshape as (_ & _ & ->).
      destruct (String.eqb_spec (err_name e) "AbortError"); done.
  - destruct Hshape as (_ & _ & ->).
    destruct (String.eqb_spec (err_name e) "AbortError"); done.
Qed.

Lemma scan_result_witness :
  handle <$> Album.files ≡ₚ
    Some <$> [ {| handle_name := "IMG.JPG"; handle_move := false |};
               {| handle_name := "a.v2.webp"; handle_move := false |};
               {| handle_name := "b.png"; handle_move := false |} ].
Proof.
  assert (scanDirectory (Mem.platform (Some Mem.Picks) []) Album.start
          = (Normal (Album.files, Some Mem.photos), snd (fst Album.scan), snd Album.scan))
    as Hrun by (vm_compute; reflexivity).
  destruct (scan_result (Mem.platform (Some Mem.Picks) []) _ _ _ _ eq_refl Hrun)
    as (w1 & entries & w2 & Hpick & Hvalues & Hperm & _).
  rewrite Hperm. vm_compute in Hpick. injection Hpick as <-.
  vm_compute in Hvalues. injection Hvalues as <- _.
  vm_compute. apply Permutation_refl'. reflexivity.
Defined.

(** * More of the executor *)

(** ** No call behind a call that threw *)

Ltac returned := unfold allReturned; repeat constructor; done.

Lemma disciplined_ret {W A} (a : A) : disciplined (ret a : IO W A).
Proof. intros w r w' t [= <- <- <-]. left. returned. Qed.

Lemma disciplined_throw {W A} (e : JsError) : disciplined (throw e : IO W A).
Proof. intros w r w' t [= <- <- <-]. left. returned. Qed.

Lemma disciplined_perform {W A} c (op : W -> completion A * W) : disciplined (perform c op).
Proof.
  intros w r w' t. unfold perform. destruct (op w) as [[a|e] w1]; intros [= <- <- <-].
  - left. returned.
  - right. exists [], c. split_and!; [done|returned|done].
Qed.

Lemma disciplined_performOr {W A} c (op : W -> option A * W) e :
  disciplined (performOr c op e).
Proof.
  intros w r w' t. unfold performOr. destruct (op w) as [[a|] w1]; intros [= <- <- <-].
  - left. returned.
  - right. exists [], c. split_and!; [done|returned|done].
Qed.

Lemma disciplined_performAlways {W A} c (op : W -> A * W) : disciplined (performAlways c op).
Proof.
  intros w r w' t. unfold performAlways. destruct (op w) as [a w1]. intros [= <- <- <-].
  left. returned.
Qed.

Lemma disciplined_bind {W A B} (m : IO W A) (k : A -> IO W B) :
  disciplined m -> (forall a, disciplined (k a)) -> disciplined (bind m k).
Proof.
  intros Hm Hk w r w' t. unfold bind.
  destruct (m w) as [[[a|e] w1] t1] eqn:Hrun; pose proof (Hm _ _ _ _ Hrun) as Ht1.
  - destruct (k a w1) as [[r2 w2] t2] eqn:Hrun2. intros [= <- <- <-].
    destruct Ht1 as [Hall|(pre & c & _ & _ & [=])].
    destruct (Hk _ _ _ _ _ Hrun2) as [Hall2|(pre & c & -> & Hpre & Hr)].
    + left. by apply Forall_app.
    + right. exists (t1 ++ pre), c. rewrite app_assoc. split_and!; try done.
      by apply Forall_app.
  - intros [= <- <- <-]. destruct Ht1 as [Hall|(pre & c & -> & Hpre & _)]; [by left|].
    right. by exists pre, c.
Qed.

Lemma disciplined_loadFile {W} (P : Platform W) f : disciplined (loadFile P f).
Proof.
  apply disciplined_bind; [apply disciplined_performOr|].
  intros url. apply disciplined_performOr.
Qed.

Lemma disciplined_shouldResize {W} (P : Platform W) f width :
  disciplined (shouldResize P f width).
Proof.
  apply disciplined_bind; [apply disciplined_loadFile|]. intros img. apply disciplined_ret.
Qed.

Lemma disciplined_resizeImage {W} (P : Platform W) f width quality :
  disciplined (resizeImage P f width quality).
Proof.
  apply disciplined_bind; [apply disciplined_loadFile|]. intros img.
  apply disciplined_bind; [apply disciplined_performAlways|]. intros [|]; simpl.
  - apply disciplined_bind; [apply disciplined_perform|].
    intros [b|]; [apply disciplined_ret|apply disciplined_throw].
  - apply disciplined_throw.
Qed.

Lemma disciplined_readContent {W} (P : Platform W) h config :
  disciplined (readContent P h config).
Proof.
  unfold readContent. destruct (enableResize config).
  - apply disciplined_bind; [apply disciplined_perform|]. intros orig.
    apply disciplined_bind; [apply disciplined_shouldResize|]. intros [|].
    + apply disciplined_bind; [apply disciplined_resizeImage|]. intros blob.
      apply disciplined_ret.
    + apply disciplined_ret.
  - apply disciplined_bind; [apply disciplined_perform|]. intros f. apply disciplined_ret.
Qed.

Lemma disciplined_copyAndDelete {W} (P : Platform W) dir target old config content :
  disciplined (copyAndDelete P dir target old config content).
Proof.
  apply disciplined_bind; [apply disciplined_perform|]. intros h.
  apply disciplined_bind; [apply disciplined_perform|]. intros wr.
  apply disciplined_bind; [apply disciplined_perform|]. intros _.
  apply disciplined_bind; [apply disciplined_perform|]. intros _.
  destruct (_ && _); [apply disciplined_perform|apply disciplined_ret].
Qed.

Lemma allReturned_no_failure (pre post : list Event) (c : Call) :
  ~ allReturned (pre ++ (c, false) :: post).
Proof.
  unfold allReturned. rewrite Forall_app, Forall_cons. by intros (_ & [=] & _).
Qed.

(** A trace has its only call that threw in one place. *)
Lemma first_failure (l1 l2 pre post : list Event) (c1 c2 : Call) :
  allReturned l1 -> allReturned l2 ->
  l1 ++ (c1, false) :: l2 = pre ++ (c2, false) :: post ->
  pre = l1 /\ c2 = c1 /\ post = l2.
Proof.
  intros Hl1 Hl2. revert pre. induction Hl1 as [|x l1 Hx _ IH]; intros pre Heq.
  - destruct pre as [|y pre]; simpl in Heq; [by injection Heq as <- <-|].
    injection Heq as _ ->. by apply allReturned_no_failure in Hl2.
  - destruct pre as [|y pre]; simpl in Heq.
    + injection Heq as -> _. done.
    + injection Heq as <- Heq. by destruct (IH _ Heq) as (-> & -> & ->).
Qed.

(** X12. [executeRename] stops at the first call that throws: behind such a
    call it only logs the failure, and it throws. When it returns, every call
    it issued has returned. *)
Theorem executeRename_stops {W : Type} (P : Platform W)
  (pfile : ProcessedFile) (dirHandle : option FileSystemDirectoryHandle)
  (config : RenameConfig) (w w' : W) (r : completion unit) (t : list Event) :
  executeRename P pfile dirHandle config w = (r, w', t) ->
  (isNormal r = true -> allReturned t) /\
  (forall pre c post, t = pre ++ (c, false) :: post ->
     allReturned pre /\ post = [renameFailed pfile] /\ isNormal r = false).
Proof.
  intros Hrun.
  assert (allReturned t \/
          exists pre c, allReturned pre /\ isNormal r = false /\
                        t = pre ++ [(c, false); renameFailed pfile]) as Hshape.
  { unfold executeRename in Hrun.
    destruct (handle (file pfile)) as [h|]; [|injection Hrun as <- <- <-; left; returned].
    destruct dirHandle as [d|]; [|injection Hrun as <- <- <-; left; returned].
    destruct (String.eqb _ _ && negb _); [injection Hrun as <- <- <-; left; returned|].
    unfold tryCatch in Hrun.
    match type of Hrun with
    | context [bind ?m ?k w] =>
        assert (disciplined (bind m k)) as Hbody;
        [|destruct (bind m k w) as [[[[]|e] w1] t1] eqn:Hb;
          pose proof (Hbody _ _ _ _ Hb) as Ht1]
    end.
    { apply disciplined_bind; [apply disciplined_readContent|]. intros content.
      destruct (_ && _ && _); [apply disciplined_perform|apply disciplined_copyAndDelete]. }
    - injection Hrun as <- <- <-. left.
      by destruct Ht1 as [Hall|(pre & c & _ & _ & [=])].
    - simpl in Hrun. injection Hrun as <- <- <-.
      destruct Ht1 as [Hall|(pre & c & -> & Hpre & _)].
      + left. apply Forall_app. split; [done|]. returned.
      + right. exists pre, c. split_and!; try done. by rewrite <-app_assoc. }
  split.
  - intros Hr. destruct Hshape as [Hall|(pre & c & _ & Hthrow & _)]; [done|congruence].
  - intros pre c post Heq.
    destruct Hshape as [Hall|(pre0 & c0 & Hpre0 & Hthrow & ->)].
    + rewrite Heq in Hall. by apply allReturned_no_failure in Hall.
    + assert (allReturned [renameFailed pfile]) as Hlog by returned.
      by destruct (first_failure _ _ _ _ _ _ Hpre0 Hlog Heq) as (-> & _ & ->).
Qed.

Lemma executeRename_stops_witness : allReturned (snd Mem.renamed).
Proof.
  assert (executeRename (Mem.platform None []) Mem.first (Some Mem.photos)
            (Mem.config false false) Mem.start
          = (fst (fst Mem.renamed), snd (fst Mem.renamed), snd Mem.renamed)) as Hrun
    by (vm_compute; reflexivity).
  apply (proj1 (executeRename_stops _ _ _ _ _ _ _ _ Hrun)). reflexivity.
Defined.

(** ** A scan that fails *)

Lemma disciplined_scanEntry {W} (P : Platform W) entry : disciplined (scanEntry P entry).
Proof.
  destruct entry as [h|name]; simpl; [|apply disciplined_ret].
  destruct (lastIndexOf "." (handle_name h)); [|apply disciplined_ret].
  destruct (bool_decide _); [|apply disciplined_ret].
  apply disciplined_bind; [apply disciplined_perform|]. intros data.
  apply disciplined_bind; [apply disciplined_performAlways|]. intros newId.
  apply disciplined_bind; [apply disciplined_performAlways|]. intros url.
  apply disciplined_ret.
Qed.

Lemma disciplined_scanLoop {W} (P : Platform W) entries :
  forall acc, disciplined (scanLoop P entries acc).
Proof.
  induction entries as [|[entry|e] entries IH]; intros acc; simpl.
  - apply disciplined_ret.
  - apply disciplined_bind; [apply disciplined_scanEntry|]. intros pushed. apply IH.
  - apply disciplined_throw.
Qed.

(** X13. A scan is all or nothing: when a call of [scanDirectory] throws, be it
    the picker or the [getFile] of one image, no file is returned, whatever was
    read before: the scan throws, or, for an [AbortError], returns the empty
    list without a directory handle. A scan that returns a directory handle has
    had every call return. *)
Theorem scan_all_or_nothing {W : Type} (P : Platform W) (w w' : W)
  (r : completion (list ImageFile * option FileSystemDirectoryHandle)) (t : list Event)
  (c : Call) :
  scanDirectory P w = (r, w', t) ->
  (c, false) ∈ t ->
  match r with
  | Normal (files, dirHandle) => files = [] /\ dirHandle = None
  | Throw e => err_name e <> "AbortError"
  end.
Proof.
  intros Hrun Hin.
  destruct (p_hasPicker P) eqn:Hhas.
  2: { unfold scanDirectory in Hrun. rewrite Hhas in Hrun. injection Hrun as _ _ <-.
       by apply elem_of_nil in Hin. }
  pose proof (scanDirectory_run P _ _ _ _ Hhas Hrun) as Hshape.
  destruct (p_showDirectoryPicker P w) as [[d|e] w1].
  - destruct (p_values P d w1) as [entries w2].
    destruct (scanLoop P entries [] w2) as [[[files|e] w3] tl] eqn:Hloop.
    + exfalso. destruct Hshape as (_ & -> & _).
      destruct (disciplined_scanLoop P entries [] _ _ _ _ Hloop)
        as [Hall|(pre & c' & _ & _ & [=])].
      apply elem_of_cons in Hin as [[=]|Hin].
      apply elem_of_cons in Hin as [[=]|Hin].
      unfold allReturned in Hall. rewrite Forall_forall in Hall.
      by specialize (Hall _ Hin).
    + destruct Hshape as (_ & _ & ->).
      destruct (String.eqb_spec (err_name e) "AbortError"); done.
  - destruct Hshape as (_ & _ & ->).
    destruct (String.eqb_spec (err_name e) "AbortError"); done.
Qed.

Lemma scan_all_or_nothing_witness :
  match fst (fst Album.unreadable) with
  | Normal (files, dirHandle) => files = [] /\ dirHandle = None
  | Throw e => err_name e <> "AbortError"
  end.
Proof.
  apply (scan_all_or_nothing Album.locked Album.start (snd (fst Album.unreadable))
           (fst (fst Album.unreadable)) (snd Album.unreadable)
           (CGetFile {| handle_name := "b.png"; handle_move := false |})).
  - vm_compute. reflexivity.
  - vm_compute. apply list_elem_of_In. simpl. tauto.
Defined.

(** ** Runs without a call *)

Lemma readContent_first {W} (P : Platform W) h config w rc w1 tr :
  readContent P h config w = (rc, w1, tr) -> exists ok tl, tr = (CGetFile h, ok) :: tl.
Proof.
  unfold readContent. destruct (enableResize config); unfold bind at 1, perform;
    destruct (p_getFile P h w) as [[orig|e] w0]; simpl;
    try (intros [= <- <- <-]; by eexists _, _).
  match goal with |- context [bind ?m ?k w0] => destruct (bind m k w0) as [[r2 w2] t2] end.
  intros [= <- <- <-]. by eexists _, _.
Qed.

Lemma bind_first {W A B} (m : IO W A) (k : A -> IO W B) (c : Call) w r w' t :
  (forall ra wa ta, m w = (ra, wa, ta) -> exists ok tl, ta = (c, ok) :: tl) ->
  bind m k w = (r, w', t) -> exists ok tl, t = (c, ok) :: tl.
Proof.
  intros Hm. unfold bind. destruct (m w) as [[[a|e] w1] t1].
  - destruct (Hm _ _ _ eq_refl) as (ok & tl & ->).
    destruct (k a w1) as [[r2 w2] t2]. intros [= <- <- <-]. by eexists _, _.
  - destruct (Hm _ _ _ eq_refl) as (ok & tl & ->). intros [= <- <- <-]. by eexists _, _.
Qed.

Lemma tryCatch_first {W A} (m : IO W A) (handler : JsError -> IO W A) (c : Call) w r w' t :
  (forall ra wa ta, m w = (ra, wa, ta) -> exists ok tl, ta = (c, ok) :: tl) ->
  tryCatch m handler w = (r, w', t) -> exists ok tl, t = (c, ok) :: tl.
Proof.
  intros Hm. unfold tryCatch. destruct (m w) as [[[a|e] w1] t1].
  - destruct (Hm _ _ _ eq_refl) as (ok & tl & ->). intros [= <- <- <-]. by eexists _, _.
  - destruct (Hm _ _ _ eq_refl) as (ok & tl & ->).
    destruct (handler e w1) as [[r2 w2] t2]. intros [= <- <- <-]. by eexists _, _.
Qed.

(** X14. [executeRename] issues no call in three cases only: the entry has no
    file handle, there is no directory handle, or the name does not change and
    the resizer is off. In the first two it throws its own error, in the third
    it returns; the world is as it was. In every other case the first call is
    [getFile] on the handle of the entry. *)
Theorem executeRename_no_calls {W : Type} (P : Platform W)
  (pfile : ProcessedFile) (dirHandle : option FileSystemDirectoryHandle)
  (config : RenameConfig) (w w' : W) (r : completion unit) (t : list Event) :
  executeRename P pfile dirHandle config w = (r, w', t) ->
  let idle :=
    handle (file pfile) = None \/ dirHandle = None \/
    (fullNewNameOf pfile = fullOldNameOf pfile /\ enableResize config = false) in
  (t = [] <-> idle) /\
  (idle ->
   w' = w /\
   r = match handle (file pfile), dirHandle with
       | Some _, Some _ => Normal tt
       | _, _ => Throw (mkError "Missing file system permissions or handles.")
       end) /\
  (~ idle ->
   exists h ok tl, handle (file pfile) = Some h /\ t = (CGetFile h, ok) :: tl).
Proof.
  intros Hrun idle. unfold executeRename in Hrun.
  destruct (handle (file pfile)) as [h|] eqn:Hh.
  2: { injection Hrun as <- <- <-. subst idle. split_and!; try done; tauto. }
  destruct dirHandle as [d|].
  2: { injection Hrun as <- <- <-. subst idle. split_and!; try done; tauto. }
  destruct (String.eqb _ _ && negb _) eqn:Hsame.
  { injection Hrun as <- <- <-.
    apply andb_true_iff in Hsame as [Hname Hres].
    apply String.eqb_eq in Hname. apply negb_true_iff in Hres.
    subst idle. split_and!; try done; tauto. }
  assert (~ idle) as Hbusy.
  { subst idle. intros [[=]|[[=]|[Hname Hres]]].
    apply String.eqb_eq in Hname. by rewrite Hname, Hres in Hsame. }
  assert (exists ok tl, t = (CGetFile h, ok) :: tl) as (ok & tl & ->).
  { eapply tryCatch_first; [|exact Hrun].
    intros ra wa ta Hbody. eapply bind_first; [|exact Hbody].
    intros rc wc tc Hread. by eapply readContent_first. }
  split_and!; [split; [done|by intros ?]|by intros ?|intros _; by exists h, ok, tl].
Qed.

Lemma executeRename_no_calls_witness :
  executeRename (Mem.platform None []) Mem.first None (Mem.config false false) Mem.start
  = (Throw (mkError "Missing file system permissions or handles."), Mem.start, []).
Proof.
  destruct (executeRename (Mem.platform None []) Mem.first None (Mem.config false false)
              Mem.start) as [[r w'] t] eqn:Hrun.
  destruct (executeRename_no_calls _ _ _ _ _ _ _ _ Hrun) as (Hidle & Hres & _).
  assert (handle (file Mem.first) = None \/ (None : option FileSystemDirectoryHandle) = None \/
          (fullNewNameOf Mem.first = fullOldNameOf Mem.first /\
           enableResize (Mem.config false false) = false)) as H by (right; left; reflexivity).
  destruct (Hres H) as [-> ->]. rewrite (proj2 Hidle H). reflexivity.
Defined.

(** ** The [move] method *)

(** X15. With a handle that has the [move] method, the resizer off and
    originals not kept, a rename is one [move] to the new name: the file is
    read from the handle, and nothing is created, written or removed through
    the directory handle. A [getFile] or a [move] that throws is logged and
    thrown on. *)
Theorem move_is_one_call {W : Type} (P : Platform W)
  (pfile : ProcessedFile) (d : FileSystemDirectoryHandle) (h : FileSystemFileHandle)
  (config : RenameConfig) (w w' : W) (r : completion unit) (t : list Event) :
  handle (file pfile) = Some h ->
  takesMove h config = true ->
  fullNewNameOf pfile <> fullOldNameOf pfile ->
  executeRename P pfile (Some d) config w = (r, w', t) ->
  match p_getFile P h w with
  | (Throw e, w1) =>
      r = Throw e /\ w' = w1 /\ t = [(CGetFile h, false); renameFailed pfile]
  | (Normal _, w1) =>
      match p_move P h (fullNewNameOf pfile) w1 with
      | (Normal _, w2) =>
          r = Normal tt /\ w' = w2 /\
          t = [(CGetFile h, true); (CMove h (fullNewNameOf pfile), true)]
      | (Throw e, w2) =>
          r = Throw e /\ w' = w2 /\
          t = [(CGetFile h, true); (CMove h (fullNewNameOf pfile), false);
               renameFailed pfile]
      end
  end.
Proof.
  intros Hh Hmove Hne. unfold executeRename. rewrite Hh.
  unfold takesMove in Hmove.
  apply andb_true_iff in Hmove as [[Hm Hres]%andb_true_iff Hkeep].
  apply negb_true_iff in Hres. rewrite Hm, Hkeep, Hres.
  apply String.eqb_neq in Hne. rewrite Hne. simpl.
  unfold tryCatch, bind, readContent. rewrite Hres.
  unfold bind, perform, ret, consoleError, throw.
  destruct (p_getFile P h w) as [[f|e] w1]; simpl.
  - destruct (p_move P h (fullNewNameOf pfile) w1) as [[[]|e] w2]; simpl;
      by intros [= <- <- <-].
  - by intros [= <- <- <-].
Qed.

Lemma move_is_one_call_witness :
  let pfile := {| file := {| id := "a"; originalName := "a"; extension := ".jpg";
                             path := "a.jpg"; size := 1; lastModified := 0;
                             previewUrl := None; fileObject := Mem.photo [];
                             handle := Some {| handle_name := "a.jpg"; handle_move := true |} |};
                  newName := "img_1"; status := PENDING; errorMessage := None |} in
  snd (executeRename (Mem.platform None []) pfile (Some Mem.photos) (Mem.config false false)
         Mem.start)
  = [(CGetFile {| handle_name := "a.jpg"; handle_move := true |}, true);
     (CMove {| handle_name := "a.jpg"; handle_move := true |} "img_1.jpg", true)].
Proof.
  intros pfile.
  destruct (executeRename (Mem.platform None []) pfile (Some Mem.photos)
              (Mem.config false false) Mem.start) as [[r w'] t] eqn:Hrun.
  pose proof (move_is_one_call (Mem.platform None []) pfile Mem.photos
                {| handle_name := "a.jpg"; handle_move := true |} (Mem.config false false)
                Mem.start w' r t eq_refl eq_refl) as Hmove.
  simpl in Hmove. destruct Hmove as (_ & _ & ->); [by vm_compute|exact Hrun|reflexivity].
Defined.

(** ** What is written *)

Lemma resizeImage_result {W} (P : Platform W) f width quality w b w' t :
  resizeImage P f width quality w = (Normal b, w', t) ->
  exists img height wa,
    p_toBlob P img width height (getMimeType (file_type f)) quality wa
    = (Normal (Some b), w').
Proof.
  unfold resizeImage, bind.
  destruct (loadFile P f w) as [[[img|e] w1] t1]; [|done].
  unfold performAlways, perform, throw, ret.
  destruct (p_getContext P w1) as [[|] w2]; simpl; [|done].
  destruct (p_toBlob P _ _ _ _ _ w2) as [[[b'|]|e] w3] eqn:Hblob; simpl; try done.
  intros [= <- <- <-]. by exists img, (targetHeightOf img width), w2.
Qed.

(** A run of [resizeImage] that returns: the file is read and decoded, the
    canvas gives a context, and the blob is what [toBlob] gives for that image. *)
Lemma resizeImage_run {W} (P : Platform W) f width quality w b w' t :
  resizeImage P f width quality w = (Normal b, w', t) ->
  exists img w1 t1 w2,
    loadFile P f w = (Normal img, w1, t1) /\
    p_getContext P w1 = (true, w2) /\
    p_toBlob P img width (targetHeightOf img width) (getMimeType (file_type f)) quality w2
    = (Normal (Some b), w') /\
    t = t1 ++ [(CGetContext, true);
               (CToBlob img width (targetHeightOf img width) (getMimeType (file_type f))
                  quality, true)].
Proof.
  unfold resizeImage, bind.
  destruct (loadFile P f w) as [[[img|e] w1] t1]; [|done].
  unfold performAlways, perform, throw, ret.
  destruct (p_getContext P w1) as [[|] w2] eqn:Hctx; simpl; [|done].
  destruct (p_toBlob P _ _ _ _ _ w2) as [[[b'|]|e] w3] eqn:Hblob; simpl; try done.
  intros [= <- <- <-]. by exists img, w1, t1, w2.
Qed.

(** What [readContent] returns, and on which calls: the file that [getFile]
    gave for the handle; with the resizer on, that file only when its image is
    not wider than [resizeWidth], and otherwise the blob of [resizeImage] on
    that file. *)
Lemma readContent_run {W} (P : Platform W) h config w content w' tr :
  readContent P h config w = (Normal content, w', tr) ->
  exists orig w0,
    p_getFile P h w = (Normal orig, w0) /\
    (content = OfFile orig /\
     (enableResize config = true ->
      exists img tl,
        loadFile P orig w0 = (Normal img, w', tl) /\
        img_width img <= resizeWidth config) \/
     enableResize config = true /\
     exists b img wl tl t2,
       content = OfBlob b /\
       loadFile P orig w0 = (Normal img, wl, tl) /\
       resizeWidth config < img_width img /\
       resizeImage P orig (resizeWidth config) (resizeQuality config) wl
       = (Normal b, w', t2) /\
       tr = (CGetFile h, true) :: tl ++ t2).
Proof.
  unfold readContent. destruct (enableResize config) eqn:Hres.
  - unfold bind at 1, perform.
    destruct (p_getFile P h w) as [[orig|e] w0]; simpl; [|done].
    unfold bind at 1. rewrite shouldResize_spec.
    destruct (loadFile P orig w0) as [[[img|e] w2] t2] eqn:Hload; [|done].
    destruct (Z.gtb_spec (img_width img) (resizeWidth config)) as [Hwide|Hnarrow].
    + unfold bind, ret.
      destruct (resizeImage P orig _ _ w2) as [[[b|e] w3] t3] eqn:Hresize; [|done].
      intros [= <- <- <-]. exists orig, w0. split; [done|]. right. split; [done|].
      exists b, img, w2, t2, t3. split_and!; try done.
      by rewrite app_nil_r.
    + unfold ret. intros [= <- <- <-]. exists orig, w0. split; [done|]. left.
      split; [done|]. intros _. by exists img, t2.
  - unfold bind, perform, ret.
    destruct (p_getFile P h w) as [[orig|e] w0]; simpl; [|done].
    intros [= <- <- <-]. exists orig, w0. split; [done|]. left. by split.
Qed.

(** X16. What [executeRename] writes is what it read: every [write] that it
    issues passes the file [orig] that [getFile] gave for the handle of the
    entry, or a blob that the canvas made of it. With the resizer off it is
    [orig], and the bytes written are its bytes. With the resizer on it is
    [orig] only when the image decoded from [orig] is not wider than
    [resizeWidth]; otherwise that image is wider, and what is written is the
    blob that this run got from [toBlob], in the world that the run had
    reached, for the image that [resizeImage] decoded from [orig], at the width
    [resizeWidth], in the format that [getMimeType] gives for the type of
    [orig] and with the quality [resizeQuality]. *)
Theorem executeRename_writes {W : Type} (P : Platform W)
  (pfile : ProcessedFile) (dirHandle : option FileSystemDirectoryHandle)
  (config : RenameConfig) (w w' : W) (r : completion unit) (t : list Event)
  (wr : Writable) (data : FileContent) (ok : bool) :
  executeRename P pfile dirHandle config w = (r, w', t) ->
  (CWrite wr data, ok) ∈ t ->
  exists h orig w0,
    handle (file pfile) = Some h /\
    p_getFile P h w = (Normal orig, w0) /\
    (data = OfFile orig /\
     (enableResize config = true ->
      exists img wl tl,
        loadFile P orig w0 = (Normal img, wl, tl) /\
        img_width img <= resizeWidth config) \/
     enableResize config = true /\
     exists b seen wl tl img w1 t1 w2 w3 height,
       data = OfBlob b /\
       loadFile P orig w0 = (Normal seen, wl, tl) /\
       resizeWidth config < img_width seen /\
       loadFile P orig wl = (Normal img, w1, t1) /\
       p_getContext P w1 = (true, w2) /\
       p_toBlob P img (resizeWidth config) height
         (getMimeType (file_type orig)) (resizeQuality config) w2
       = (Normal (Some b), w3) /\
       (CToBlob img (resizeWidth config) height (getMimeType (file_type orig))
          (resizeQuality config), true) ∈ t) /\
    (enableResize config = false -> contentBytes data = file_bytes orig).
Proof.
  intros Hrun Hin.
  destruct (executeRename_trace _ _ _ _ _ _ _ _ Hrun)
    as [[-> _]|(h & d & tr & w1 & rc & Hh & -> & Hsame & Hread & Hrc)].
  { by apply elem_of_nil in Hin. }
  pose proof (readContent_reads _ _ _ _ _ _ _ Hread) as Hreads.
  assert ((CWrite wr data, ok) ∉ tr) as Hntr.
  { intros Hintr. rewrite Forall_forall in Hreads. by specialize (Hreads _ Hintr). }
  assert ((CWrite wr data, ok) ∉ [renameFailed pfile]) as Hnlog.
  { by intros [=]%list_elem_of_singleton. }
  destruct rc as [content|e].
  - destruct (readContent_run _ _ _ _ _ _ _ Hread) as (orig & w0 & Hget & Hcontent).
    assert (exists rest, t = tr ++ rest) as [rest Ht].
    { destruct (takesMove h config).
      - destruct Hrc as (okm & _ & ->). by eexists.
      - destruct Hrc as (tc & _ & ->). by eexists. }
    assert (data = content) as ->.
    { destruct (takesMove h config).
      - destruct Hrc as (okm & _ & ->). apply elem_of_app in Hin as [Hin|Hin]; [done|].
        apply elem_of_cons in Hin as [[=]|Hin]. destruct okm; [|done].
        by apply elem_of_nil in Hin.
      - destruct Hrc as (tc & Hcopy & ->).
        rewrite !elem_of_app in Hin. destruct Hin as [Hin|[Hin|Hin]]; [done| |].
        + by eapply copyTrace_write.
        + destruct (isNormal r); [by apply elem_of_nil in Hin|done]. }
    exists h, orig, w0. split_and!; try done.
    + destruct Hcontent as [[-> Hnarrow]|(Hon & b & seen & wl & tl & t2 & -> & Hseen & Hwide
                                          & Hresize & Htr)].
      * left. split; [done|]. intros Hon.
        destruct (Hnarrow Hon) as (img & tl & Hload & Hle). by exists img, w1, tl.
      * right. split; [done|].
        destruct (resizeImage_run _ _ _ _ _ _ _ _ Hresize)
          as (img & wi & ti & wc & Hload & Hctx & Hblob & Ht2).
        exists b, seen, wl, tl, img, wi, ti, wc, w1,
          (targetHeightOf img (resizeWidth config)).
        split_and!; try done.
        rewrite Ht, Htr, Ht2. apply elem_of_app. left.
        apply elem_of_cons. right. rewrite !elem_of_app. right. right.
        apply elem_of_cons. right. by apply elem_of_cons; left.
    + intros Hoff. destruct Hcontent as [[-> _]|[Hon _]]; [done|congruence].
  - destruct Hrc as [_ ->]. apply elem_of_app in Hin as [Hin|Hin]; done.
Qed.

Lemma executeRename_writes_witness :
  Forall (fun e : Event =>
            match e.1 with
            | CWrite _ data => contentBytes data = [Byte.x61]
            | _ => True
            end) (snd Mem.renamed) /\
  Forall (fun e : Event =>
            match e.1 with
            | CWrite _ data => data = OfBlob {| blob_type := "image/jpeg"; blob_bytes := [] |}
            | _ => True
            end) (snd Kept.run) /\
  Exists (fun e : Event => match e.1 with CWrite _ _ => True | _ => False end)
    (snd Kept.run).
Proof.
  assert (executeRename (Mem.platform None []) Mem.first (Some Mem.photos)
            (Mem.config false false) Mem.start
          = (fst (fst Mem.renamed), snd (fst Mem.renamed), snd Mem.renamed)) as Hrun
    by (vm_compute; reflexivity).
  assert (executeRename (Mem.platform None []) Kept.planned (Some Mem.photos)
            Kept.config Kept.start
          = (fst (fst Kept.run), snd (fst Kept.run), snd Kept.run)) as Hkept
    by (vm_compute; reflexivity).
  split_and!.
  - apply Forall_forall. intros [c ok] Hin. destruct c; try exact I.
    destruct (executeRename_writes _ _ _ _ _ _ _ _ _ _ _ Hrun Hin)
      as (h & orig & w0 & Hh & Hget & _ & Hbytes).
    injection Hh as <-. vm_compute in Hget. injection Hget as <- _.
    by apply Hbytes.
  - apply Forall_forall. intros [c ok] Hin. destruct c; try exact I.
    destruct (executeRename_writes _ _ _ _ _ _ _ _ _ _ _ Hkept Hin)
      as (h & orig & w0 & Hh & Hget & Hdata & _).
    injection Hh as <-. vm_compute in Hget. injection Hget as <- <-.
    destruct Hdata as [[_ Hnarrow]|(_ & b & seen & wl & tl & img & w1 & t1 & w2 & w3
                                    & height & -> & _ & _ & _ & _ & Hblob & _)].
    + destruct (Hnarrow eq_refl) as (img & wl & tl & Hload & Hle).
      vm_compute in Hload. injection Hload as <- _ _. vm_compute in Hle. by destruct Hle.
    + simpl in Hblob. by injection Hblob as <- _.
  - vm_compute. repeat first [left; exact I|right].
Defined.

(** ** The resizer *)

(** The height of the canvas is computed in doubles: [41 / 10] is a little
    below 4.1, so that 15 times it is below 61.5 and is rounded down, where the
    exact product is 61.5 and would be rounded up. *)
Example targetHeight_of_a_double_product :
  targetHeightOf {| img_width := 10; img_height := 41 |} 15 = 61 /\
  (2 * 15 * 41 + 10) / (2 * 10) = 62 /\
  targetHeightOf {| img_width := 1000; img_height := 750 |} 500 = 375.
Proof. by vm_compute. Qed.

(** X17. The canvas is asked for one encoding only: a [toBlob] of
    [resizeImage] has the target width, the quality that was passed and the
    type that [getMimeType] gives for the type of the file, which is PNG for a
    PNG file, WebP for a WebP file and JPEG for every other file; a blob that
    [resizeImage] returns is the blob of such a call. *)
Theorem resizeImage_encodes {W : Type} (P : Platform W)
  (f : File) (targetWidth quality : Z) (w w' : W) (r : completion Blob) (t : list Event) :
  resizeImage P f targetWidth quality w = (r, w', t) ->
  (forall img width height mimeType q ok,
     (CToBlob img width height mimeType q, ok) ∈ t ->
     width = targetWidth /\ q = quality /\ mimeType = getMimeType (file_type f)) /\
  (forall b, r = Normal b ->
     exists img height wa,
       p_toBlob P img targetWidth height (getMimeType (file_type f)) quality wa
       = (Normal (Some b), w')) /\
  getMimeType (file_type f) ∈ ["image/png"; "image/webp"; "image/jpeg"] /\
  (file_type f ∈ ["image/png"; "image/webp"] -> getMimeType (file_type f) = file_type f) /\
  (file_type f ∉ ["image/png"; "image/webp"] -> getMimeType (file_type f) = "image/jpeg").
Proof.
  intros Hrun. split_and!.
  - intros img width height mimeType q ok Hin. revert Hrun. unfold resizeImage, bind.
    destruct (loadFile P f w) as [[[img0|e] w1] t1] eqn:Hload;
      pose proof (loadFile_spec P _ _ _ _ _ Hload) as Ht1; rewrite Forall_forall in Ht1.
    + unfold performAlways, perform, throw, ret.
      destruct (p_getContext P w1) as [[|] w2]; simpl.
      * destruct (p_toBlob P _ _ _ _ _ w2) as [[[b|]|e] w3]; simpl; intros [= <- <- <-];
          apply elem_of_app in Hin as [Hin|Hin]; try (by specialize (Ht1 _ Hin));
          apply elem_of_cons in Hin as [[=]|Hin];
          apply elem_of_cons in Hin as [Hin|Hin]; try (by apply elem_of_nil in Hin);
          by injection Hin as _ -> _ -> ->.
      * intros [= <- <- <-]. apply elem_of_app in Hin as [Hin|Hin];
          [by specialize (Ht1 _ Hin)|].
        by apply list_elem_of_singleton in Hin.
    + intros [= <- <- <-]. by specialize (Ht1 _ Hin).
  - intros b ->. by eapply resizeImage_result.
  - unfold getMimeType. destruct (String.eqb _ _); [by repeat constructor|].
    destruct (String.eqb _ _); by repeat constructor.
  - unfold getMimeType. intros Hin.
    destruct (String.eqb_spec (file_type f) "image/png") as [->|Hpng]; [done|].
    destruct (String.eqb_spec (file_type f) "image/webp") as [->|Hwebp]; [done|].
    apply elem_of_cons in Hin as [Hin|Hin]; [done|].
    by apply list_elem_of_singleton in Hin.
  - unfold getMimeType. intros Hnin.
    destruct (String.eqb_spec (file_type f) "image/png") as [Hpng|_].
    { destruct Hnin. rewrite Hpng. by repeat constructor. }
    destruct (String.eqb_spec (file_type f) "image/webp") as [Hwebp|_]; [|done].
    destruct Hnin. rewrite Hwebp. by repeat constructor.
Qed.

Lemma resizeImage_encodes_witness :
  exists img height wa,
    p_toBlob (Mem.platform None []) img 500 height "image/png" 85 wa
    = (Normal (Some {| blob_type := "image/png"; blob_bytes := [] |}), Mem.start).
Proof.
  assert (resizeImage (Mem.platform None [])
            {| file_name := "a.png"; file_type := "image/png"; file_lastModified := 0;
               file_bytes := [Byte.x61] |} 500 85 Mem.start
          = (Normal {| blob_type := "image/png"; blob_bytes := [] |}, Mem.start,
             [(CReadAsDataURL {| file_name := "a.png"; file_type := "image/png";
                                 file_lastModified := 0; file_bytes := [Byte.x61] |}, true);
              (CLoadImage "data:image/png", true); (CGetContext, true);
              (CToBlob {| img_width := 1000; img_height := 750 |} 500 375 "image/png" 85,
               true)])) as Hrun by (vm_compute; reflexivity).
  destruct (resizeImage_encodes _ _ _ _ _ _ _ _ Hrun) as (_ & Hblob & _).
  exact (Hblob _ eq_refl).
Defined.

(** * More of the batch *)

(** The entry at a place of the array when the loop has passed it: as it was
    if the queue holds it in [ERROR], and with the status of its run if not. *)
Lemma renameLoop_entry {W} (P : Platform W) dir config queue : forall i st k p p0,
  queue !! k = Some p ->
  processedFiles st !! (i + k)%nat = Some p0 ->
  exists r,
    processedFiles (renameLoop P dir config i queue st) !! (i + k)%nat
    = Some (if decide (status p = ERROR) then p0 else finished r p0).
Proof.
  induction queue as [|q queue IH]; intros i st k p p0 Hk Hst; [done|].
  destruct k as [|k]; simpl in Hk |- *.
  - injection Hk as ->. rewrite Nat.add_0_r in Hst |- *.
    rewrite renameLoop_other by lia. rewrite renameStep_spec.
    destruct (decide (status p <> ERROR)) as [Hok|Herr].
    + destruct (executeRename P p (Some dir) config (world st)) as [[r w1] t].
      exists r. simpl. rewrite list_lookup_alter_eq, Hst. simpl.
      by destruct (decide (status p = ERROR)).
    + exists (Normal tt). simpl. rewrite Hst.
      destruct (decide (status p = ERROR)); [done|]. by destruct Herr.
  - replace (i + S k)%nat with (S i + k)%nat in Hst |- * by lia.
    apply (IH (S i) _ k p p0 Hk).
    rewrite renameStep_other by lia. done.
Qed.

(** X18. A run of [handleRename] that is not a dry run leaves the array as
    long as it was and leaves each entry its file and its new name; an entry
    that the plan held in [ERROR] is as it was, and every other entry ends in
    [SUCCESS] or in [ERROR]: nothing that was to be carried out is left in
    [PENDING]. *)
Theorem batch_settles {W : Type} (P : Platform W)
  (dir : FileSystemDirectoryHandle) (config : RenameConfig)
  (processed : list ProcessedFile) (w : W) :
  dryRun config = false ->
  let final := processedFiles (handleRename P (Some dir) config processed w) in
  length final = length processed /\
  file <$> final = file <$> processed /\
  newName <$> final = newName <$> processed /\
  (forall (k : nat) (p : ProcessedFile), processed !! k = Some p ->
     exists q, final !! k = Some q /\
       if decide (status p = ERROR) then q = p
       else status q = SUCCESS /\ errorMessage q = errorMessage p \/
            status q = ERROR /\ errorMessage q = Some "Write/Move failed") /\
  Forall (fun q => status q = SUCCESS \/ status q = ERROR) final.
Proof.
  intros Hdry final.
  assert (final = processedFiles
            (renameLoop P dir config O processed
               {| processedFiles := processed; world := w; issued := [] |})) as Hfinal.
  { unfold final, handleRename. by rewrite Hdry. }
  assert (length final = length processed) as Hlen.
  { rewrite Hfinal. apply renameLoop_length. }
  assert (forall (k : nat) (p : ProcessedFile), processed !! k = Some p ->
            exists r, final !! k
                      = Some (if decide (status p = ERROR) then p else finished r p))
    as Hentry.
  { intros k p Hk. rewrite Hfinal.
    apply (renameLoop_entry P dir config processed O
             {| processedFiles := processed; world := w; issued := [] |} k p p Hk Hk). }
  assert (forall (k : nat) (p : ProcessedFile), processed !! k = Some p ->
     exists q, final !! k = Some q /\ file q = file p /\ newName q = newName p /\
       if decide (status p = ERROR) then q = p
       else status q = SUCCESS /\ errorMessage q = errorMessage p \/
            status q = ERROR /\ errorMessage q = Some "Write/Move failed") as Hall.
  { intros k p Hk. destruct (Hentry k p Hk) as [r ->]. eexists. split; [done|].
    destruct (decide (status p = ERROR)); [done|].
    destruct r; simpl; split_and!; auto. }
  split_and!; [done| | | |].
  - apply list_eq. intros k. rewrite !list_lookup_fmap.
    destruct (processed !! k) as [p|] eqn:Hk.
    + destruct (Hall k p Hk) as (q & -> & Hf & _). simpl. by rewrite Hf.
    + apply lookup_ge_None in Hk. rewrite <-Hlen in Hk.
      apply lookup_ge_None in Hk. by rewrite Hk.
  - apply list_eq. intros k. rewrite !list_lookup_fmap.
    destruct (processed !! k) as [p|] eqn:Hk.
    + destruct (Hall k p Hk) as (q & -> & _ & Hn & _). simpl. by rewrite Hn.
    + apply lookup_ge_None in Hk. rewrite <-Hlen in Hk.
      apply lookup_ge_None in Hk. by rewrite Hk.
  - intros k p Hk. destruct (Hall k p Hk) as (q & Hq & _ & _ & Hst). by exists q.
  - apply Forall_lookup. intros k q Hq.
    destruct (processed !! k) as [p|] eqn:Hk.
    + destruct (Hall k p Hk) as (q' & Hq' & _ & _ & Hst).
      rewrite Hq in Hq'. injection Hq' as <-.
      destruct (decide (status p = ERROR)) as [Herr|_]; [subst q; by right|].
      destruct Hst as [[? _]|[? _]]; auto.
    + apply lookup_ge_None in Hk. rewrite <-Hlen in Hk.
      apply lookup_ge_None in Hk. congruence.
Qed.

Lemma batch_settles_witness :
  Forall (fun q => status q = SUCCESS \/ status q = ERROR)
    (processedFiles (handleRename (Mem.platform None ["img_3.jpg"]) (Some Mem.photos)
                       (Mem.config false false) Mem.plan Mem.start)).
Proof.
  apply (batch_settles (Mem.platform None ["img_3.jpg"]) Mem.photos (Mem.config false false)
           Mem.plan Mem.start eq_refl).
Defined.

(** * The scanner and the executor together *)

Lemma copyTrace_remove_name dir target old config content r t d name ok :
  copyTrace dir target old config content r t ->
  (CRemoveEntry d name, ok) ∈ t -> d = dir /\ name = old.
Proof.
  intros Ht Hin.
  destruct Ht; repeat (apply elem_of_cons in Hin as [Hin|Hin]; simplify_eq/=);
    try done; by apply elem_of_nil in Hin.
Qed.

(** X19. The name that [executeRename] removes is [originalName + extension],
    and the scanner has put the extension in lower case: for a scanned file the
    name that is removed is the name of the file in the directory only when the
    extension of that name was in lower case already. For a file such as
    [IMG.JPG] the fallback writes the copy and then asks to remove [IMG.jpg]. *)
Theorem removal_uses_lowercased_extension {W : Type} (P : Platform W)
  (entry : DirEntry) (w0 w1 : W) (t0 : list Event)
  (pfile : ProcessedFile) (dirHandle : option FileSystemDirectoryHandle)
  (config : RenameConfig) (w w' : W) (r : completion unit) (t : list Event)
  (d : FileSystemDirectoryHandle) (name : string) (ok : bool) :
  scanEntry P entry w0 = (Normal (Some (file pfile)), w1, t0) ->
  executeRename P pfile dirHandle config w = (r, w', t) ->
  (CRemoveEntry d name, ok) ∈ t ->
  exists h rest,
    entry = FileEntry h /\
    handle_name h = originalName (file pfile) +:+ String "." rest /\
    name = originalName (file pfile) +:+ Str.toLowerCase (String "." rest) /\
    (name = handle_name h <-> Str.toLowerCase rest = rest).
Proof.
  intros Hscan Hrun Hin.
  assert (name = fullOldNameOf pfile) as Hname.
  { destruct (executeRename_trace _ _ _ _ _ _ _ _ Hrun)
      as [[-> _]|(h & d' & tr & w2 & rc & Hh & -> & Hsame & Hread & Hrc)].
    { by apply elem_of_nil in Hin. }
    pose proof (readContent_reads _ _ _ _ _ _ _ Hread) as Hreads.
    assert ((CRemoveEntry d name, ok) ∉ tr) as Hntr.
    { intros Hintr. rewrite Forall_forall in Hreads. by specialize (Hreads _ Hintr). }
    assert ((CRemoveEntry d name, ok) ∉ [renameFailed pfile]) as Hnlog.
    { by intros [=]%list_elem_of_singleton. }
    destruct rc as [content|e].
    - destruct (takesMove h config).
      + destruct Hrc as (okm & _ & ->). apply elem_of_app in Hin as [Hin|Hin]; [done|].
        apply elem_of_cons in Hin as [[=]|Hin]. destruct okm; [|done].
        by apply elem_of_nil in Hin.
      + destruct Hrc as (tc & Hcopy & ->).
        rewrite !elem_of_app in Hin. destruct Hin as [Hin|[Hin|Hin]]; [done| |].
        * by destruct (copyTrace_remove_name _ _ _ _ _ _ _ _ _ _ Hcopy Hin).
        * destruct (isNormal r); [by apply elem_of_nil in Hin|done].
    - destruct Hrc as [_ ->]. apply elem_of_app in Hin as [Hin|Hin]; done. }
  pose proof (scanEntry_spec P _ _ _ _ _ Hscan) as Hspec.
  destruct (imageHandle (Normal entry)) as [h|] eqn:Himg; [|by destruct Hspec as [[=] _]].
  destruct Hspec as [-> Hspec].
  destruct (p_getFile P h w0) as [[data|e] w2]; [|by destruct Hspec as [[=] _]].
  destruct Hspec as (i & f' & Hdot & [= <-] & _ & Horig & Hext & _).
  destruct (lastIndexOf_Some _ _ _ Hdot) as (rest & Hdrop & _).
  assert (handle_name h = originalName (file pfile) +:+ String "." rest) as Hsplit.
  { by rewrite Horig, <-Hdrop, str_take_drop. }
  exists h, rest. split_and!; try done.
  - rewrite Hname. unfold fullOldNameOf. by rewrite Hext, Hdrop.
  - rewrite Hname, Hsplit. unfold fullOldNameOf. rewrite Hext, Hdrop. simpl. split.
    + intros Heq. apply str_app_inv_head in Heq. by injection Heq.
    + by intros ->.
Qed.

Lemma removal_uses_lowercased_extension_witness :
  exists h rest,
    FileEntry Album.upper = FileEntry h /\
    handle_name h = "IMG" +:+ String "." rest /\
    "IMG.jpg" = "IMG" +:+ Str.toLowerCase (String "." rest) /\
    ("IMG.jpg" = handle_name h <-> Str.toLowerCase rest = rest).
Proof.
  apply (removal_uses_lowercased_extension (Mem.platform (Some Mem.Picks) [])
           (FileEntry Album.upper) Album.start Album.start
           [(CGetFile Album.upper, true); (CRandom, true);
            (CCreateObjectURL (Mem.photo [Byte.x61]), true)]
           Album.upperPlanned (Some Mem.photos) (Mem.config false false)
           Album.start (snd (fst Album.upperRun)) (fst (fst Album.upperRun))
           (snd Album.upperRun) Mem.photos "IMG.jpg" false).
  - vm_compute. reflexivity.
  - vm_compute. reflexivity.
  - vm_compute. apply list_elem_of_In. simpl. tauto.
Defined.

(** In the directory in memory, where names are told apart by case, the run for
    [IMG.JPG] writes the copy, fails to remove [IMG.jpg] and throws: both files
    are there at the end. *)
Example upper_case_extension_run :
  fst (fst Album.upperRun) = Throw Mem.notFound /\
  file_bytes <$> Mem.disk (snd (fst Album.upperRun)) !! "img_1.jpg" = Some [Byte.x61] /\
  file_bytes <$> Mem.disk (snd (fst Album.upperRun)) !! "IMG.JPG" = Some [Byte.x61] /\
  last (snd Album.upperRun) = Some (renameFailed Album.upperPlanned).
Proof. vm_compute. done. Qed.

(** * Selecting a directory *)

Lemma revokePreviews_all files f u :
  f ∈ files -> previewUrl f = Some u -> u <> "" -> RevokeObjectURL u ∈ revokePreviews files.
Proof.
  intros Hin Hu Hne. unfold revokePreviews. apply list_elem_of_omap.
  exists f. split; [done|]. rewrite Hu. by destruct u.
Qed.

Lemma revokePreviews_plain files :
  Forall (fun x => isSetter x = false /\ isAlert x = false) (revokePreviews files).
Proof.
  apply Forall_forall. intros x (f & _ & Hf)%list_elem_of_omap.
  destruct (previewUrl f) as [[|c u]|]; simplify_eq/=. done.
Qed.

Lemma browser_plain (t : list Event) :
  Forall (fun x => isSetter x = false /\ isAlert x = false) (Browser <$> t).
Proof. apply Forall_fmap, Forall_forall. by intros e _. Qed.

(** X20. [handleDirectorySelect] first revokes the preview address of every
    loaded file, whatever happens next. It calls the setters of the state only
    when the scan returned a directory handle, and then it sets the handle and
    the files found, empties the plan and resets the progress. When the user
    closes the picker nothing is set and nothing is shown: the loaded files
    stay, with their preview addresses revoked. When the scan throws, the
    failure is logged and an alert is shown, and nothing is set. *)
Theorem select_sets_state_only_when_scanned {W : Type} (P : Platform W)
  (files : list ImageFile) (w w' : W) (t : list AppEvent) :
  handleDirectorySelect P files w = (w', t) ->
  (exists rest, t = revokePreviews files ++ rest) /\
  (forall f u, f ∈ files -> previewUrl f = Some u -> u <> "" -> RevokeObjectURL u ∈ t) /\
  match scanDirectory P w with
  | (Normal (found, Some d), _, _) =>
      filter (fun x => isSetter x = true) t
      = [SetDirHandle d; SetFiles found; SetProcessedFiles []; SetProgress 0] /\
      Forall (fun x => isAlert x = false) t
  | (Normal (_, None), _, _) =>
      Forall (fun x => isSetter x = false /\ isAlert x = false) t
  | (Throw _, _, _) =>
      Forall (fun x => isSetter x = false) t /\
      exists pre, t = pre ++ selectionFailed
  end /\
  (p_hasPicker P = true ->
   forall e w1, p_showDirectoryPicker P w = (Throw e, w1) ->
     err_name e = "AbortError" ->
     w' = w1 /\ t = revokePreviews files ++ [Browser (CShowDirectoryPicker, false)]).
Proof.
  intros Hrun. unfold handleDirectorySelect in Hrun.
  pose proof (revokePreviews_plain files) as Hrev.
  assert (forall (l : list AppEvent),
            Forall (fun x => isSetter x = false /\ isAlert x = false) l ->
            Forall (fun x => isSetter x = false) l /\ Forall (fun x => isAlert x = false) l)
    as Hsplit.
  { intros l Hl. split; (eapply Forall_impl; [exact Hl|]); by intros x [? ?]. }
  assert (forall (l : list AppEvent),
            Forall (fun x => isSetter x = false) l ->
            filter (fun x => isSetter x = true) l = []) as Hnone.
  { intros l Hl. induction Hl as [|x l Hx _ IH]; [done|].
    rewrite filter_cons. destruct (decide (isSetter x = true)); [congruence|done]. }
  split_and!.
  - destruct (scanDirectory P w) as [[[[found [d|]]|e] w1] ts];
      injection Hrun as <- <-; by eexists.
  - intros f u Hin Hu Hne.
    pose proof (revokePreviews_all _ _ _ Hin Hu Hne) as Hr.
    destruct (scanDirectory P w) as [[[[found [d|]]|e] w1] ts];
      injection Hrun as <- <-; apply elem_of_app; by left.
  - destruct (scanDirectory P w) as [[[[found [d|]]|e] w1] ts] eqn:Hscan;
      injection Hrun as <- <-.
    + pose proof (browser_plain ts) as Hts.
      destruct (Hsplit _ Hrev) as [Hrs Hra]. destruct (Hsplit _ Hts) as [Hbs Hba].
      split.
      * by rewrite !filter_app, (Hnone _ Hrs), (Hnone _ Hbs).
      * rewrite !Forall_app. split_and!; try done. by repeat constructor.
    + apply Forall_app. split; [done|]. apply browser_plain.
    + split.
      * pose proof (browser_plain ts) as Hts.
        destruct (Hsplit _ Hrev) as [Hrs _]. destruct (Hsplit _ Hts) as [Hbs _].
        rewrite !Forall_app. split_and!; try done. by repeat constructor.
      * eexists. by rewrite app_assoc.
  - intros Hhas e w1 Hpick Habort.
    assert (scanDirectory P w = (Normal ([], None), w1, [(CShowDirectoryPicker, false)]))
      as Hscan.
    { unfold scanDirectory. rewrite Hhas. simpl.
      unfold tryCatch, bind, perform. rewrite Hpick. simpl. by rewrite Habort. }
    rewrite Hscan in Hrun. by injection Hrun as <- <-.
Qed.

Lemma select_sets_state_only_when_scanned_witness :
  handleDirectorySelect (Mem.platform (Some Mem.Dismissed) []) Album.files Album.start
  = (Album.start,
     revokePreviews Album.files ++ [Browser (CShowDirectoryPicker, false)]).
Proof.
  destruct (handleDirectorySelect (Mem.platform (Some Mem.Dismissed) []) Album.files
              Album.start) as [w' t] eqn:Hrun.
  destruct (select_sets_state_only_when_scanned _ _ _ _ _ Hrun) as (_ & _ & _ & Habort).
  destruct (Habort eq_refl Mem.aborted Album.start eq_refl eq_refl) as [-> ->].
  reflexivity.
Defined.

(** * What the plan does not see *)

(** The planner compares the new names with each other, not with the names
    that the files have: here the first image is given the name of the second,
    no entry is flagged, both runs succeed, and the bytes of the second image
    are lost. *)
Example plan_misses_existing_names :
  status <$> Clash.plan = [PENDING; PENDING] /\
  newName <$> Clash.plan = ["ab"; "abb"] /\
  let final := handleRename (Mem.platform None []) (Some Mem.photos) Clash.config
                 Clash.plan Clash.start in
  status <$> processedFiles final = [SUCCESS; SUCCESS] /\
  file_bytes <$> Mem.disk (world final) !! "abb.jpg" = Some [Byte.x61] /\
  Mem.disk (world final) !! "ab.jpg" = None /\
  Mem.disk (world final) !! "a.jpg" = None.
Proof. vm_compute. done. Qed.

(** * Originals that are kept *)

Lemma copyTrace_target dir target old config content r t d name ok :
  copyTrace dir target old config content r t ->
  (CGetFileHandle d name, ok) ∈ t -> d = dir /\ name = target.
Proof.
  intros Ht Hin.
  destruct Ht; repeat (apply elem_of_cons in Hin as [Hin|Hin]; simplify_eq/=);
    try done; by apply elem_of_nil in Hin.
Qed.

Lemma copyTrace_kept dir target old config content r t :
  keepOriginals config = true ->
  copyTrace dir target old config content r t ->
  Forall (fun e : Event =>
            match e.1 with CRemoveEntry _ _ | CMove _ _ => False | _ => True end) t.
Proof. intros Hkeep Ht. destruct Ht; try by repeat constructor. congruence. Qed.

(** X21. With [keepOriginals] and the resizer on, the copy goes under
    [newName + "_resized" + extension]: every [getFileHandle] of
    [executeRename] names that file, and nothing is removed or moved. That name
    is the name of the original exactly when [originalName] is [newName]
    followed by [_resized]: then the copy is written over the original, kept or
    not. *)
Theorem kept_original_target {W : Type} (P : Platform W)
  (pfile : ProcessedFile) (dirHandle : option FileSystemDirectoryHandle)
  (config : RenameConfig) (w w' : W) (r : completion unit) (t : list Event) :
  keepOriginals config = true ->
  enableResize config = true ->
  executeRename P pfile dirHandle config w = (r, w', t) ->
  (forall d name ok, (CGetFileHandle d name, ok) ∈ t ->
     dirHandle = Some d /\
     name = newName pfile +:+ "_resized" +:+ extension (file pfile)) /\
  Forall (fun e : Event =>
            match e.1 with CRemoveEntry _ _ | CMove _ _ => False | _ => True end) t /\
  (newName pfile +:+ "_resized" +:+ extension (file pfile) = fullOldNameOf pfile
   <-> originalName (file pfile) = newName pfile +:+ "_resized").
Proof.
  intros Hkeep Hres Hrun.
  assert (targetFileNameOf pfile config
          = newName pfile +:+ "_resized" +:+ extension (file pfile)) as Htarget.
  { unfold targetFileNameOf. by rewrite Hkeep, Hres. }
  split_and!.
  - intros d name ok Hin.
    destruct (executeRename_trace _ _ _ _ _ _ _ _ Hrun)
      as [[-> _]|(h & d' & tr & w1 & rc & Hh & -> & Hsame & Hread & Hrc)].
    { by apply elem_of_nil in Hin. }
    pose proof (readContent_reads _ _ _ _ _ _ _ Hread) as Hreads.
    assert ((CGetFileHandle d name, ok) ∉ tr) as Hntr.
    { intros Hintr. rewrite Forall_forall in Hreads. by specialize (Hreads _ Hintr). }
    assert (takesMove h config = false) as Hmove.
    { unfold takesMove. by rewrite Hkeep, andb_false_r. }
    destruct rc as [content|e].
    + rewrite Hmove in Hrc. destruct Hrc as (tc & Hcopy & ->).
      rewrite !elem_of_app in Hin. destruct Hin as [Hin|[Hin|Hin]]; [done| |].
      * destruct (copyTrace_target _ _ _ _ _ _ _ _ _ _ Hcopy Hin) as [-> ->].
        by rewrite Htarget.
      * destruct (isNormal r); [by apply elem_of_nil in Hin|].
        by apply list_elem_of_singleton in Hin.
    + destruct Hrc as [_ ->]. apply elem_of_app in Hin as [Hin|Hin]; [done|].
      by apply list_elem_of_singleton in Hin.
  - destruct (executeRename_trace _ _ _ _ _ _ _ _ Hrun)
      as [[-> _]|(h & d' & tr & w1 & rc & Hh & -> & Hsame & Hread & Hrc)]; [constructor|].
    pose proof (readContent_reads _ _ _ _ _ _ _ Hread) as Hreads.
    assert (Forall (fun e : Event =>
              match e.1 with CRemoveEntry _ _ | CMove _ _ => False | _ => True end) tr)
      as Htr.
    { eapply Forall_impl; [exact Hreads|]. intros [c ok]. unfold isRead. simpl.
      by destruct c. }
    assert (takesMove h config = false) as Hmove.
    { unfold takesMove. by rewrite Hkeep, andb_false_r. }
    destruct rc as [content|e].
    + rewrite Hmove in Hrc. destruct Hrc as (tc & Hcopy & ->).
      rewrite !Forall_app. split_and!; [done| |].
      * exact (copyTrace_kept _ _ _ _ _ _ _ Hkeep Hcopy).
      * destruct (isNormal r); by repeat constructor.
    + destruct Hrc as [_ ->]. apply Forall_app. split; [done|]. by repeat constructor.
  - unfold fullOldNameOf. split.
    + intros Heq. symmetry.
      apply (str_app_inv_tail (extension (file pfile))).
      by rewrite str_app_assoc.
    + intros ->. by rewrite str_app_assoc.
Qed.

Lemma kept_original_target_witness :
  "x" +:+ "_resized" +:+ ".jpg" = fullOldNameOf Kept.planned
  <-> originalName (file Kept.planned) = "x" +:+ "_resized".
Proof.
  assert (executeRename (Mem.platform None []) Kept.planned (Some Mem.photos) Kept.config
            Kept.start
          = (fst (fst Kept.run), snd (fst Kept.run), snd Kept.run)) as Hrun
    by (vm_compute; reflexivity).
  destruct (kept_original_target (Mem.platform None []) Kept.planned (Some Mem.photos)
              Kept.config Kept.start _ _ _ eq_refl eq_refl Hrun) as (_ & _ & Hiff).
  exact Hiff.
Defined.

(** Here the original is written over although originals are kept: the file
    is still there under its name, with the bytes of the blob. *)
Example kept_original_overwritten :
  fst (fst Kept.run) = Normal tt /\
  file_bytes <$> Mem.disk Kept.start !! "x_resized.jpg" = Some [Byte.x61] /\
  file_bytes <$> Mem.disk (snd (fst Kept.run)) !! "x_resized.jpg" = Some [] /\
  Mem.disk (snd (fst Kept.run)) !! "x.jpg" = None.
Proof. vm_compute. done. Qed.

(** * The statistics panel *)






